(** * Villager generator: a shallow embedding of [villager.tsx]

    The generator draws dice, looks the results up in four tab-separated
    tables and composes a villager record; a presentation layer turns the
    records into cards.  This development embeds the generation logic and
    the string helpers of the presentation layer, and proves the properties
    the specification states about them.

    Conventions of the model.
    - A JavaScript number is an integer or NaN ([JS.number]).  Integers are
      exact: the model agrees with the program on integers of magnitude
      2^53 at most; the rounding of larger doubles, infinities and fractions
      are outside it.  Accordingly [JS.Number] reads decimal integer
      literals and [JS.String_of_number] prints plain decimal digits, as
      JavaScript does below 10^21.
    - A string is a sequence of code units below 256 (Rocq's [string]).
    - [undefined] is [None] of an option type.
    - [Math.random] reads the next sample of a fixed source [rnd : nat -> Q];
      the position in the source is the only state of the program.  The
      samples are doubles: rationals that are their own nearest double
      ([unit_source]).  The product [Math.random() * sides] is the product
      of two doubles, that is, the exact product rounded to the nearest
      double ([JS.nearest_double]).
    - A thrown exception is the [Throw] result of the monad [M]. *)

From Stdlib Require Import ZArith QArith Qround Qpower Bool List Lia.
From Stdlib Require Import Ascii String DecimalString DecimalN.
Import ListNotations.

Local Open Scope string_scope.
Local Open Scope Z_scope.

(* ================================================================= *)
(** ** The JavaScript built-ins the program uses *)

Module JS.

(** Numbers: integers and NaN. *)
Inductive number : Type :=
| Num (z : Z)
| NaN.

Definition add (a b : number) : number :=
  match a, b with Num x, Num y => Num (x + y) | _, _ => NaN end.

Definition sub (a b : number) : number :=
  match a, b with Num x, Num y => Num (x - y) | _, _ => NaN end.

Definition mul (a b : number) : number :=
  match a, b with Num x, Num y => Num (x * y) | _, _ => NaN end.

(** [a <= b], [a >= b], [a < b] and [a === b]: false as soon as one side
    is NaN. *)
Definition le (a b : number) : bool :=
  match a, b with Num x, Num y => x <=? y | _, _ => false end.

Definition ge (a b : number) : bool :=
  match a, b with Num x, Num y => y <=? x | _, _ => false end.

Definition lt (a b : number) : bool :=
  match a, b with Num x, Num y => x <? y | _, _ => false end.

Definition strict_eq (a b : number) : bool :=
  match a, b with Num x, Num y => x =? y | _, _ => false end.

(** *** Doubles

    A finite double is [n * 2^g] with [|n| < 2^53] and [-1074 <= g]; an
    arithmetic operation on doubles returns the double nearest to the exact
    result, a tie going to the even [n]. *)

(** The nearest integer, a tie going to the even one. *)
Definition round_half_even (q : Q) : Z :=
  let f := Qfloor q in
  match Qcompare (q - inject_Z f) (1 # 2) with
  | Lt => f
  | Eq => if Z.even f then f else f + 1
  | Gt => f + 1
  end.

(** The binary exponent [e] of a positive rational [x]:
    [2^e <= x < 2^(e+1)]. *)
Definition binary_exponent (x : Q) : Z :=
  let e := Z.log2 (Qnum x) - Z.log2 (Zpos (Qden x)) in
  if Qle_bool (2 ^ e) x then e else e - 1.

(** The double nearest to a positive rational: 53 significant bits, and
    the multiples of 2^-1074 below 2^-1022.  (No overflow: the products the
    program takes stay below [sides].) *)
Definition nearest_double_pos (x : Q) : Q :=
  let g := Z.max (binary_exponent x - 52) (-1074) in
  (inject_Z (round_half_even (x / 2 ^ g)) * 2 ^ g)%Q.

Definition nearest_double (x : Q) : Q :=
  match Qnum x with
  | Z0 => 0
  | Zpos _ => nearest_double_pos x
  | Zneg _ => - nearest_double_pos (- x)
  end.

(** [Math.floor(u * sides)] for a sample [u] of [Math.random]: the floor
    of the rounded product. *)
Definition floor_mul (u : Q) (sides : number) : number :=
  match sides with
  | Num s => Num (Qfloor (nearest_double (u * inject_Z s)))
  | NaN => NaN
  end.

(** *** Characters *)

Definition is_digit (c : ascii) : bool :=
  let n := nat_of_ascii c in (48 <=? n)%nat && (n <=? 57)%nat.

(** White space and line terminators among the code units below 256:
    TAB, LF, VT, FF, CR, SP and NBSP. *)
Definition is_space (c : ascii) : bool :=
  let n := nat_of_ascii c in
  ((9 <=? n)%nat && (n <=? 13)%nat) || (n =? 32)%nat || (n =? 160)%nat.

(** [toLowerCase] on one code unit: A-Z, and the upper-case letters of
    Latin-1 (192-222 except the multiplication sign 215). *)
Definition lower_char (c : ascii) : ascii :=
  let n := nat_of_ascii c in
  if ((65 <=? n)%nat && (n <=? 90)%nat)
     || ((192 <=? n)%nat && (n <=? 222)%nat && negb (n =? 215)%nat)
  then ascii_of_nat (n + 32) else c.

(** *** Strings *)

Fixpoint toLowerCase (s : string) : string :=
  match s with
  | EmptyString => EmptyString
  | String c r => String (lower_char c) (toLowerCase r)
  end.

Definition is_empty (s : string) : bool :=
  match s with EmptyString => true | String _ _ => false end.

Fixpoint trimStart (s : string) : string :=
  match s with
  | EmptyString => EmptyString
  | String c r => if is_space c then trimStart r else s
  end.

Fixpoint trimEnd (s : string) : string :=
  match s with
  | EmptyString => EmptyString
  | String c r =>
      let t := trimEnd r in
      if is_space c && is_empty t then EmptyString else String c t
  end.

Definition trim (s : string) : string := trimEnd (trimStart s).

(** [s.split(sep)] for a one-character separator: never the empty list. *)
Fixpoint split (sep : ascii) (s : string) : list string :=
  match s with
  | EmptyString => [EmptyString]
  | String c r =>
      if Ascii.eqb c sep then EmptyString :: split sep r
      else match split sep r with
           | h :: t => String c h :: t
           | [] => [String c EmptyString]
           end
  end.

(** The longest prefix of decimal digits, and what follows it. *)
Fixpoint take_digits (s : string) : string * string :=
  match s with
  | EmptyString => (EmptyString, EmptyString)
  | String c r =>
      if is_digit c
      then let (d, rest) := take_digits r in (String c d, rest)
      else (EmptyString, s)
  end.

(** The value of a non-empty string of decimal digits. *)
Definition digits_value (s : string) : option Z :=
  match s with
  | EmptyString => None
  | String _ _ =>
      option_map (fun d => Z.of_N (N.of_uint d)) (NilEmpty.uint_of_string s)
  end.

Definition unsigned_literal (s : string) : number :=
  match digits_value s with Some z => Num z | None => NaN end.

Definition neg (a : number) : number :=
  match a with Num z => Num (- z) | NaN => NaN end.

(** [Number(s)] on the decimal integer literals: surrounding white space
    is dropped, the empty string converts to 0, an optional sign precedes
    the digits.  Any other text is NaN here; JavaScript also reads
    fractions, exponents, the [0x], [0o], [0b] forms and [Infinity], whose
    values the model's numbers do not all hold, so the statements about
    table cells ask for cells written in decimal numerals
    ([range_text]). *)
Definition Number (s : string) : number :=
  match trim s with
  | EmptyString => Num 0
  | String "+"%char r => unsigned_literal r
  | String "-"%char r => neg (unsigned_literal r)
  | t => unsigned_literal t
  end.

(** [parseInt(s, 10)]: leading white space, an optional sign, then the
    longest run of digits; NaN when that run is empty. *)
Definition parse_digits_prefix (s : string) : number :=
  unsigned_literal (fst (take_digits s)).

Definition parseInt (s : string) : number :=
  match trimStart s with
  | String "+"%char r => parse_digits_prefix r
  | String "-"%char r => neg (parse_digits_prefix r)
  | t => parse_digits_prefix t
  end.

Definition decimal (n : N) : string := NilEmpty.string_of_uint (N.to_uint n).

(** [String(x)] of a number: plain decimal digits, as JavaScript prints
    the integers of magnitude below 10^21 (from there on it prints an
    exponent form, which is outside the model). *)
Definition String_of_number (x : number) : string :=
  match x with
  | Num z => if z <? 0 then String "-"%char (decimal (Z.to_N (- z)))
             else decimal (Z.to_N z)
  | NaN => "NaN"
  end.

(** The text an [undefined] turns into when a string is expected. *)
Definition String_of_value (v : option string) : string :=
  match v with Some s => s | None => "undefined" end.

(** [a[i]]: [undefined] outside the array. *)
Definition get {A : Type} (a : list A) (i : number) : option A :=
  match i with
  | Num z => if z <? 0 then None else nth_error a (Z.to_nat z)
  | NaN => None
  end.

(** [value || fallback] on strings: [undefined] and the empty string are
    falsy. *)
Definition or_else (v : option string) (fallback : string) : string :=
  match v with
  | None => fallback
  | Some EmptyString => fallback
  | Some s => s
  end.

Fixpoint starts_with (p s : string) : bool :=
  match p, s with
  | EmptyString, _ => true
  | String a p', String b s' => Ascii.eqb a b && starts_with p' s'
  | String _ _, EmptyString => false
  end.

Fixpoint drop (n : nat) (s : string) : string :=
  match n, s with
  | O, _ => s
  | S k, String _ r => drop k r
  | S _, EmptyString => EmptyString
  end.

(** The first occurrence of [pat] in [s]: the text before and after it. *)
Fixpoint find_first (pat s : string) : option (string * string) :=
  if starts_with pat s then Some (EmptyString, drop (String.length pat) s)
  else match s with
       | EmptyString => None
       | String c r =>
           match find_first pat r with
           | Some (before, after) => Some (String c before, after)
           | None => None
           end
       end.

(** The replacement text of [replace] with a string pattern: [$$], [$&],
    [$`] and [$'] are expanded, every other character stands for itself
    (a string pattern has no captures, so [$1] is literal). *)
Fixpoint substitution (matched before after repl : string) : string :=
  match repl with
  | EmptyString => EmptyString
  | String c r =>
      let literal := String c (substitution matched before after r) in
      match r with
      | String d r' =>
          if Ascii.eqb c "$"%char then
            let rest := substitution matched before after r' in
            if Ascii.eqb d "$"%char then String "$"%char rest
            else if Ascii.eqb d "&"%char then matched ++ rest
            else if Ascii.eqb d "`"%char then before ++ rest
            else if Ascii.eqb d "'"%char then after ++ rest
            else literal
          else literal
      | EmptyString => literal
      end
  end.

(** [s.replace(pat, repl)] with a string pattern: the first occurrence
    only; [s] itself when there is none. *)
Definition replace (pat repl s : string) : string :=
  match find_first pat s with
  | Some (before, after) =>
      before ++ substitution pat before after repl ++ after
  | None => s
  end.

End JS.

(* ================================================================= *)
(** ** Effects: the random source and exceptions *)

Inductive error : Type :=
| TypeError
| RangeError.

Inductive result (A : Type) : Type :=
| Ok (a : A)
| Throw (e : error).

Arguments Ok {A} a.
Arguments Throw {A} e.

(** A computation reads samples from position [p] on and either returns a
    value with the next position or throws. *)
Definition M (A : Type) : Type := nat -> result (A * nat).

Definition ret {A : Type} (a : A) : M A := fun p => Ok (a, p).

Definition bind {A B : Type} (c : M A) (k : A -> M B) : M B :=
  fun p => match c p with
           | Ok (a, p') => k a p'
           | Throw e => Throw e
           end.

Definition throw {A : Type} (e : error) : M A := fun _ => Throw e.

Notation "x <- c ;; k" := (bind c (fun x => k))
  (at level 61, c at next level, right associativity).

(** Reading a property of [undefined] throws a TypeError. *)
Definition defined {A : Type} (v : option A) : M A :=
  match v with Some a => ret a | None => throw TypeError end.

(** [n] calls of [f], in order. *)
Fixpoint repeatM {A : Type} (n : nat) (f : M A) : M (list A) :=
  match n with
  | O => ret []
  | S k => a <- f ;; l <- repeatM k f ;; ret (a :: l)
  end.

(** [Array.from({ length }, f)]: the length is clamped to [0, 2^53 - 1]
    (NaN counts as 0), an array longer than 2^32 - 1 is refused with a
    RangeError, and [f] is called once per index. *)
Definition ToLength (n : JS.number) : Z :=
  match n with
  | JS.Num z => Z.min (Z.max z 0) (2 ^ 53 - 1)
  | JS.NaN => 0
  end.

Definition Array_from {A : Type} (length : JS.number) (f : M A) : M (list A) :=
  let len := ToLength length in
  if 2 ^ 32 - 1 <? len then throw RangeError
  else repeatM (Z.to_nat len) f.

(** Global [replace] with a callback: the text is scanned from the left;
    where [matcher] recognises a token the callback's result is emitted and
    the scan goes on after the token ([skip] counts the characters of the
    token still to pass); any other character is copied. *)
Fixpoint replace_all {C : Type} (matcher : string -> option (C * nat))
    (callback : C -> M string) (skip : nat) (s : string) : M string :=
  match s with
  | EmptyString => ret EmptyString
  | String c r =>
      match skip with
      | S k => replace_all matcher callback k r
      | O =>
          match matcher s with
          | Some (captures, n) =>
              out <- callback captures ;;
              rest <- replace_all matcher callback (Nat.pred n) r ;;
              ret (out ++ rest)
          | None =>
              rest <- replace_all matcher callback 0 r ;;
              ret (String c rest)
          end
      end
  end.

(** [/\{(\d+)d(\d+)\}/] at the head of [s]: the two captures and the length
    of the match. *)
Definition match_dice (s : string) : option ((string * string) * nat) :=
  match s with
  | String "{"%char r =>
      let (count, r1) := JS.take_digits r in
      match count, r1 with
      | String _ _, String "d"%char r2 =>
          let (sides, r3) := JS.take_digits r2 in
          match sides, r3 with
          | String _ _, String "}"%char _ =>
              Some ((count, sides),
                    (String.length count + String.length sides + 3)%nat)
          | _, _ => None
          end
      | _, _ => None
      end
  | _ => None
  end.

(** A pattern without captures that is one fixed text. *)
Definition match_text (token s : string) : option (unit * nat) :=
  if JS.starts_with token s then Some (tt, String.length token) else None.

(* ================================================================= *)
(** ** The data model *)

Record Abilities : Type := {
  STR : JS.number;
  DEX : JS.number;
  CON : JS.number;
  INT : JS.number;
  WIS : JS.number;
  CHA : JS.number;
  LUC : JS.number
}.

(** [species] is the text of the occupation row's fourth column, cast to
    the species type unchecked; [name] and [occupation] are table cells and
    [undefined] when the row is short. *)
Record Villager : Type := {
  name : option string;
  species : string;
  occupation : option string;
  look : string;
  stats : Abilities;
  modifiers : Abilities;
  hp : JS.number;
  load : JS.number;
  damage : string;
  gear : list string;
  bond : string;
  heritageMoves : list string
}.

(** The four tables, header line removed. *)
Record Tables : Type := {
  occupationRows : list (list string);
  nameRows : list (list string);
  lookRows : list (list string);
  bondRows : list (list string)
}.

Definition CROPS : list string :=
  [ "barley"; "onions"; "peppers"; "potatoes"; "squash";
    "rice"; "wheat"; "hops"; "beets"; "oats" ].

Definition INSTRUMENTS : list string :=
  [ "accordion (2 wt)"; "drum (1 wt)"; "fiddle (1 wt)"; "flute";
    "guitar (1 wt)"; "mbira"; "horn (1 wt)"; "banjo (1 wt)" ].

Definition ANIMAL_TRAINER_GEAR : list string :=
  [ "leather gauntlet, falcon"; "2 dogs, leashes";
    "monkey, music box (2 wt)"; "cage (1 wt), 2 ferrets" ].

Definition getMod (score : JS.number) : JS.number :=
  if JS.strict_eq score (JS.Num 3) then JS.Num (-3)
  else if JS.le score (JS.Num 5) then JS.Num (-2)
  else if JS.le score (JS.Num 8) then JS.Num (-1)
  else if JS.le score (JS.Num 12) then JS.Num 0
  else if JS.le score (JS.Num 15) then JS.Num 1
  else if JS.le score (JS.Num 17) then JS.Num 2
  else JS.Num 3.

Definition formatMod (modifier : JS.number) : string :=
  if JS.ge modifier (JS.Num 0) then "+" ++ JS.String_of_number modifier
  else JS.String_of_number modifier.

Definition parseRange (s : string) : JS.number * JS.number :=
  let parts := map JS.Number (JS.split "-" s) in
  match parts with
  | [p] => (p, p)
  | p0 :: p1 :: _ => (p0, p1)
  | [] => (JS.NaN, JS.NaN)
  end.

Definition getHeritageMoves (species : string) : list string :=
  if String.eqb species "Dwarf" then
    [ "Etched in Stone: When you appraise an artificial item, object, or location, the GM will tell you something interesting about the one who made it, no questions asked." ]
  else if String.eqb species "Elf" then
    [ "These Elf Eyes: You see perfectly in the barest light and may focus your senses to Detect Magic at will." ]
  else if String.eqb species "Halfling" then
    [ "Lucky: When you Tempt Fate and score a 10+ you don't suffer disadvantage and on a 12+ your luck rubs off; the nearest ally gains advantage on their next roll." ]
  else [].

(** The loop of [parseGear]: [items] collected so far, the item being read
    and the parenthesis depth. *)
Fixpoint parseGear_loop (s : string) (items : list string)
    (current : string) (depth : Z) : list string :=
  match s with
  | EmptyString =>
      if JS.is_empty (JS.trim current) then items
      else items ++ [JS.trim current]
  | String char r =>
      let depth1 := if Ascii.eqb char "("%char then depth + 1 else depth in
      let depth2 := if Ascii.eqb char ")"%char then depth1 - 1 else depth1 in
      if Ascii.eqb char ","%char && (depth2 =? 0)
      then parseGear_loop r (items ++ [JS.trim current]) EmptyString depth2
      else parseGear_loop r items (current ++ String char EmptyString) depth2
  end.

Definition parseGear (gearStr : string) : list string :=
  parseGear_loop gearStr [] EmptyString 0.

(* ================================================================= *)
(** ** The generator *)

Section Generator.

Variable rnd : nat -> Q.
Variable T : Tables.

Definition Math_random : M Q := fun p => Ok (rnd p, S p).

(** The loop of [roll]: [n] iterations still to run. *)
Fixpoint roll_loop (n : nat) (sides sum : JS.number) : M JS.number :=
  match n with
  | O => ret sum
  | S k =>
      u <- Math_random ;;
      roll_loop k sides (JS.add sum (JS.add (JS.floor_mul u sides) (JS.Num 1)))
  end.

(** How often [for (i = 0; i < count; i++)] runs. *)
Definition iterations (count : JS.number) : nat :=
  match count with
  | JS.Num c => Z.to_nat c
  | JS.NaN => O
  end.

(** A part missing after the split is [undefined], which the loop test and
    the product treat as NaN. *)
Definition roll (dice : string) : M JS.number :=
  let parts := map JS.Number (JS.split "d" dice) in
  let count := nth 0 parts JS.NaN in
  let sides := nth 1 parts JS.NaN in
  roll_loop (iterations count) sides (JS.Num 0).

Definition pick (a : list string) (dice : string) : M string :=
  r <- roll dice ;;
  ret (JS.String_of_value (JS.get a (JS.sub r (JS.Num 1)))).

Definition poultry : M string :=
  a <- roll "1d6" ;;
  b <- roll "1d6" ;;
  c <- roll "1d4" ;;
  d <- roll "1d4" ;;
  let birds :=
    [ JS.String_of_number a ++ " chickens";
      JS.String_of_number b ++ " ducks";
      JS.String_of_number c ++ " geese";
      JS.String_of_number d ++ " swans" ] in
  pick birds "1d4".

Definition expandGearTemplate (template : string) : M string :=
  s1 <- replace_all match_dice
          (fun '(count, sides) =>
             r <- roll (count ++ "d" ++ sides) ;; ret (JS.String_of_number r))
          0 template ;;
  s2 <- replace_all (match_text "{2+1d4*2}")
          (fun _ =>
             r <- roll "1d4" ;;
             ret (JS.String_of_number
                    (JS.add (JS.Num 2) (JS.mul r (JS.Num 2)))))
          0 s1 ;;
  s3 <- replace_all (match_text "{crop}")
          (fun _ => pick CROPS "1d10") 0 s2 ;;
  s4 <- replace_all (match_text "{instrument}")
          (fun _ => pick INSTRUMENTS "1d8") 0 s3 ;;
  s5 <- replace_all (match_text "{animal_trainer_gear}")
          (fun _ => pick ANIMAL_TRAINER_GEAR "1d4") 0 s4 ;;
  replace_all (match_text "{poultry}") (fun _ => poultry) 0 s5.

(** The test of [find]: the row's first cell is parsed as a range. *)
Definition in_range (rollResult : JS.number) (row : list string) : M bool :=
  range <- defined (JS.get row (JS.Num 0)) ;;
  let (min, max) := parseRange range in
  ret (JS.ge rollResult min && JS.le rollResult max).

Fixpoint find_row (rollResult : JS.number) (rows : list (list string))
  : M (option (list string)) :=
  match rows with
  | [] => ret None
  | row :: rest =>
      b <- in_range rollResult row ;;
      if b then ret (Some row) else find_row rollResult rest
  end.

Record Occupation : Type := {
  occ_name : option string;
  occ_gear : string;
  occ_species : string
}.

Definition getOccupation (rollResult : JS.number) : M Occupation :=
  found <- find_row rollResult (occupationRows T) ;;
  row <- defined found ;;
  template <- defined (JS.get row (JS.Num 2)) ;;
  g <- expandGearTemplate template ;;
  ret {| occ_name := JS.get row (JS.Num 1);
         occ_gear := g;
         occ_species := JS.or_else (JS.get row (JS.Num 3)) "Human" |}.

Definition getName (species : string) : M (option string) :=
  d <- roll "1d20" ;;
  let r := JS.sub d (JS.Num 1) in
  let row := JS.get (nameRows T) r in
  if String.eqb species "Elf" then
    cells <- defined row ;; ret (JS.get cells (JS.Num 4))
  else if String.eqb species "Dwarf" then
    cells <- defined row ;; ret (JS.get cells (JS.Num 5))
  else if String.eqb species "Halfling" then
    cells <- defined row ;; ret (JS.get cells (JS.Num 6))
  else
    coin <- roll "1d2" ;;
    if JS.strict_eq coin (JS.Num 1) then
      column <- roll "1d2" ;;
      cells <- defined row ;; ret (JS.get cells column)
    else
      cells <- defined row ;; ret (JS.get cells (JS.Num 3)).

(** One cell of the look table: a fresh d20 picks the row. *)
Definition lookCell (column : Z) : M (option string) :=
  d <- roll "1d20" ;;
  cells <- defined (JS.get (lookRows T) (JS.sub d (JS.Num 1))) ;;
  ret (JS.get cells (JS.Num column)).

Definition lower (cell : option string) : M string :=
  s <- defined cell ;; ret (JS.toLowerCase s).

Definition getLook : M string :=
  face <- lookCell 1 ;;
  eyes <- lookCell 2 ;;
  hair <- lookCell 3 ;;
  body <- lookCell 4 ;;
  clothing <- lookCell 5 ;;
  face' <- lower face ;;
  eyes' <- lower eyes ;;
  hair' <- lower hair ;;
  body' <- lower body ;;
  clothing' <- lower clothing ;;
  ret (face' ++ " face, " ++ eyes' ++ " eyes, " ++ hair' ++ " hair, "
       ++ body' ++ " body, " ++ clothing' ++ " clothing").

Definition getBond : M string :=
  d <- roll "1d20" ;;
  let row := JS.get (bondRows T) (JS.sub d (JS.Num 1)) in
  k <- roll "1d4" ;;
  cells <- defined row ;;
  let detail := JS.get cells k in
  template <- defined (JS.get cells (JS.Num 0)) ;;
  ret (JS.replace "..." (JS.String_of_value detail) template).

Definition generateVillager : M Villager :=
  str <- roll "3d6" ;;
  dex <- roll "3d6" ;;
  con <- roll "3d6" ;;
  int <- roll "3d6" ;;
  wis <- roll "3d6" ;;
  cha <- roll "3d6" ;;
  luc <- roll "3d6" ;;
  let stats := {| STR := str; DEX := dex; CON := con; INT := int;
                  WIS := wis; CHA := cha; LUC := luc |} in
  let modifiers :=
    {| STR := getMod (STR stats); DEX := getMod (DEX stats);
       CON := getMod (CON stats); INT := getMod (INT stats);
       WIS := getMod (WIS stats); CHA := getMod (CHA stats);
       LUC := getMod (LUC stats) |} in
  d100 <- roll "1d100" ;;
  occ <- getOccupation d100 ;;
  let hp := JS.add (CON stats) (JS.Num 4) in
  let load := JS.add (STR stats) (JS.Num 4) in
  n <- getName (occ_species occ) ;;
  l <- getLook ;;
  b <- getBond ;;
  ret {| name := n;
         species := occ_species occ;
         occupation := occ_name occ;
         look := l;
         stats := stats;
         modifiers := modifiers;
         hp := hp;
         load := load;
         damage := "d4";
         gear := [occ_gear occ];
         bond := b;
         heritageMoves := getHeritageMoves (occ_species occ) |}.

End Generator.

(* ================================================================= *)
(** ** The presentation layer

    The element tree handed to the renderer, as data: one card per
    villager, each holding the texts the card shows. *)

Record StatView : Type := {
  stat_name : string;
  stat_value : string;
  stat_mod : string;
  modColor : string
}.

(** [s.padStart(2)]. *)
Definition padStart2 (s : string) : string :=
  match s with
  | EmptyString => "  "
  | String c EmptyString => String " "%char s
  | _ => s
  end.

Definition Stat (label : string) (value modifier : JS.number) : StatView :=
  {| stat_name := label;
     stat_value := padStart2 (JS.String_of_number value);
     stat_mod := padStart2 (formatMod modifier);
     modColor := if JS.lt (JS.Num 0) modifier then "green"
                 else if JS.lt modifier (JS.Num 0) then "red"
                 else "gray" |}.

Inductive MoveLine : Type :=
| HeritageMove (color species text : string)
| KnowYourStuff.

Record Card : Type := {
  card_name : option string;
  card_occupation : option string;
  card_look : string;
  card_stats : list StatView;
  card_hp : JS.number;
  card_load : JS.number;
  card_damage : string;
  gearItems : list string;
  card_bond : string;
  card_moves : list MoveLine
}.

Definition speciesColor (v : Villager) : string :=
  if String.eqb (species v) "Dwarf" then "red"
  else if String.eqb (species v) "Elf" then "cyan"
  else if String.eqb (species v) "Halfling" then "green"
  else "white".

Definition VillagerCard (v : Villager) : Card :=
  {| card_name := name v;
     card_occupation := occupation v;
     card_look := look v;
     card_stats :=
       [ Stat "STR" (STR (stats v)) (STR (modifiers v));
         Stat "DEX" (DEX (stats v)) (DEX (modifiers v));
         Stat "CON" (CON (stats v)) (CON (modifiers v));
         Stat "INT" (INT (stats v)) (INT (modifiers v));
         Stat "WIS" (WIS (stats v)) (WIS (modifiers v));
         Stat "CHA" (CHA (stats v)) (CHA (modifiers v));
         Stat "LUC" (LUC (stats v)) (LUC (modifiers v)) ];
     card_hp := hp v;
     card_load := load v;
     card_damage := damage v;
     gearItems := flat_map parseGear (gear v);
     card_bond := bond v;
     card_moves :=
       map (HeritageMove (speciesColor v) (species v)) (heritageMoves v)
       ++ [KnowYourStuff] |}.

Definition App (villagers : list Villager) : list Card :=
  map VillagerCard villagers.

(** The program: [argv2] is [process.argv[2]], [undefined] when the
    argument is absent.  The result is the list of villagers and the tree
    given to [render]. *)
Definition main (rnd : nat -> Q) (T : Tables) (argv2 : option string)
  : M (list Villager * list Card) :=
  let count := JS.parseInt (JS.or_else argv2 "1") in
  villagers <- Array_from count (generateVillager rnd T) ;;
  ret (villagers, App villagers).

(* ================================================================= *)
(** ** Loading the tables *)

(** [readTsv] on the text of a table file: the text is trimmed and cut
    into lines, each line into cells at the tabs. *)
Definition readTsv (content : string) : list (list string) :=
  map (JS.split "009"%char) (JS.split "010"%char (JS.trim content)).

(** [const [, ...rows] = readTsv(name)]: the rows after the header line. *)
Definition data_rows (content : string) : list (list string) :=
  tl (readTsv content).

Definition load_tables (occupations names looks bonds : string) : Tables :=
  {| occupationRows := data_rows occupations;
     nameRows := data_rows names;
     lookRows := data_rows looks;
     bondRows := data_rows bonds |}.

(* ================================================================= *)
(** ** Fixture tables and a fixture source *)

Definition fixture_occupations : list (list string) :=
  [ ["1-40"; "Farmer"; "{crop} seeds, {1d6} coins, {poultry}"; ""];
    ["41-60"; "Minstrel"; "{instrument}, {2+1d4*2} songs"; "Elf"];
    ["61-99"; "Animal trainer"; "{animal_trainer_gear}"; "Dwarf"];
    ["100"; "Gambler"; "dice, cards"; "Halfling"] ].

Definition fixture_tables : Tables :=
  {| occupationRows := fixture_occupations;
     nameRows := repeat ["1"; "Ann"; "Bob"; "Cid"; "Elu"; "Dor"; "Hal"] 20;
     lookRows := repeat ["1"; "Round"; "Grey"; "Curly"; "Tall"; "Plain"] 20;
     bondRows :=
       repeat ["They once saved my ... from ruin";
               "farm"; "shop"; "name"; "life"] 20 |}.

(** A source that walks through the unit interval in steps of 7/16. *)
Definition fixture_rnd (i : nat) : Q :=
  Qmake ((7 * Z.of_nat i + 3) mod 16) 16.

(* ================================================================= *)
(** ** Vocabulary of the statements *)

(** The largest double below 1: 1 - 2^-53. *)
Definition below_one : Q := 9007199254740991 # 9007199254740992.

(** Every sample of the source is a double in the unit interval, as the
    samples of [Math.random] are: 0 or more, less than 1, and its own
    nearest double. *)
Definition unit_source (rnd : nat -> Q) : Prop :=
  forall i : nat,
    (0 <= rnd i)%Q /\ (rnd i < 1)%Q /\ (JS.nearest_double (rnd i) == rnd i)%Q.

(** The face shown by the [i]-th sample on a die with [sides] faces:
    [Math.floor(Math.random() * sides) + 1]. *)
Definition die (rnd : nat -> Q) (sides : Z) (i : nat) : Z :=
  Qfloor (JS.nearest_double (rnd i * inject_Z sides)) + 1.

(** The sum of the [n] dice thrown from position [p] on. *)
Fixpoint sum_dice (rnd : nat -> Q) (sides : Z) (p n : nat) : Z :=
  match n with
  | O => 0
  | S k => die rnd sides p + sum_dice rnd sides (S p) k
  end.

(** The dice expression [`${count}d${sides}`]. *)
Definition dice_text (count sides : Z) : string :=
  JS.String_of_number (JS.Num count) ++ "d"
  ++ JS.String_of_number (JS.Num sides).

Fixpoint all_digits (s : string) : bool :=
  match s with
  | EmptyString => true
  | String c r => JS.is_digit c && all_digits r
  end.

(** A non-empty run of decimal digits. *)
Definition integer_text (s : string) : bool :=
  negb (JS.is_empty s) && all_digits s.

(** The parenthesis depth [parseGear] has reached after reading [s] from
    depth [d]. *)
Fixpoint depth_after (d : Z) (s : string) : Z :=
  match s with
  | EmptyString => d
  | String c r =>
      let d1 := if Ascii.eqb c "("%char then d + 1 else d in
      let d2 := if Ascii.eqb c ")"%char then d1 - 1 else d1 in
      depth_after d2 r
  end.

(** No comma of [s] is read at depth zero, reading from depth [d]. *)
Fixpoint no_top_level_comma (d : Z) (s : string) : bool :=
  match s with
  | EmptyString => true
  | String c r =>
      let d1 := if Ascii.eqb c "("%char then d + 1 else d in
      let d2 := if Ascii.eqb c ")"%char then d1 - 1 else d1 in
      negb (Ascii.eqb c ","%char && (d2 =? 0)) && no_top_level_comma d2 r
  end.

(** The character [sep] does not occur in [s]. *)
Fixpoint free_of (sep : ascii) (s : string) : bool :=
  match s with
  | EmptyString => true
  | String c r => negb (Ascii.eqb c sep) && free_of sep r
  end.

(** The [k]-th ability score of the villager generated from position [p]:
    three six-sided dice at samples [p + 3k], [p + 3k + 1], [p + 3k + 2]. *)
Definition score (rnd : nat -> Q) (p k : nat) : Z :=
  sum_dice rnd 6 (p + 3 * k) 3.

(** The abilities of the villager generated from position [p]. *)
Definition rolled_stats (rnd : nat -> Q) (p : nat) : Abilities :=
  {| STR := JS.Num (score rnd p 0); DEX := JS.Num (score rnd p 1);
     CON := JS.Num (score rnd p 2); INT := JS.Num (score rnd p 3);
     WIS := JS.Num (score rnd p 4); CHA := JS.Num (score rnd p 5);
     LUC := JS.Num (score rnd p 6) |}.

Definition rolled_modifiers (rnd : nat -> Q) (p : nat) : Abilities :=
  {| STR := getMod (JS.Num (score rnd p 0));
     DEX := getMod (JS.Num (score rnd p 1));
     CON := getMod (JS.Num (score rnd p 2));
     INT := getMod (JS.Num (score rnd p 3));
     WIS := getMod (JS.Num (score rnd p 4));
     CHA := getMod (JS.Num (score rnd p 5));
     LUC := getMod (JS.Num (score rnd p 6)) |}.

(** The record the generator builds from the scores rolled at [p] and the
    parts it has looked up. *)
Definition villager_of (rnd : nat -> Q) (p : nat) (occ : Occupation)
    (n : option string) (l b : string) : Villager :=
  {| name := n;
     species := occ_species occ;
     occupation := occ_name occ;
     look := l;
     stats := rolled_stats rnd p;
     modifiers := rolled_modifiers rnd p;
     hp := JS.Num (score rnd p 2 + 4);
     load := JS.Num (score rnd p 0 + 4);
     damage := "d4";
     gear := [occ_gear occ];
     bond := b;
     heritageMoves := getHeritageMoves (occ_species occ) |}.

(** The generator after its seven ability rolls, which started at [p]. *)
Definition lookups (rnd : nat -> Q) (T : Tables) (p : nat) : M Villager :=
  d100 <- roll rnd "1d100" ;;
  occ <- getOccupation rnd T d100 ;;
  n <- getName rnd T (occ_species occ) ;;
  l <- getLook rnd T ;;
  b <- getBond rnd T ;;
  ret (villager_of rnd p occ n l b).

Definition score_ok (x : JS.number) : Prop :=
  exists s : Z, x = JS.Num s /\ 3 <= s <= 18.

(** The invariants of one villager record. *)
Definition villager_ok (v : Villager) : Prop :=
  (score_ok (STR (stats v)) /\ score_ok (DEX (stats v)) /\
   score_ok (CON (stats v)) /\ score_ok (INT (stats v)) /\
   score_ok (WIS (stats v)) /\ score_ok (CHA (stats v)) /\
   score_ok (LUC (stats v))) /\
  modifiers v
  = {| STR := getMod (STR (stats v)); DEX := getMod (DEX (stats v));
       CON := getMod (CON (stats v)); INT := getMod (INT (stats v));
       WIS := getMod (WIS (stats v)); CHA := getMod (CHA (stats v));
       LUC := getMod (LUC (stats v)) |} /\
  hp v = JS.add (CON (stats v)) (JS.Num 4) /\
  load v = JS.add (STR (stats v)) (JS.Num 4) /\
  damage v = "d4" /\
  List.length (gear v) = 1%nat /\
  heritageMoves v = getHeritageMoves (species v) /\
  (List.length (heritageMoves v) <= 1)%nat.

(** [c] returns from every position, with a value satisfying [P]. *)
Definition returns {A : Type} (P : A -> Prop) (c : M A) : Prop :=
  forall p : nat, exists (a : A) (q : nat), c p = Ok (a, q) /\ P a.

(** *** Well-formed tables *)

(** A range cell: one decimal numeral, or two joined by a dash. *)
Definition range_text (s : string) : bool :=
  match JS.split "-" s with
  | [a] => integer_text a
  | [a; b] => integer_text a && integer_text b
  | _ => false
  end.

(** The row's range contains the roll. *)
Definition covers (rollResult : JS.number) (row : list string) : bool :=
  match row with
  | range :: _ =>
      JS.ge rollResult (fst (parseRange range))
      && JS.le rollResult (snd (parseRange range))
  | [] => false
  end.

Definition ranges_parse (T : Tables) : bool :=
  forallb (fun row => match row with
                      | range :: _ => range_text range
                      | [] => false
                      end)
          (occupationRows T).

Definition ranges_cover (T : Tables) : bool :=
  forallb (fun r => existsb (covers (JS.Num r)) (occupationRows T))
          (map Z.of_nat (seq 1 100)).

(** At least [n] rows, every row with at least [columns] cells. *)
Definition has_rows (n columns : nat) (rows : list (list string)) : bool :=
  (n <=? List.length rows)%nat
  && forallb (fun row => (columns <=? List.length row)%nat) rows.

(** Well-formedness as the claim about failure-freedom words it: the
    occupation ranges parse as integers and jointly cover 1..100; the name,
    look and bond tables have 20 rows or more, with the columns the
    generator reads (7, 6 and 5 cells). *)
Definition tables_covered (T : Tables) : bool :=
  ranges_parse T && ranges_cover T
  && has_rows 20 7 (nameRows T)
  && has_rows 20 6 (lookRows T)
  && has_rows 20 5 (bondRows T).

(** Every occupation row reaches its gear-template column. *)
Definition gear_columns (T : Tables) : bool :=
  forallb (fun row => (3 <=? List.length row)%nat) (occupationRows T).

Definition tables_wf (T : Tables) : bool :=
  tables_covered T && gear_columns T.

(** Tables that meet [tables_covered] while the one occupation row stops
    before the gear column. *)
Definition short_row_tables : Tables :=
  {| occupationRows := [["1-100"; "Serf"]];
     nameRows := nameRows fixture_tables;
     lookRows := lookRows fixture_tables;
     bondRows := bondRows fixture_tables |}.

(** *** Templates and tokens *)

Definition matches {C : Type} (m : string -> option (C * nat)) (s : string)
  : bool :=
  match m s with Some _ => true | None => false end.

(** One of the six token patterns of [expandGearTemplate] matches at the
    head of [s]. *)
Definition token_at (s : string) : bool :=
  matches match_dice s
  || matches (match_text "{2+1d4*2}") s
  || matches (match_text "{crop}") s
  || matches (match_text "{instrument}") s
  || matches (match_text "{animal_trainer_gear}") s
  || matches (match_text "{poultry}") s.

(** [test] holds at no position of [s]. *)
Fixpoint nowhere (test : string -> bool) (s : string) : bool :=
  negb (test s)
  && match s with
     | EmptyString => true
     | String _ r => nowhere test r
     end.

(** No supported token occurs in [s]. *)
Definition token_free (s : string) : bool := nowhere token_at s.

(** The supported tokens; a dice token carries its two digit runs. *)
Inductive token : Type :=
| TDice (count sides : string)
| TCompound
| TCrop
| TInstrument
| TAnimalTrainerGear
| TPoultry.

Definition token_text (t : token) : string :=
  match t with
  | TDice count sides => "{" ++ count ++ "d" ++ sides ++ "}"
  | TCompound => "{2+1d4*2}"
  | TCrop => "{crop}"
  | TInstrument => "{instrument}"
  | TAnimalTrainerGear => "{animal_trainer_gear}"
  | TPoultry => "{poultry}"
  end.

Definition token_ok (t : token) : bool :=
  match t with
  | TDice count sides => integer_text count && integer_text sides
  | _ => true
  end.

(** The pass of [expandGearTemplate] that replaces the token. *)
Definition pass_of (t : token) : nat :=
  match t with
  | TDice _ _ => 0
  | TCompound => 1
  | TCrop => 2
  | TInstrument => 3
  | TAnimalTrainerGear => 4
  | TPoultry => 5
  end.

(** A flat template: literal text without an opening brace, and tokens. *)
Inductive piece : Type :=
| Lit (s : string)
| Tok (t : token).

Definition piece_text (x : piece) : string :=
  match x with
  | Lit s => s
  | Tok t => token_text t
  end.

Definition piece_ok (x : piece) : bool :=
  match x with
  | Lit s => free_of "{" s
  | Tok t => token_ok t
  end.

Definition concat_text (l : list string) : string :=
  fold_right append EmptyString l.

Definition render (pieces : list piece) : string :=
  concat_text (map piece_text pieces).

(** What a token may be replaced by. *)
Definition token_out (t : token) (out : string) : Prop :=
  match t with
  | TDice _ _ => integer_text out = true
  | TCompound => In out ["4"; "6"; "8"; "10"]
  | TCrop => In out CROPS
  | TInstrument => In out INSTRUMENTS
  | TAnimalTrainerGear => In out ANIMAL_TRAINER_GEAR
  | TPoultry =>
      exists a b c d : Z,
        1 <= a <= 6 /\ 1 <= b <= 6 /\ 1 <= c <= 4 /\ 1 <= d <= 4 /\
        In out [ JS.String_of_number (JS.Num a) ++ " chickens";
                 JS.String_of_number (JS.Num b) ++ " ducks";
                 JS.String_of_number (JS.Num c) ++ " geese";
                 JS.String_of_number (JS.Num d) ++ " swans" ]
  end.

(** The output for one piece of a template: literal text is unchanged, a
    token is replaced. *)
Definition expansion_of (x : piece) (out : string) : Prop :=
  match x with
  | Lit s => out = s
  | Tok t => token_out t out
  end.

(** A piece and its current text while the passes run: before pass
    [stage], a token is either still in place, and then due in a later
    pass, or already replaced. *)
Definition item_ok (stage : nat) (it : piece * string) : Prop :=
  match fst it with
  | Lit s => snd it = s /\ free_of "{" s = true
  | Tok t =>
      token_ok t = true /\
      ((snd it = token_text t /\ (stage <= pass_of t)%nat)
       \/ token_out t (snd it))
  end.

(** *** Further vocabulary *)

(** The texts of [l] joined by the character [sep]. *)
Fixpoint join (sep : ascii) (l : list string) : string :=
  match l with
  | [] => EmptyString
  | [s] => s
  | s :: rest => s ++ String sep (join sep rest)
  end.

(** How often [c] occurs in [s]. *)
Fixpoint count_char (c : ascii) (s : string) : nat :=
  match s with
  | EmptyString => O
  | String x r => ((if Ascii.eqb x c then 1 else 0) + count_char c r)%nat
  end.

(** The pieces of a comma-separated text as gear items: every piece is
    trimmed, and a blank last piece is dropped. *)
Fixpoint trimmed_pieces (parts : list string) : list string :=
  match parts with
  | [] => []
  | [last] => if JS.is_empty (JS.trim last) then [] else [JS.trim last]
  | part :: rest => JS.trim part :: trimmed_pieces rest
  end.

(** The columns of the name table a species may be named from. *)
Definition name_column (species : string) (k : nat) : Prop :=
  if String.eqb species "Elf" then k = 4%nat
  else if String.eqb species "Dwarf" then k = 5%nat
  else if String.eqb species "Halfling" then k = 6%nat
  else (1 <= k <= 3)%nat.

(** The row a d20 showing [d] selects is one of the first twenty. *)
Definition d20_row (rows : list (list string)) (row : list string) : Prop :=
  exists i : nat, (i < 20)%nat /\ nth_error rows i = Some row.

(** The row starts with a range cell written in decimal numerals, the
    form on which the model's [Number] and the program's agree. *)
Definition decimal_range_row (row : list string) : bool :=
  match row with
  | range :: _ => range_text range
  | [] => false
  end.

(** Tables whose only occupation range stops at 30. *)
Definition gap_tables : Tables :=
  {| occupationRows := [["1-30"; "Farmer"; "hoe"; ""]];
     nameRows := nameRows fixture_tables;
     lookRows := lookRows fixture_tables;
     bondRows := bondRows fixture_tables |}.

(** A modifier between -3 and 3. *)
Definition modifier_ok (x : JS.number) : Prop :=
  exists m : Z, x = JS.Num m /\ -3 <= m <= 3.

(** [current] put in front of the first of [parts]. *)
Definition prepend (current : string) (parts : list string) : list string :=
  match parts with
  | first :: rest => (current ++ first) :: rest
  | [] => [current]
  end.

(** The text of a table file put together again from its rows. *)
Definition join_rows (rows : list (list string)) : string :=
  join "010" (map (join "009") rows).

(** A table file that holds its header line and nothing else. *)
Definition header_only : string :=
  "range" ++ String "009" ("name" ++ String "009" "gear").

(** The samples the resolver of a token reads: one per die of a dice
    token, five for the poultry (four bird counts and the choice), one for
    each of the others. *)
Definition token_cost (t : token) : nat :=
  match t with
  | TDice count _ => iterations (JS.Number count)
  | TPoultry => 5
  | _ => 1
  end.

Definition piece_cost (x : piece) : nat :=
  match x with
  | Lit _ => 0
  | Tok t => token_cost t
  end.

(** The samples the pass [stage] reads on a template. *)
Definition stage_cost (stage : nat) (pieces : list piece) : nat :=
  list_sum (map (fun x => match x with
                          | Tok t => if (pass_of t =? stage)%nat
                                     then token_cost t else 0%nat
                          | Lit _ => 0%nat
                          end) pieces).

Definition template_cost (pieces : list piece) : nat :=
  list_sum (map piece_cost pieces).

(** A piece and its current text before pass [stage]: a token due in this
    pass or a later one is still in place, a token of an earlier pass has
    been replaced. *)
Definition item_staged (stage : nat) (it : piece * string) : Prop :=
  match fst it with
  | Lit s => snd it = s /\ free_of "{" s = true
  | Tok t =>
      token_ok t = true /\
      ((snd it = token_text t /\ (stage <= pass_of t)%nat)
       \/ (token_out t (snd it) /\ (pass_of t < stage)%nat))
  end.

(** The bird phrase the poultry resolver shows when its samples start at
    [p]: the fifth sample picks the bird, the count is the one rolled for
    that bird. *)
Definition poultry_text (rnd : nat -> Q) (p : nat) : string :=
  let bird := die rnd 4 (p + 4) in
  if bird =? 1 then
    JS.String_of_number (JS.Num (die rnd 6 p)) ++ " chickens"
  else if bird =? 2 then
    JS.String_of_number (JS.Num (die rnd 6 (p + 1))) ++ " ducks"
  else if bird =? 3 then
    JS.String_of_number (JS.Num (die rnd 4 (p + 2))) ++ " geese"
  else
    JS.String_of_number (JS.Num (die rnd 4 (p + 3))) ++ " swans".

(** *** Resolving a flat template piece by piece *)

(** A dice token within the integers that doubles hold exactly: the count,
    the sides and the largest sum are 2^53 at most, so the sum is printed
    in plain decimal digits. *)
Definition dice_exact (count sides : string) : bool :=
  match JS.Number count, JS.Number sides with
  | JS.Num c, JS.Num s =>
      (c <=? 2 ^ 53) && (s <=? 2 ^ 53) && (c * s <=? 2 ^ 53)
  | _, _ => false
  end.

Definition piece_exact (x : piece) : bool :=
  piece_ok x
  && match x with
     | Tok (TDice count sides) => dice_exact count sides
     | _ => true
     end.

(** The resolver of a token: the call the pass of its kind makes on it. *)
Definition resolver (rnd : nat -> Q) (t : token) : M string :=
  match t with
  | TDice count sides =>
      r <- roll rnd (count ++ "d" ++ sides) ;; ret (JS.String_of_number r)
  | TCompound =>
      r <- roll rnd "1d4" ;;
      ret (JS.String_of_number (JS.add (JS.Num 2) (JS.mul r (JS.Num 2))))
  | TCrop => pick rnd CROPS "1d10"
  | TInstrument => pick rnd INSTRUMENTS "1d8"
  | TAnimalTrainerGear => pick rnd ANIMAL_TRAINER_GEAR "1d4"
  | TPoultry => poultry rnd
  end.

(** Pass [stage] over the pieces of a template, from the left: a token of
    this stage is replaced by the text its own resolver call returns, read
    from the samples that follow those of the call before it; every other
    piece is kept. *)
Fixpoint resolve_stage (rnd : nat -> Q) (stage : nat) (pieces : list piece)
    (p : nat) : list piece * nat :=
  match pieces with
  | [] => ([], p)
  | Lit s :: rest =>
      let (l, q) := resolve_stage rnd stage rest p in (Lit s :: l, q)
  | Tok t :: rest =>
      if (pass_of t =? stage)%nat then
        match resolver rnd t p with
        | Ok (out, q1) =>
            let (l, q) := resolve_stage rnd stage rest q1 in (Lit out :: l, q)
        | Throw _ =>
            let (l, q) := resolve_stage rnd stage rest p in (Tok t :: l, q)
        end
      else
        let (l, q) := resolve_stage rnd stage rest p in (Tok t :: l, q)
  end.

(** The six passes, one after the other. *)
Definition resolve (rnd : nat -> Q) (pieces : list piece) (p : nat)
  : list piece * nat :=
  fold_left (fun st stage => resolve_stage rnd stage (fst st) (snd st))
            (seq 0 6) (pieces, p).

(** A piece before pass [stage]: literal text without an opening brace, or
    a token due in this pass or a later one. *)
Definition piece_staged (stage : nat) (x : piece) : Prop :=
  match x with
  | Lit s => free_of "{" s = true
  | Tok t => token_ok t = true /\ (stage <= pass_of t)%nat
  end.

(** What pass [stage] makes of one piece. *)
Definition piece_step (stage : nat) (x y : piece) : Prop :=
  match x with
  | Lit s => y = Lit s
  | Tok t =>
      if (pass_of t =? stage)%nat
      then exists out, y = Lit out /\ token_out t out
      else y = Tok t
  end.

(** What the passes before [stage] have made of one piece. *)
Definition piece_progress (stage : nat) (x y : piece) : Prop :=
  match x with
  | Lit s => y = Lit s
  | Tok t =>
      if (pass_of t <? stage)%nat
      then exists out, y = Lit out /\ token_out t out
      else y = Tok t
  end.

(** *** Cells read inside the tables *)

(** The name is a cell that exists, in one of the first twenty rows of the
    name table and in a column of the villager's species. *)
Definition name_in_range (T : Tables) (v : Villager) : Prop :=
  exists (row : list string) (k : nat) (cell : string),
    d20_row (nameRows T) row /\ name_column (species v) k /\
    nth_error row k = Some cell /\ name v = Some cell.

(** The look is made of five cells that exist, each in its own column of
    one of the first twenty rows of the look table. *)
Definition look_in_range (T : Tables) (v : Villager) : Prop :=
  exists (r1 r2 r3 r4 r5 : list string)
         (face eyes hair body clothing : string),
    d20_row (lookRows T) r1 /\ nth_error r1 1 = Some face /\
    d20_row (lookRows T) r2 /\ nth_error r2 2 = Some eyes /\
    d20_row (lookRows T) r3 /\ nth_error r3 3 = Some hair /\
    d20_row (lookRows T) r4 /\ nth_error r4 4 = Some body /\
    d20_row (lookRows T) r5 /\ nth_error r5 5 = Some clothing /\
    look v
    = JS.toLowerCase face ++ " face, " ++ JS.toLowerCase eyes ++ " eyes, "
      ++ JS.toLowerCase hair ++ " hair, " ++ JS.toLowerCase body
      ++ " body, " ++ JS.toLowerCase clothing ++ " clothing".

(** The bond is made of two cells that exist in one of the first twenty
    rows of the bond table: the template in column 0 and the detail in one
    of the columns 1 to 4. *)
Definition bond_in_range (T : Tables) (v : Villager) : Prop :=
  exists (row : list string) (template detail : string) (k : nat),
    d20_row (bondRows T) row /\
    nth_error row 0 = Some template /\
    (1 <= k <= 4)%nat /\ nth_error row k = Some detail /\
    bond v = JS.replace "..." detail template.

(** The occupation and the gear come from a row the search finds for the
    d100 rolled at sample [p + 21], whose name and gear-template cells
    exist. *)
Definition occupation_in_range (rnd : nat -> Q) (T : Tables) (p : nat)
    (v : Villager) : Prop :=
  exists (row : list string) (cell template g : string) (q : nat),
    find_row (JS.Num (die rnd 100 (p + 21))) (occupationRows T) (p + 22)%nat
    = Ok (Some row, (p + 22)%nat) /\
    nth_error row 1 = Some cell /\ occupation v = Some cell /\
    nth_error row 2 = Some template /\
    expandGearTemplate rnd template (p + 22)%nat = Ok (g, q) /\
    gear v = [g].

(** The list lookups of the template expansion land inside their lists,
    from every position of the source: a crop, an instrument, an animal
    trainer's gear, and one of the four bird phrases. *)
Definition picks_in_range (rnd : nat -> Q) : Prop :=
  forall p : nat,
    (exists out, pick rnd CROPS "1d10" p = Ok (out, S p) /\ In out CROPS) /\
    (exists out,
        pick rnd INSTRUMENTS "1d8" p = Ok (out, S p) /\ In out INSTRUMENTS) /\
    (exists out,
        pick rnd ANIMAL_TRAINER_GEAR "1d4" p = Ok (out, S p) /\
        In out ANIMAL_TRAINER_GEAR) /\
    (exists out,
        poultry rnd p = Ok (out, (p + 5)%nat) /\ token_out TPoultry out).
(* ================================================================= *)
(** * Properties *)

(** ** Strings and numbers *)

Example number_examples :
  JS.Number "42" = JS.Num 42 /\ JS.Number "" = JS.Num 0 /\
  JS.Number " 007 " = JS.Num 7 /\ JS.Number "x" = JS.NaN /\
  JS.Number "-12" = JS.Num (-12) /\
  JS.parseInt "3abc" = JS.Num 3 /\ JS.parseInt "abc" = JS.NaN /\
  JS.parseInt "  -4" = JS.Num (-4) /\
  JS.String_of_number (JS.Num (-30)) = "-30" /\
  JS.String_of_number (JS.Num 0) = "0".
Proof. repeat split; vm_compute; reflexivity. Qed.

Example string_examples :
  JS.split "-" "5-9" = ["5"; "9"] /\ JS.split "d" "3d6" = ["3"; "6"] /\
  JS.split "-" "" = [""] /\ JS.split "-" "-" = [""; ""] /\
  JS.trim "  a b  " = "a b" /\ JS.toLowerCase "Dark BROWN" = "dark brown" /\
  JS.replace "..." "farm" "They once saved my ... from ruin"
  = "They once saved my farm from ruin" /\
  JS.replace "..." "a$$b$&c" "x...y...z" = "xa$b...cy...z" /\
  JS.replace "..." "farm" "no placeholder" = "no placeholder".
Proof. repeat split; vm_compute; reflexivity. Qed.

Example readTsv_example :
  data_rows ("range" ++ String "009" "name" ++ String "010"
             ("1-50" ++ String "009" "Farmer" ++ String "010"
              ("51-100" ++ String "009" "Miller" ++ String "010" "")))
  = [["1-50"; "Farmer"]; ["51-100"; "Miller"]].
Proof. vm_compute. reflexivity. Qed.

Example heritage_examples :
  List.length (getHeritageMoves "Dwarf") = 1%nat /\
  getHeritageMoves "Human" = [] /\ getHeritageMoves "" = [].
Proof. repeat split. Qed.

Lemma split_nonempty (sep : ascii) (s : string) : JS.split sep s <> [].
Proof.
  induction s as [|c r IH]; cbn [JS.split]; [discriminate|].
  destruct (Ascii.eqb c sep); [discriminate|].
  destruct (JS.split sep r); [congruence | discriminate].
Qed.

(** A loaded row always has a first cell. *)
Lemma readTsv_rows_nonempty (content : string) :
  Forall (fun row => row <> []) (readTsv content).
Proof.
  unfold readTsv. apply Forall_forall. intros row Hin.
  apply in_map_iff in Hin as (line & <- & _). apply split_nonempty.
Qed.

Lemma append_assoc (a b c : string) : (a ++ b) ++ c = a ++ (b ++ c).
Proof. induction a as [|x a IH]; simpl; [reflexivity | now rewrite IH]. Qed.

Lemma append_empty_r (a : string) : a ++ "" = a.
Proof. induction a as [|x a IH]; simpl; [reflexivity | now rewrite IH]. Qed.

Lemma length_append (a b : string) :
  String.length (a ++ b) = (String.length a + String.length b)%nat.
Proof. induction a as [|x a IH]; simpl; [reflexivity | now rewrite IH]. Qed.

Lemma digit_not_space (c : ascii) :
  JS.is_digit c = true -> JS.is_space c = false.
Proof.
  destruct c as [[] [] [] [] [] [] [] []]; vm_compute; congruence.
Qed.

Lemma digit_cases (c : ascii) :
  JS.is_digit c = true ->
  c = "0"%char \/ c = "1"%char \/ c = "2"%char \/ c = "3"%char \/
  c = "4"%char \/ c = "5"%char \/ c = "6"%char \/ c = "7"%char \/
  c = "8"%char \/ c = "9"%char.
Proof.
  destruct c as [[] [] [] [] [] [] [] []]; vm_compute; intros H;
    try discriminate H; tauto.
Qed.

Lemma trimEnd_digits (s : string) : all_digits s = true -> JS.trimEnd s = s.
Proof.
  induction s as [|c r IH]; simpl; [reflexivity|].
  intros H. apply andb_prop in H as [Hc Hr].
  rewrite (IH Hr), (digit_not_space c Hc). reflexivity.
Qed.

Lemma trimStart_digits (s : string) : all_digits s = true -> JS.trimStart s = s.
Proof.
  destruct s as [|c r]; simpl; [reflexivity|].
  intros H. apply andb_prop in H as [Hc _].
  now rewrite (digit_not_space c Hc).
Qed.

Lemma trim_digits (s : string) : all_digits s = true -> JS.trim s = s.
Proof.
  intros H. unfold JS.trim. rewrite (trimStart_digits s H).
  now apply trimEnd_digits.
Qed.

Lemma Number_digits (s : string) :
  integer_text s = true -> JS.Number s = JS.unsigned_literal s.
Proof.
  unfold integer_text. intros H. apply andb_prop in H as [Hne Hd].
  unfold JS.Number. rewrite (trim_digits s Hd).
  destruct s as [|c r]; [discriminate Hne|].
  simpl in Hd. apply andb_prop in Hd as [Hc _].
  destruct (digit_cases c Hc) as [E|[E|[E|[E|[E|[E|[E|[E|[E|E]]]]]]]]];
    subst c; reflexivity.
Qed.

Lemma parseInt_digits (s : string) :
  integer_text s = true -> JS.parseInt s = JS.parse_digits_prefix s.
Proof.
  unfold integer_text. intros H. apply andb_prop in H as [Hne Hd].
  unfold JS.parseInt. rewrite (trimStart_digits s Hd).
  destruct s as [|c r]; [discriminate Hne|].
  simpl in Hd. apply andb_prop in Hd as [Hc _].
  destruct (digit_cases c Hc) as [E|[E|[E|[E|[E|[E|[E|[E|[E|E]]]]]]]]];
    subst c; reflexivity.
Qed.

Lemma take_digits_all (s rest : string) :
  all_digits s = true ->
  match rest with
  | String c _ => JS.is_digit c = false
  | EmptyString => True
  end ->
  JS.take_digits (s ++ rest) = (s, rest).
Proof.
  intros Hs Hrest. induction s as [|c r IH]; simpl.
  - destruct rest as [|c r]; simpl; [reflexivity | now rewrite Hrest].
  - simpl in Hs. apply andb_prop in Hs as [Hc Hr].
    rewrite Hc, (IH Hr). reflexivity.
Qed.

Lemma string_of_uint_digits (d : Decimal.uint) :
  all_digits (NilEmpty.string_of_uint d) = true.
Proof. induction d; simpl; auto. Qed.

Lemma decimal_digits (n : N) : all_digits (JS.decimal n) = true.
Proof. apply string_of_uint_digits. Qed.

Lemma decimal_value (n : N) :
  NilEmpty.uint_of_string (JS.decimal n) = Some (N.to_uint n).
Proof. apply NilEmpty.usu. Qed.

Lemma decimal_nonempty (n : N) : JS.is_empty (JS.decimal n) = false.
Proof.
  destruct (JS.decimal n) eqn:E; [|reflexivity].
  pose proof (decimal_value n) as H. rewrite E in H. simpl in H.
  injection H as H.
  assert (Hn : N.of_uint (N.to_uint n) = n) by apply Unsigned.of_to.
  rewrite <- H in Hn. simpl in Hn. subst n. discriminate H.
Qed.

Lemma decimal_integer_text (n : N) : integer_text (JS.decimal n) = true.
Proof.
  unfold integer_text. now rewrite decimal_nonempty, decimal_digits.
Qed.

Lemma digits_value_decimal (n : N) :
  JS.digits_value (JS.decimal n) = Some (Z.of_N n).
Proof.
  unfold JS.digits_value.
  pose proof (decimal_nonempty n) as Hne.
  destruct (JS.decimal n) eqn:E; [discriminate Hne|].
  rewrite <- E, decimal_value. simpl. now rewrite Unsigned.of_to.
Qed.

Lemma Number_decimal (n : N) : JS.Number (JS.decimal n) = JS.Num (Z.of_N n).
Proof.
  rewrite Number_digits by apply decimal_integer_text.
  unfold JS.unsigned_literal. now rewrite digits_value_decimal.
Qed.

Lemma parseInt_decimal (n : N) : JS.parseInt (JS.decimal n) = JS.Num (Z.of_N n).
Proof.
  rewrite parseInt_digits by apply decimal_integer_text.
  unfold JS.parse_digits_prefix.
  rewrite <- (append_empty_r (JS.decimal n)) at 1.
  rewrite take_digits_all; [|apply decimal_digits | exact I].
  simpl. unfold JS.unsigned_literal. now rewrite digits_value_decimal.
Qed.

Lemma String_of_number_nonneg (z : Z) :
  0 <= z -> JS.String_of_number (JS.Num z) = JS.decimal (Z.to_N z).
Proof.
  intros H. unfold JS.String_of_number.
  destruct (z <? 0) eqn:E; [apply Z.ltb_lt in E; lia | reflexivity].
Qed.

(* ================================================================= *)
(** ** Doubles: the rounded product *)

(** The rounding error is half a unit in the last place at most; the unit
    is [2^-52] of the value at most, or [2^-1074]. *)

Lemma round_half_even_le (q : Q) :
  (inject_Z (JS.round_half_even q) <= q + (1 # 2))%Q.
Proof.
  unfold JS.round_half_even.
  pose proof (Qfloor_le q) as Hf.
  destruct (Qcompare (q - inject_Z (Qfloor q)) (1 # 2)) eqn:E.
  - apply Qeq_alt in E.
    assert (Hq : (q == inject_Z (Qfloor q) + (1 # 2))%Q).
    { rewrite <- E. ring. }
    destruct (Z.even (Qfloor q)).
    + rewrite Hq at 2. rewrite <- Qplus_assoc.
      rewrite <- (Qplus_0_r (inject_Z (Qfloor q))) at 1.
      apply Qplus_le_r. discriminate.
    + rewrite inject_Z_plus. rewrite Hq at 2.
      rewrite <- Qplus_assoc. apply Qplus_le_r. discriminate.
  - rewrite <- (Qplus_0_r (inject_Z (Qfloor q))).
    apply Qplus_le_compat; [exact Hf | discriminate].
  - apply Qgt_alt in E. rewrite inject_Z_plus.
    apply Qlt_le_weak in E.
    apply (Qplus_le_l _ _ (inject_Z (Qfloor q))) in E.
    assert (Hq : (q - inject_Z (Qfloor q) + inject_Z (Qfloor q) == q)%Q) by ring.
    rewrite Hq in E.
    apply (Qplus_le_l _ _ (1 # 2)) in E.
    eapply Qle_trans; [|exact E].
    assert (H1 : (inject_Z (Qfloor q) + inject_Z 1
                  == (1 # 2) + inject_Z (Qfloor q) + (1 # 2))%Q) by (unfold inject_Z; ring).
    rewrite H1. apply Qle_refl.
Qed.

Lemma round_half_even_nonneg (q : Q) :
  (0 <= q)%Q -> 0 <= JS.round_half_even q.
Proof.
  intros Hq. unfold JS.round_half_even.
  assert (Hf : 0 <= Qfloor q).
  { change 0 with (Qfloor 0). apply Qfloor_resp_le. exact Hq. }
  destruct (Qcompare _ _); [destruct (Z.even _)| |]; lia.
Qed.

Lemma pow2_pos (g : Z) : (0 < 2 ^ g)%Q.
Proof. apply Qpower_0_lt. reflexivity. Qed.

Lemma pow2_inject (n : Z) : 0 <= n -> (inject_Z (2 ^ n) == 2 ^ n)%Q.
Proof. intros H. rewrite Zpower_Qpower by exact H. reflexivity. Qed.

Lemma Qdiv_le_cross (a b c d : Q) :
  (0 < b)%Q -> (0 < d)%Q -> (a * d <= c * b)%Q -> (a / b <= c / d)%Q.
Proof.
  intros Hb Hd H. apply Qle_shift_div_r; [exact Hb|].
  assert (E : (c / d * b == c * b / d)%Q).
  { field. intros C. rewrite C in Hd. discriminate. }
  rewrite E. apply Qle_shift_div_l; assumption.
Qed.

Lemma binary_exponent_le (x : Q) : (0 < x)%Q -> (2 ^ JS.binary_exponent x <= x)%Q.
Proof.
  intros Hx. unfold JS.binary_exponent.
  destruct (Qle_bool _ x) eqn:E.
  - apply Qle_bool_iff. exact E.
  - destruct x as [a b].
    assert (Ha : 0 < a).
    { unfold Qlt in Hx. cbn [Qnum Qden] in Hx. lia. }
    cbn [Qnum Qden].
    pose proof (Z.log2_spec a Ha) as [La _].
    pose proof (Z.log2_spec (Z.pos b) (Pos2Z.is_pos b)) as [_ Lb].
    pose proof (Z.log2_nonneg a) as Na.
    pose proof (Z.log2_nonneg (Z.pos b)) as Nb.
    replace (Z.log2 a - Z.log2 (Z.pos b) - 1)
      with (Z.log2 a - Z.succ (Z.log2 (Z.pos b))) by lia.
    rewrite Qpower_minus by discriminate.
    rewrite <- !pow2_inject by lia.
    rewrite (Qmake_Qdiv a b).
    apply Qdiv_le_cross.
    + rewrite <- (Zlt_Qlt 0). lia.
    + rewrite <- (Zlt_Qlt 0). lia.
    + rewrite <- !inject_Z_mult. rewrite <- Zle_Qle.
      apply Z.mul_le_mono_nonneg; try lia.
Qed.

Lemma nearest_double_pos_error (x : Q) :
  (0 < x)%Q ->
  (JS.nearest_double_pos x
   <= x + 2 ^ Z.max (JS.binary_exponent x - 52) (-1074) * (1 # 2))%Q.
Proof.
  intros Hx. unfold JS.nearest_double_pos.
  set (g := Z.max (JS.binary_exponent x - 52) (-1074)).
  pose proof (pow2_pos g) as Hg.
  pose proof (round_half_even_le (x / 2 ^ g)) as H.
  apply (Qmult_le_compat_r _ _ (2 ^ g)) in H; [|apply Qlt_le_weak; exact Hg].
  eapply Qle_trans; [exact H|].
  assert (E : ((x / 2 ^ g + (1 # 2)) * 2 ^ g == x + 2 ^ g * (1 # 2))%Q).
  { field. intros C. rewrite C in Hg. discriminate. }
  rewrite E. apply Qle_refl.
Qed.

Lemma half_ulp_small (x : Q) :
  (0 < x)%Q ->
  (2 ^ Z.max (JS.binary_exponent x - 52) (-1074) * (1 # 2)
   <= x * (1 # 9007199254740992))%Q
  \/ Z.max (JS.binary_exponent x - 52) (-1074) = -1074.
Proof.
  intros Hx.
  destruct (Z.max_spec (JS.binary_exponent x - 52) (-1074)) as [[_ E] | [_ E]];
    [right; exact E | left].
  rewrite E. rewrite Qpower_minus by discriminate.
  pose proof (binary_exponent_le x Hx) as H.
  assert (E2 : (2 ^ JS.binary_exponent x / 2 ^ 52 * (1 # 2)
                == 2 ^ JS.binary_exponent x * (1 # 9007199254740992))%Q).
  { change (2 ^ 52)%Q with (4503599627370496 # 1)%Q. field. }
  rewrite E2. apply Qmult_le_compat_r; [exact H | discriminate].
Qed.

Lemma nearest_double_pos_nonneg (x : Q) :
  (0 < x)%Q -> (0 <= JS.nearest_double_pos x)%Q.
Proof.
  intros Hx. unfold JS.nearest_double_pos.
  set (g := Z.max (JS.binary_exponent x - 52) (-1074)).
  pose proof (pow2_pos g) as Hg.
  apply Qmult_le_0_compat; [|apply Qlt_le_weak; exact Hg].
  rewrite <- (Zle_Qle 0). apply round_half_even_nonneg.
  apply Qle_shift_div_l; [exact Hg|]. rewrite Qmult_0_l.
  apply Qlt_le_weak. exact Hx.
Qed.

Lemma nearest_double_pos_below (x : Q) (k : Z) :
  (0 < x)%Q -> 1 <= k -> (x <= inject_Z k * below_one)%Q ->
  (JS.nearest_double_pos x < inject_Z k)%Q.
Proof.
  intros Hx Hk Hle.
  pose proof (nearest_double_pos_error x Hx) as He.
  assert (Hk' : (1 <= inject_Z k)%Q) by (rewrite <- (Zle_Qle 1); exact Hk).
  eapply Qle_lt_trans; [exact He|].
  destruct (half_ulp_small x Hx) as [Hs | Hs].
  - eapply Qle_lt_trans.
    { apply Qplus_le_r. exact Hs. }
    assert (E : (x + x * (1 # 9007199254740992)
                 == x * (9007199254740993 # 9007199254740992))%Q) by ring.
    rewrite E.
    eapply Qle_lt_trans.
    { apply Qmult_le_compat_r; [exact Hle | discriminate]. }
    unfold below_one. rewrite <- Qmult_assoc.
    rewrite <- (Qmult_1_r (inject_Z k)) at 2.
    apply Qmult_lt_l; [|reflexivity].
    eapply Qlt_le_trans; [|exact Hk']. reflexivity.
  - rewrite Hs.
    eapply Qle_lt_trans.
    { apply Qplus_le_l. exact Hle. }
    assert (E : (inject_Z k
                 == inject_Z k * below_one + inject_Z k * (1 # 9007199254740992))%Q).
    { unfold below_one. ring. }
    rewrite E at 2. apply Qplus_lt_r.
    eapply Qlt_le_trans with (y := (1 * (1 # 9007199254740992))%Q).
    { vm_compute. reflexivity. }
    apply Qmult_le_compat_r; [exact Hk' | discriminate].
Qed.

Lemma nearest_double_range (x : Q) (k : Z) :
  (0 <= x)%Q -> 1 <= k -> (x <= inject_Z k * below_one)%Q ->
  (0 <= JS.nearest_double x)%Q /\ (JS.nearest_double x < inject_Z k)%Q.
Proof.
  intros H0 Hk Hle. unfold JS.nearest_double.
  destruct (Qnum x) eqn:E.
  - split; [apply Qle_refl|]. rewrite <- (Zlt_Qlt 0). lia.
  - assert (Hx : (0 < x)%Q).
    { unfold Qlt. cbn [Qnum Qden]. rewrite E. lia. }
    split; [apply nearest_double_pos_nonneg; exact Hx
           | apply nearest_double_pos_below; assumption].
  - exfalso. unfold Qle in H0. cbn [Qnum Qden] in H0. rewrite E in H0. lia.
Qed.

Lemma nearest_double_nonneg (x : Q) : (0 <= x)%Q -> (0 <= JS.nearest_double x)%Q.
Proof.
  intros H0. unfold JS.nearest_double.
  destruct (Qnum x) eqn:E.
  - apply Qle_refl.
  - apply nearest_double_pos_nonneg. unfold Qlt. cbn [Qnum Qden]. rewrite E. lia.
  - exfalso. unfold Qle in H0. cbn [Qnum Qden] in H0. rewrite E in H0. lia.
Qed.

Lemma Qdiv_lt_cross (a b c d : Q) :
  (0 < b)%Q -> (0 < d)%Q -> (a * d < c * b)%Q -> (a / b < c / d)%Q.
Proof.
  intros Hb Hd H. apply Qlt_shift_div_r; [exact Hb|].
  assert (E : (c / d * b == c * b / d)%Q).
  { field. intros C. rewrite C in Hd. discriminate. }
  rewrite E. apply Qlt_shift_div_l; assumption.
Qed.

Lemma binary_exponent_lt (x : Q) :
  (0 < x)%Q -> (x < 2 ^ (JS.binary_exponent x + 1))%Q.
Proof.
  intros Hx. unfold JS.binary_exponent.
  destruct (Qle_bool _ x) eqn:E.
  - destruct x as [a b].
    assert (Ha : 0 < a).
    { unfold Qlt in Hx. cbn [Qnum Qden] in Hx. lia. }
    cbn [Qnum Qden].
    pose proof (Z.log2_spec a Ha) as [_ La].
    pose proof (Z.log2_spec (Z.pos b) (Pos2Z.is_pos b)) as [Lb _].
    pose proof (Z.log2_nonneg a) as Na.
    pose proof (Z.log2_nonneg (Z.pos b)) as Nb.
    replace (Z.log2 a - Z.log2 (Z.pos b) + 1)
      with (Z.succ (Z.log2 a) - Z.log2 (Z.pos b)) by lia.
    rewrite Qpower_minus by discriminate.
    rewrite <- !pow2_inject by lia.
    rewrite (Qmake_Qdiv a b).
    apply Qdiv_lt_cross.
    + rewrite <- (Zlt_Qlt 0). lia.
    + rewrite <- (Zlt_Qlt 0). apply Z.pow_pos_nonneg; lia.
    + rewrite <- !inject_Z_mult. rewrite <- Zlt_Qlt.
      apply Z.le_lt_trans with (a * Z.pos b).
      * apply Z.mul_le_mono_nonneg_l; lia.
      * apply Z.mul_lt_mono_pos_r; lia.
  - replace (Z.log2 (Qnum x) - Z.log2 (Z.pos (Qden x)) - 1 + 1)
      with (Z.log2 (Qnum x) - Z.log2 (Z.pos (Qden x))) by lia.
    apply Qnot_le_lt. intros C. apply Qle_bool_iff in C. congruence.
Qed.

Lemma round_half_even_floor (q : Q) : Qfloor q <= JS.round_half_even q.
Proof.
  unfold JS.round_half_even.
  destruct (Qcompare _ _); [destruct (Z.even _)| |]; lia.
Qed.

Lemma nearest_double_pos_floor (x : Q) :
  (0 < x)%Q -> (x < 2 ^ 53)%Q ->
  (inject_Z (Qfloor x) <= JS.nearest_double_pos x)%Q.
Proof.
  intros Hx Hb. unfold JS.nearest_double_pos.
  set (g := Z.max (JS.binary_exponent x - 52) (-1074)).
  assert (Hg : g <= 0).
  { assert (He : JS.binary_exponent x < 53).
    { apply (Qpower_lt_compat_l_inv 2); [|reflexivity].
      eapply Qle_lt_trans; [apply binary_exponent_le; exact Hx | exact Hb]. }
    unfold g. lia. }
  pose proof (pow2_pos g) as Pg.
  assert (Eg : (2 ^ g == / inject_Z (2 ^ (- g)))%Q).
  { replace g with (- (- g)) at 1 by lia.
    rewrite Qpower_opp. rewrite pow2_inject by lia. reflexivity. }
  assert (Pn : 0 < 2 ^ (- g)) by (apply Z.pow_pos_nonneg; lia).
  assert (Eq1 : (x / 2 ^ g == x * inject_Z (2 ^ (- g)))%Q).
  { rewrite Eg. field. intros C.
    unfold Qeq in C. cbn [Qnum Qden inject_Z] in C. lia. }
  assert (H1 : Qfloor x * 2 ^ (- g) <= JS.round_half_even (x / 2 ^ g)).
  { eapply Z.le_trans; [|apply round_half_even_floor].
    rewrite <- (Qfloor_Z (Qfloor x * 2 ^ (- g))).
    apply Qfloor_resp_le. rewrite Eq1. rewrite inject_Z_mult.
    apply Qmult_le_compat_r; [apply Qfloor_le|].
    rewrite <- (Zle_Qle 0). lia. }
  rewrite Zle_Qle in H1. rewrite inject_Z_mult in H1.
  apply (Qmult_le_compat_r _ _ (2 ^ g)) in H1; [|apply Qlt_le_weak; exact Pg].
  eapply Qle_trans; [|exact H1].
  rewrite Eg. 
  assert (E2 : (inject_Z (Qfloor x) * inject_Z (2 ^ (- g)) * / inject_Z (2 ^ (- g))
                == inject_Z (Qfloor x))%Q).
  { field. intros C.
    unfold Qeq in C. cbn [Qnum Qden inject_Z] in C. lia. }
  rewrite E2. apply Qle_refl.
Qed.

Lemma nearest_double_pos_next (x : Q) :
  (0 < x)%Q -> (x < 2 ^ 53)%Q -> (JS.nearest_double_pos x < x + 1)%Q.
Proof.
  intros Hx Hb.
  eapply Qle_lt_trans; [apply nearest_double_pos_error; exact Hx|].
  apply Qplus_lt_r.
  destruct (half_ulp_small x Hx) as [Hs | Hs].
  - eapply Qle_lt_trans; [exact Hs|].
    eapply Qlt_le_trans with (y := (2 ^ 53 * (1 # 9007199254740992))%Q).
    + apply Qmult_lt_compat_r; [reflexivity | exact Hb].
    + vm_compute. discriminate.
  - rewrite Hs. vm_compute. reflexivity.
Qed.

(** Rounding the product moves its floor up by one at most, and never
    down. *)
Lemma nearest_double_floor (x : Q) :
  (0 <= x)%Q -> (x < 2 ^ 53)%Q ->
  Qfloor x <= Qfloor (JS.nearest_double x) <= Qfloor x + 1.
Proof.
  intros H0 Hb. unfold JS.nearest_double.
  destruct (Qnum x) eqn:E.
  - assert (Ex : Qfloor x = 0).
    { unfold Qfloor. destruct x as [a b]. cbn [Qnum] in E. subst a.
      apply Z.div_0_l. lia. }
    rewrite Ex. change (Qfloor 0) with 0. lia.
  - assert (Hx : (0 < x)%Q).
    { unfold Qlt. cbn [Qnum Qden]. rewrite E. lia. }
    split.
    + rewrite <- (Qfloor_Z (Qfloor x)) at 1.
      apply Qfloor_resp_le. apply nearest_double_pos_floor; assumption.
    + pose proof (nearest_double_pos_next x Hx Hb) as H.
      assert (H2 : (inject_Z (Qfloor (JS.nearest_double_pos x)) < x + 1)%Q)
        by (eapply Qle_lt_trans; [apply Qfloor_le | exact H]).
      assert (H3 : (x + 1 < inject_Z (Qfloor x + 1) + 1)%Q).
      { apply Qplus_lt_l. apply Qlt_floor. }
      assert (H4 : (inject_Z (Qfloor (JS.nearest_double_pos x))
                    < inject_Z (Qfloor x + 1 + 1))%Q).
      { eapply Qlt_trans; [exact H2|]. rewrite (inject_Z_plus _ 1). exact H3. }
      rewrite <- Zlt_Qlt in H4. lia.
  - exfalso. unfold Qle in H0. cbn [Qnum Qden] in H0. rewrite E in H0. lia.
Qed.

(** A double below 1 is [below_one] at most. *)
Lemma double_below_one (u : Q) :
  (0 <= u)%Q -> (u < 1)%Q -> (JS.nearest_double u == u)%Q ->
  (u <= below_one)%Q.
Proof.
  intros H0 H1 Hd. unfold JS.nearest_double in Hd.
  destruct (Qnum u) eqn:E.
  - rewrite <- Hd. discriminate.
  - assert (Hx : (0 < u)%Q).
    { unfold Qlt. cbn [Qnum Qden]. rewrite E. lia. }
    pose proof (binary_exponent_le u Hx) as Hlo.
    pose proof (binary_exponent_lt u Hx) as Hhi.
    assert (He : JS.binary_exponent u < 0).
    { apply (Qpower_lt_compat_l_inv 2); [|reflexivity].
      eapply Qle_lt_trans; [exact Hlo | exact H1]. }
    destruct (Z.eq_dec (JS.binary_exponent u) (-1)) as [Ee|Ne].
    + unfold JS.nearest_double_pos in Hd. rewrite Ee in Hd.
      change (Z.max (-1 - 52) (-1074)) with (-53) in Hd.
      set (n := JS.round_half_even (u / 2 ^ (-53))) in Hd.
      assert (Hn : n < 2 ^ 53).
      { rewrite Zlt_Qlt.
        apply (Qmult_lt_r _ _ (2 ^ (-53))); [reflexivity|].
        rewrite Hd. eapply Qlt_le_trans; [exact H1|].
        vm_compute. discriminate. }
      rewrite <- Hd.
      assert (Hn' : n <= 2 ^ 53 - 1) by lia.
      rewrite Zle_Qle in Hn'.
      apply (Qmult_le_compat_r _ _ (2 ^ (-53))) in Hn'; [|discriminate].
      eapply Qle_trans; [exact Hn'|]. vm_compute. discriminate.
    + apply Qlt_le_weak. eapply Qlt_le_trans; [exact Hhi|].
      eapply Qle_trans with (y := (2 ^ (-1))%Q).
      * apply Qpower_le_compat_l; [lia | discriminate].
      * vm_compute. discriminate.
  - exfalso. unfold Qle in H0. cbn [Qnum Qden] in H0. rewrite E in H0. lia.
Qed.

(** The double nearest to 0.6, times 100, rounds to 60: the die shows 61
    where the exact product, just below 60, would show 60.  The double
    nearest to 0.58, times 100, stays below 58; and 0.1 times 3 is
    0.30000000000000004. *)
Example rounded_product :
  JS.nearest_double (6 # 10) == 5404319552844595 # 9007199254740992 /\
  JS.floor_mul (5404319552844595 # 9007199254740992) (JS.Num 100) = JS.Num 60 /\
  Qfloor ((5404319552844595 # 9007199254740992) * 100) = 59 /\
  JS.floor_mul (JS.nearest_double (58 # 100)) (JS.Num 100) = JS.Num 57 /\
  JS.nearest_double (JS.nearest_double (1 # 10) * 3)
  == 1351079888211149 # 4503599627370496 /\
  JS.nearest_double ((3 # 16) * 6) == 18 # 16.
Proof.
  split; [|split; [|split; [|split; [|split]]]]; vm_compute; reflexivity.
Qed.

Lemma split_free (sep : ascii) (s : string) :
  free_of sep s = true -> JS.split sep s = [s].
Proof.
  induction s as [|c r IH]; simpl; [reflexivity|].
  intros H. apply andb_prop in H as [Hc Hr].
  apply negb_true_iff in Hc. rewrite Hc, (IH Hr). reflexivity.
Qed.

Lemma split_at (sep : ascii) (a b : string) :
  free_of sep a = true ->
  JS.split sep (a ++ String sep b) = a :: JS.split sep b.
Proof.
  induction a as [|c r IH]; simpl; intros H.
  - now rewrite Ascii.eqb_refl.
  - apply andb_prop in H as [Hc Hr]. apply negb_true_iff in Hc.
    rewrite Hc, (IH Hr). reflexivity.
Qed.

Lemma digits_free_of (sep : ascii) (s : string) :
  JS.is_digit sep = false -> all_digits s = true -> free_of sep s = true.
Proof.
  intros Hsep. induction s as [|c r IH]; simpl; [reflexivity|].
  intros H. apply andb_prop in H as [Hc Hr]. rewrite (IH Hr), andb_true_r.
  apply negb_true_iff, Ascii.eqb_neq. intros ->. congruence.
Qed.

(** ** The modifier table *)

Ltac split_comparisons :=
  repeat match goal with
         | |- context [?a =? ?b] => destruct (Z.eqb_spec a b)
         | |- context [?a <=? ?b] => destruct (Z.leb_spec a b)
         | |- context [?a <? ?b] => destruct (Z.ltb_spec a b)
         end.

Lemma getMod_integer (s : Z) :
  exists m : Z, getMod (JS.Num s) = JS.Num m /\ -3 <= m <= 3.
Proof.
  unfold getMod, JS.strict_eq, JS.le.
  split_comparisons; eexists; (split; [reflexivity | lia]).
Qed.

(** C3.  [getMod] agrees with the step table of the specification on every
    score from 3 upwards: -3 at 3, -2 on 4-5, -1 on 6-8, 0 on 9-12, +1 on
    13-15, +2 on 16-17 and +3 from 18 on; the scores 3 to 20 and the
    boundary values are listed one by one. *)
Theorem getMod_step_table :
  (forall s : Z,
      (s = 3 -> getMod (JS.Num s) = JS.Num (-3)) /\
      (4 <= s <= 5 -> getMod (JS.Num s) = JS.Num (-2)) /\
      (6 <= s <= 8 -> getMod (JS.Num s) = JS.Num (-1)) /\
      (9 <= s <= 12 -> getMod (JS.Num s) = JS.Num 0) /\
      (13 <= s <= 15 -> getMod (JS.Num s) = JS.Num 1) /\
      (16 <= s <= 17 -> getMod (JS.Num s) = JS.Num 2) /\
      (18 <= s -> getMod (JS.Num s) = JS.Num 3)) /\
  map (fun s => getMod (JS.Num s))
      [3; 4; 5; 6; 7; 8; 9; 10; 11; 12; 13; 14; 15; 16; 17; 18; 19; 20]
  = map JS.Num [-3; -2; -2; -1; -1; -1; 0; 0; 0; 0; 1; 1; 1; 2; 2; 3; 3; 3] /\
  map (fun s => getMod (JS.Num s)) [3; 5; 8; 12; 15; 17; 18]
  = map JS.Num [-3; -2; -1; 0; 1; 2; 3].
Proof.
  split; [|split; reflexivity].
  intros s. unfold getMod, JS.strict_eq, JS.le.
  repeat split; intros H; split_comparisons; try reflexivity; lia.
Qed.

Lemma getMod_step_table_witness :
  13 <= 14 <= 15 /\ getMod (JS.Num 14) = JS.Num 1.
Proof.
  split; [lia|].
  apply (proj1 getMod_step_table 14). lia.
Defined.

(** C9.  [getMod] is monotone on scores from 3 upwards, its value on any
    integer lies between -3 and 3, and below 3 monotonicity fails:
    [getMod 2 = -2] is above [getMod 3 = -3]. *)
Theorem getMod_monotone_bounded :
  (forall s t : Z,
      3 <= s -> s <= t ->
      JS.le (getMod (JS.Num s)) (getMod (JS.Num t)) = true) /\
  (forall n : Z, exists m : Z, getMod (JS.Num n) = JS.Num m /\ -3 <= m <= 3) /\
  getMod (JS.Num 2) = JS.Num (-2) /\
  getMod (JS.Num 3) = JS.Num (-3) /\
  JS.lt (getMod (JS.Num 3)) (getMod (JS.Num 2)) = true.
Proof.
  split; [|split; [exact getMod_integer | repeat split]].
  intros s t Hs Hst. unfold getMod, JS.strict_eq, JS.le.
  split_comparisons; simpl; try reflexivity; lia.
Qed.

Lemma getMod_monotone_bounded_witness :
  3 <= 5 /\ 5 <= 16 /\ JS.le (getMod (JS.Num 5)) (getMod (JS.Num 16)) = true.
Proof.
  split; [lia | split; [lia|]].
  apply (proj1 getMod_monotone_bounded 5 16); lia.
Defined.

(** ** Occupation ranges *)

Lemma parseRange_single (n : N) :
  parseRange (JS.decimal n) = (JS.Num (Z.of_N n), JS.Num (Z.of_N n)).
Proof.
  unfold parseRange.
  rewrite split_free
    by (apply digits_free_of; [reflexivity | apply decimal_digits]).
  simpl. now rewrite Number_decimal.
Qed.

Lemma parseRange_pair (a b : N) :
  parseRange (JS.decimal a ++ "-" ++ JS.decimal b)
  = (JS.Num (Z.of_N a), JS.Num (Z.of_N b)).
Proof.
  unfold parseRange. simpl append.
  rewrite split_at
    by (apply digits_free_of; [reflexivity | apply decimal_digits]).
  rewrite split_free
    by (apply digits_free_of; [reflexivity | apply decimal_digits]).
  simpl. now rewrite !Number_decimal.
Qed.

Lemma in_range_eval (r : JS.number) (range : string) (cells : list string)
    (p : nat) :
  in_range r (range :: cells) p
  = Ok (JS.ge r (fst (parseRange range))
        && JS.le r (snd (parseRange range)), p).
Proof.
  unfold in_range, bind, defined, ret. simpl.
  destruct (parseRange range). reflexivity.
Qed.


(** ** Splitting the gear text *)

Lemma parseGear_loop_items (s : string) :
  forall (items1 items2 : list string) (current : string) (depth : Z),
    parseGear_loop s (items1 ++ items2) current depth
    = (items1 ++ parseGear_loop s items2 current depth)%list.
Proof.
  induction s as [|c r IH]; intros items1 items2 current depth; simpl.
  - destruct (JS.is_empty (JS.trim current)); [reflexivity|].
    now rewrite app_assoc.
  - destruct (_ && _).
    + rewrite <- app_assoc. apply IH.
    + apply IH.
Qed.

Lemma parseGear_loop_no_split (a : string) :
  forall (rest : string) (items : list string) (current : string) (depth : Z),
    no_top_level_comma depth a = true ->
    parseGear_loop (a ++ rest) items current depth
    = parseGear_loop rest items (current ++ a) (depth_after depth a).
Proof.
  induction a as [|c r IH]; intros rest items current depth H; simpl.
  - now rewrite append_empty_r.
  - simpl in H. apply andb_prop in H as [Hc Hr].
    apply negb_true_iff in Hc. rewrite Hc.
    rewrite IH by exact Hr. rewrite append_assoc. reflexivity.
Qed.

(** C6.  [parseGear] cuts the text at the commas read at depth zero and
    nowhere else: ["cage (1 wt), 2 ferrets"] gives exactly two items; a
    text none of whose commas is at depth zero is one item (or none when
    it is blank); and a comma that follows a balanced piece without
    top-level comma ends that piece as an item. *)
Theorem parseGear_top_level_commas :
  parseGear "cage (1 wt), 2 ferrets" = ["cage (1 wt)"; "2 ferrets"] /\
  (forall s : string,
      no_top_level_comma 0 s = true ->
      parseGear s = if JS.is_empty (JS.trim s) then [] else [JS.trim s]) /\
  (forall a b : string,
      no_top_level_comma 0 a = true ->
      depth_after 0 a = 0 ->
      parseGear (a ++ "," ++ b) = JS.trim a :: parseGear b).
Proof.
  split; [reflexivity | split].
  - intros s H. unfold parseGear.
    rewrite <- (append_empty_r s) at 1.
    rewrite parseGear_loop_no_split by exact H. reflexivity.
  - intros a b Ha Hd. unfold parseGear.
    rewrite parseGear_loop_no_split by exact Ha.
    rewrite Hd. simpl.
    apply (parseGear_loop_items b [JS.trim a] [] "" 0).
Qed.

Lemma parseGear_top_level_commas_witness :
  no_top_level_comma 0 "monkey, music box (2, wt" = false /\
  no_top_level_comma 0 "music box (2, wt)" = true /\
  depth_after 0 "music box (2, wt)" = 0 /\
  parseGear ("music box (2, wt)" ++ "," ++ " monkey")
  = JS.trim "music box (2, wt)" :: parseGear " monkey".
Proof.
  split; [reflexivity | split; [reflexivity | split; [reflexivity|]]].
  apply (proj2 (proj2 parseGear_top_level_commas)); reflexivity.
Defined.

(** ** The monad *)

Lemma bind_Ok {A B : Type} (c : M A) (k : A -> M B) (p : nat)
    (r : B * nat) :
  bind c k p = Ok r ->
  exists (a : A) (q : nat), c p = Ok (a, q) /\ k a q = Ok r.
Proof.
  unfold bind. destruct (c p) as [[a q]|e]; [|discriminate].
  intros H. now exists a, q.
Qed.

Lemma bind_eval {A B : Type} (c : M A) (k : A -> M B) (p q : nat) (a : A) :
  c p = Ok (a, q) -> bind c k p = k a q.
Proof. unfold bind. now intros ->. Qed.

Lemma defined_Ok {A : Type} (v : option A) (p : nat) (r : A * nat) :
  defined v p = Ok r -> v = Some (fst r) /\ snd r = p.
Proof.
  destruct v as [a|]; simpl; [|discriminate].
  unfold ret. intros [= <-]. now split.
Qed.

(** ** Dice *)

Lemma fixture_rnd_unit : unit_source fixture_rnd.
Proof.
  intros i. unfold fixture_rnd.
  pose proof (Z.mod_pos_bound (7 * Z.of_nat i + 3) 16 ltac:(lia)) as H.
  set (k := (7 * Z.of_nat i + 3) mod 16) in *.
  split; [unfold Qle; cbn [Qnum Qden]; lia|].
  split; [unfold Qlt; cbn [Qnum Qden]; lia|].
  assert (Hk : k = 0 \/ k = 1 \/ k = 2 \/ k = 3 \/ k = 4 \/ k = 5 \/ k = 6
               \/ k = 7 \/ k = 8 \/ k = 9 \/ k = 10 \/ k = 11 \/ k = 12
               \/ k = 13 \/ k = 14 \/ k = 15) by lia.
  clearbody k.
  repeat destruct Hk as [-> | Hk]; try subst k; vm_compute; reflexivity.
Qed.

Section Dice.

Variable rnd : nat -> Q.

Lemma roll_loop_sum (n : nat) :
  forall (sides a : Z) (p : nat),
    roll_loop rnd n (JS.Num sides) (JS.Num a) p
    = Ok (JS.Num (a + sum_dice rnd sides p n), (p + n)%nat).
Proof.
  induction n as [|k IH]; intros sides a p; cbn [roll_loop sum_dice].
  - unfold ret. now rewrite Z.add_0_r, Nat.add_0_r.
  - unfold bind, Math_random. cbn [JS.floor_mul JS.add]. rewrite IH.
    unfold die. rewrite Nat.add_succ_r. simpl plus.
    rewrite <- Z.add_assoc. reflexivity.
Qed.

(** [roll] never throws, whatever the dice text. *)
Lemma roll_loop_total (n : nat) :
  forall (sides sum : JS.number) (p : nat),
    exists v, roll_loop rnd n sides sum p = Ok (v, (p + n)%nat).
Proof.
  induction n as [|k IH]; intros sides sum p; cbn [roll_loop].
  - exists sum. unfold ret. now rewrite Nat.add_0_r.
  - unfold bind, Math_random.
    destruct (IH sides
                (JS.add sum (JS.add (JS.floor_mul (rnd p) sides) (JS.Num 1)))
                (S p)) as [v Hv].
    exists v. rewrite Hv. now rewrite Nat.add_succ_r.
Qed.

Lemma roll_total (dice : string) (p : nat) :
  exists v q, roll rnd dice p = Ok (v, q).
Proof.
  unfold roll.
  destruct (roll_loop_total
              (iterations (nth 0 (map JS.Number (JS.split "d" dice)) JS.NaN))
              (nth 1 (map JS.Number (JS.split "d" dice)) JS.NaN)
              (JS.Num 0) p) as [v Hv].
  eauto.
Qed.

Lemma roll_eval (dice : string) (count sides : Z) (p : nat) :
  map JS.Number (JS.split "d" dice) = [JS.Num count; JS.Num sides] ->
  roll rnd dice p
  = Ok (JS.Num (sum_dice rnd sides p (Z.to_nat count)),
        (p + Z.to_nat count)%nat).
Proof.
  intros H. unfold roll. rewrite H. simpl nth. simpl iterations.
  apply roll_loop_sum.
Qed.

Lemma dice_text_parts (count sides : Z) :
  0 <= count -> 0 <= sides ->
  map JS.Number (JS.split "d" (dice_text count sides))
  = [JS.Num count; JS.Num sides].
Proof.
  intros Hc Hs. unfold dice_text.
  rewrite !String_of_number_nonneg by assumption. simpl append.
  rewrite split_at
    by (apply digits_free_of; [reflexivity | apply decimal_digits]).
  rewrite split_free
    by (apply digits_free_of; [reflexivity | apply decimal_digits]).
  simpl. rewrite !Number_decimal, !Z2N.id by assumption. reflexivity.
Qed.

(** The face is the one the exact product [u * sides] falls on, or the
    next one when the product rounds up to an integer. *)
Lemma die_near_exact (sides : Z) (i : nat) :
  (0 <= rnd i)%Q -> (rnd i < 1)%Q -> 0 <= sides <= 2 ^ 53 ->
  Qfloor (rnd i * inject_Z sides) + 1 <= die rnd sides i
  <= Qfloor (rnd i * inject_Z sides) + 2.
Proof.
  intros H0 H1 Hs. unfold die.
  assert (Hpos : (0 <= inject_Z sides)%Q)
    by (rewrite <- (Zle_Qle 0); lia).
  assert (Hlo : (0 <= rnd i * inject_Z sides)%Q)
    by (apply Qmult_le_0_compat; assumption).
  assert (Hhi : (rnd i * inject_Z sides < 2 ^ 53)%Q).
  { destruct (Z.eq_dec sides 0) as [-> | Hn].
    - rewrite Qmult_0_r. reflexivity.
    - eapply Qlt_le_trans with (y := (1 * inject_Z sides)%Q).
      + apply Qmult_lt_compat_r; [rewrite <- (Zlt_Qlt 0); lia | exact H1].
      + rewrite Qmult_1_l. rewrite <- pow2_inject by lia.
        rewrite <- Zle_Qle. lia. }
  pose proof (nearest_double_floor _ Hlo Hhi). lia.
Qed.

Hypothesis rnd_unit : unit_source rnd.

Lemma unit_below_one (i : nat) : (rnd i <= below_one)%Q.
Proof.
  destruct (rnd_unit i) as (H0 & H1 & Hd). now apply double_below_one.
Qed.

Lemma die_range (sides : Z) (i : nat) :
  1 <= sides -> 1 <= die rnd sides i <= sides.
Proof.
  intros Hs. unfold die. destruct (rnd_unit i) as [H0 _].
  pose proof (unit_below_one i) as H1.
  assert (Hpos : (0 < inject_Z sides)%Q)
    by (rewrite <- (Zlt_Qlt 0); lia).
  assert (Hlo : (0 <= rnd i * inject_Z sides)%Q)
    by (apply Qmult_le_0_compat; [|apply Qlt_le_weak]; assumption).
  assert (Hhi : (rnd i * inject_Z sides <= inject_Z sides * below_one)%Q).
  { rewrite (Qmult_comm (inject_Z sides)).
    apply Qmult_le_compat_r; [exact H1 | apply Qlt_le_weak; exact Hpos]. }
  destruct (nearest_double_range _ sides Hlo Hs Hhi) as [Rlo Rhi].
  split.
  - apply Qfloor_resp_le in Rlo. change (Qfloor 0) with 0 in Rlo. lia.
  - assert (H : (inject_Z (Qfloor (JS.nearest_double (rnd i * inject_Z sides)))
                 < inject_Z sides)%Q)
      by (eapply Qle_lt_trans; [apply Qfloor_le | exact Rhi]).
    rewrite <- Zlt_Qlt in H. lia.
Qed.

Lemma sum_dice_range (sides : Z) (n : nat) :
  1 <= sides ->
  forall p : nat,
    Z.of_nat n <= sum_dice rnd sides p n <= Z.of_nat n * sides.
Proof.
  intros Hs. induction n as [|k IH]; intros p.
  - simpl. lia.
  - cbn [sum_dice]. specialize (IH (S p)).
    pose proof (die_range sides p Hs). nia.
Qed.

(** A roll whose text parses to [count] dice of [sides] faces. *)
Lemma roll_range (dice : string) (count sides : Z) (p : nat) :
  map JS.Number (JS.split "d" dice) = [JS.Num count; JS.Num sides] ->
  0 <= count -> 1 <= sides ->
  exists v : Z,
    roll rnd dice p = Ok (JS.Num v, (p + Z.to_nat count)%nat) /\
    count <= v <= count * sides.
Proof.
  intros H Hc Hs.
  exists (sum_dice rnd sides p (Z.to_nat count)).
  split; [now apply roll_eval|].
  pose proof (sum_dice_range sides (Z.to_nat count) Hs p) as B.
  rewrite Z2Nat.id in B by assumption. exact B.
Qed.

End Dice.



(** ** One villager *)

Section VillagerFacts.

Variable rnd : nat -> Q.
Variable T : Tables.

Lemma roll_3d6 (p : nat) :
  roll rnd "3d6" p = Ok (JS.Num (sum_dice rnd 6 p 3), (p + 3)%nat).
Proof. now apply (roll_eval rnd "3d6" 3 6). Qed.

(** After the seven ability rolls the generator goes on from [p + 21]. *)
Lemma generateVillager_unfold (p : nat) :
  generateVillager rnd T p = lookups rnd T p (p + 21)%nat.
Proof.
  unfold generateVillager, lookups, villager_of.
  do 7 (erewrite bind_eval by apply roll_3d6).
  unfold rolled_stats, rolled_modifiers, score.
  cbn [STR DEX CON INT WIS CHA LUC JS.add].
  replace (p + 3 * 0)%nat with p by lia.
  replace (p + 3 * 1)%nat with (p + 3)%nat by lia.
  replace (p + 3 * 2)%nat with (p + 3 + 3)%nat by lia.
  replace (p + 3 * 3)%nat with (p + 3 + 3 + 3)%nat by lia.
  replace (p + 3 * 4)%nat with (p + 3 + 3 + 3 + 3)%nat by lia.
  replace (p + 3 * 5)%nat with (p + 3 + 3 + 3 + 3 + 3)%nat by lia.
  replace (p + 3 * 6)%nat with (p + 3 + 3 + 3 + 3 + 3 + 3)%nat by lia.
  replace (p + 21)%nat with (p + 3 + 3 + 3 + 3 + 3 + 3 + 3)%nat by lia.
  reflexivity.
Qed.

Lemma generateVillager_Ok (p q : nat) (v : Villager) :
  generateVillager rnd T p = Ok (v, q) ->
  exists (d100 : JS.number) (occ : Occupation) (n : option string)
         (l b : string) (q1 q2 q3 q4 : nat),
    roll rnd "1d100" (p + 21)%nat = Ok (d100, q1) /\
    getOccupation rnd T d100 q1 = Ok (occ, q2) /\
    getName rnd T (occ_species occ) q2 = Ok (n, q3) /\
    getLook rnd T q3 = Ok (l, q4) /\
    getBond rnd T q4 = Ok (b, q) /\
    v = villager_of rnd p occ n l b.
Proof.
  rewrite generateVillager_unfold. unfold lookups. intros H.
  apply bind_Ok in H as (d100 & q1 & H1 & H).
  apply bind_Ok in H as (occ & q2 & H2 & H).
  apply bind_Ok in H as (n & q3 & H3 & H).
  apply bind_Ok in H as (l & q4 & H4 & H).
  apply bind_Ok in H as (b & q5 & H5 & H).
  unfold ret in H. injection H as <- <-.
  exists d100, occ, n, l, b, q1, q2, q3, q4. repeat split; assumption.
Qed.

Lemma getHeritageMoves_length (species : string) :
  (List.length (getHeritageMoves species) <= 1)%nat.
Proof.
  unfold getHeritageMoves.
  repeat match goal with |- context [String.eqb ?a ?b] =>
           destruct (String.eqb a b) end; simpl; lia.
Qed.

Hypothesis rnd_unit : unit_source rnd.

Lemma score_range (p k : nat) : 3 <= score rnd p k <= 18.
Proof.
  unfold score.
  pose proof (sum_dice_range rnd rnd_unit 6 3 ltac:(lia) (p + 3 * k)%nat).
  lia.
Qed.

Lemma generateVillager_invariants (p q : nat) (v : Villager) :
  generateVillager rnd T p = Ok (v, q) -> villager_ok v.
Proof.
  intros H.
  apply generateVillager_Ok in H
    as (d100 & occ & n & l & b & q1 & q2 & q3 & q4 & _ & _ & _ & _ & _ & ->).
  unfold villager_ok, score_ok, villager_of, rolled_stats, rolled_modifiers.
  cbn [stats modifiers hp load damage gear heritageMoves species
       STR DEX CON INT WIS CHA LUC JS.add List.length].
  repeat split;
    try (eexists; split; [reflexivity | apply score_range]);
    try apply getHeritageMoves_length.
Qed.

End VillagerFacts.

(** C8.  Whatever villager the generator returns, its CON and STR scores
    lie between 3 and 18, its [hp] is the CON score plus 4, its [load] the
    STR score plus 4, and its [damage] is ["d4"]. *)
Theorem hp_load_damage (rnd : nat -> Q) (T : Tables) (p q : nat)
    (v : Villager) :
  unit_source rnd ->
  generateVillager rnd T p = Ok (v, q) ->
  exists con str : Z,
    CON (stats v) = JS.Num con /\ STR (stats v) = JS.Num str /\
    3 <= con <= 18 /\ 3 <= str <= 18 /\
    hp v = JS.Num (con + 4) /\ load v = JS.Num (str + 4) /\
    damage v = "d4".
Proof.
  intros Hu H.
  apply generateVillager_Ok in H
    as (d100 & occ & n & l & b & q1 & q2 & q3 & q4 & _ & _ & _ & _ & _ & ->).
  exists (score rnd p 2), (score rnd p 0).
  repeat split; try reflexivity; apply (score_range rnd Hu).
Qed.

Lemma hp_load_damage_witness :
  exists (v : Villager) (q : nat),
    generateVillager fixture_rnd fixture_tables 0%nat = Ok (v, q) /\
    CON (stats v) = JS.Num 12 /\ hp v = JS.Num 16 /\
    STR (stats v) = JS.Num 7 /\ load v = JS.Num 11 /\
    exists con str : Z,
      CON (stats v) = JS.Num con /\ STR (stats v) = JS.Num str /\
      3 <= con <= 18 /\ 3 <= str <= 18 /\
      hp v = JS.Num (con + 4) /\ load v = JS.Num (str + 4) /\
      damage v = "d4".
Proof.
  destruct (generateVillager fixture_rnd fixture_tables 0%nat)
    as [[v q]|e] eqn:E; [|vm_compute in E; discriminate E].
  exists v, q. split; [reflexivity|].
  pose proof (hp_load_damage fixture_rnd fixture_tables 0 q v
                fixture_rnd_unit E) as H.
  vm_compute in E. injection E as <- <-.
  repeat split; try reflexivity. exact H.
Defined.

(** ** Computations that return *)

Lemma returns_ret {A : Type} (P : A -> Prop) (a : A) :
  P a -> returns P (ret a).
Proof. intros H p. now exists a, p. Qed.

Lemma returns_bind {A B : Type} (P : A -> Prop) (Q : B -> Prop)
    (c : M A) (k : A -> M B) :
  returns P c -> (forall a, P a -> returns Q (k a)) -> returns Q (bind c k).
Proof.
  intros Hc Hk p. destruct (Hc p) as (a & q & E & Ha).
  destruct (Hk a Ha q) as (b & q' & E' & Hb).
  exists b, q'. unfold bind. rewrite E. now split.
Qed.

Lemma returns_weaken {A : Type} (P Q : A -> Prop) (c : M A) :
  (forall a, P a -> Q a) -> returns P c -> returns Q c.
Proof.
  intros H Hc p. destruct (Hc p) as (a & q & E & Ha). exists a, q. auto.
Qed.

Lemma returns_defined {A : Type} (P : A -> Prop) (a : A) :
  P a -> returns P (defined (Some a)).
Proof. apply returns_ret. Qed.

Lemma repeatM_returns {A : Type} (P : A -> Prop) (f : M A) :
  returns P f ->
  forall n : nat,
    returns (fun l => List.length l = n /\ Forall P l) (repeatM n f).
Proof.
  intros Hf. induction n as [|k IH]; cbn [repeatM].
  - apply returns_ret. split; [reflexivity | constructor].
  - apply (returns_bind P); [exact Hf | intros a Ha].
    eapply returns_bind; [exact IH | intros l [Hl HP]].
    apply returns_ret. split; [simpl; now rewrite Hl | now constructor].
Qed.

Lemma get_Some {A : Type} (l : list A) (z : Z) :
  0 <= z < Z.of_nat (List.length l) ->
  exists a : A, JS.get l (JS.Num z) = Some a /\ In a l.
Proof.
  intros H. unfold JS.get.
  destruct (z <? 0) eqn:E; [apply Z.ltb_lt in E; lia|].
  destruct (nth_error l (Z.to_nat z)) as [a|] eqn:N.
  - exists a. split; [reflexivity | eapply nth_error_In; exact N].
  - apply nth_error_None in N. lia.
Qed.

Lemma has_rows_spec (n columns : nat) (rows : list (list string)) :
  has_rows n columns rows = true ->
  (n <= List.length rows)%nat /\
  forall row, In row rows -> (columns <= List.length row)%nat.
Proof.
  unfold has_rows. intros H. apply andb_prop in H as [Hn Hc].
  apply Nat.leb_le in Hn. split; [exact Hn|].
  intros row Hin. rewrite forallb_forall in Hc.
  now apply Nat.leb_le, Hc.
Qed.

Section Totality.

Variable rnd : nat -> Q.
Variable T : Tables.

Lemma returns_roll (dice : string) : returns (fun _ => True) (roll rnd dice).
Proof.
  intros p. destruct (roll_total rnd dice p) as (v & q & E). now exists v, q.
Qed.

Lemma replace_all_returns {C : Type} (matcher : string -> option (C * nat))
    (callback : C -> M string) :
  (forall c, returns (fun _ => True) (callback c)) ->
  forall (s : string) (skip : nat),
    returns (fun _ => True) (replace_all matcher callback skip s).
Proof.
  intros Hcb. induction s as [|c r IH]; intros skip; cbn [replace_all].
  - now apply returns_ret.
  - destruct skip as [|k]; [|apply IH].
    destruct (matcher (String c r)) as [[captures n]|].
    + eapply returns_bind; [apply Hcb | intros out _].
      eapply returns_bind; [apply IH | intros rest _].
      now apply returns_ret.
    + eapply returns_bind; [apply IH | intros rest _].
      now apply returns_ret.
Qed.

Lemma returns_pick (a : list string) (dice : string) :
  returns (fun _ => True) (pick rnd a dice).
Proof.
  unfold pick. eapply returns_bind; [apply returns_roll | intros r _].
  now apply returns_ret.
Qed.

Lemma returns_poultry : returns (fun _ => True) (poultry rnd).
Proof.
  unfold poultry.
  do 4 (eapply returns_bind; [apply returns_roll | intros ? _]).
  apply returns_pick.
Qed.

(** Template expansion returns on every template. *)
Lemma returns_expandGearTemplate (template : string) :
  returns (fun _ => True) (expandGearTemplate rnd template).
Proof.
  unfold expandGearTemplate.
  eapply returns_bind.
  { apply replace_all_returns. intros [count sides].
    eapply returns_bind; [apply returns_roll | intros r _].
    now apply returns_ret. }
  intros s1 _. eapply returns_bind.
  { apply replace_all_returns. intros _.
    eapply returns_bind; [apply returns_roll | intros r _].
    now apply returns_ret. }
  intros s2 _.
  do 3 (eapply returns_bind;
        [apply replace_all_returns; intros _; apply returns_pick
        | intros ? _]).
  apply replace_all_returns. intros _. apply returns_poultry.
Qed.

(** The row search stops at the first row that covers the roll, and
    reads no sample. *)
Lemma find_row_found (r : JS.number) (rows : list (list string)) (p : nat) :
  (forall row, In row rows -> row <> []) ->
  existsb (covers r) rows = true ->
  exists row,
    find_row r rows p = Ok (Some row, p) /\ In row rows /\ covers r row = true.
Proof.
  induction rows as [|row rest IH]; intros Hne Hex; [discriminate Hex|].
  cbn [find_row existsb] in *.
  destruct row as [|range cells];
    [exfalso; apply (Hne []); [now left | reflexivity]|].
  unfold bind. rewrite in_range_eval.
  change (JS.ge r (fst (parseRange range)) && JS.le r (snd (parseRange range)))
    with (covers r (range :: cells)).
  destruct (covers r (range :: cells)) eqn:E.
  - exists (range :: cells). unfold ret. repeat split; auto. now left.
  - simpl in Hex. destruct IH as (row & Hf & Hin & Hc); auto.
    { intros row Hin. apply Hne. now right. }
    exists row. repeat split; auto. now right.
Qed.

Lemma find_row_Ok (r : JS.number) (rows : list (list string)) (p q : nat)
    (found : option (list string)) :
  find_row r rows p = Ok (found, q) ->
  q = p /\
  match found with
  | Some row => In row rows /\ covers r row = true
  | None => True
  end.
Proof.
  induction rows as [|row rest IH]; cbn [find_row].
  - unfold ret. intros [= <- <-]. now split.
  - intros H. apply bind_Ok in H as (b & q1 & Hb & H).
    destruct row as [|range cells]; [discriminate Hb|].
    rewrite in_range_eval in Hb. injection Hb as <- <-.
    change (JS.ge r (fst (parseRange range))
            && JS.le r (snd (parseRange range)))
      with (covers r (range :: cells)) in H.
    destruct (covers r (range :: cells)) eqn:E.
    + unfold ret in H. injection H as <- <-.
      split; [reflexivity | split; [now left | exact E]].
    + destruct (IH H) as [-> Hf]. split; [reflexivity|].
      destruct found as [row|]; [|exact I].
      destruct Hf as [Hin Hc]. split; [now right | exact Hc].
Qed.

Hypothesis rnd_unit : unit_source rnd.

Lemma returns_d (sides : Z) (dice : string) :
  map JS.Number (JS.split "d" dice) = [JS.Num 1; JS.Num sides] ->
  1 <= sides ->
  returns (fun r => exists v, r = JS.Num v /\ 1 <= v <= sides) (roll rnd dice).
Proof.
  intros Hd Hs p.
  destruct (roll_range rnd rnd_unit dice 1 sides p Hd) as (v & E & B);
    [lia | lia |].
  exists (JS.Num v), (p + Z.to_nat 1)%nat. split; [exact E|].
  exists v. split; [reflexivity | lia].
Qed.

(** A d20 always lands on a row of a table with 20 rows or more. *)
Lemma returns_row (rows : list (list string)) (columns : nat) :
  has_rows 20 columns rows = true ->
  returns (fun r => exists row,
               JS.get rows (JS.sub r (JS.Num 1)) = Some row /\
               (columns <= List.length row)%nat)
          (roll rnd "1d20").
Proof.
  intros H. apply has_rows_spec in H as [Hn Hc].
  eapply returns_weaken; [|apply (returns_d 20 "1d20"); [reflexivity | lia]].
  intros r (v & -> & B). cbn [JS.sub].
  destruct (get_Some rows (v - 1)) as (row & E & Hin); [lia|].
  exists row. split; [exact E | now apply Hc].
Qed.

Lemma get_cell (row : list string) (columns : nat) (k : Z) :
  (columns <= List.length row)%nat -> 0 <= k < Z.of_nat columns ->
  exists cell, JS.get row (JS.Num k) = Some cell.
Proof.
  intros Hc Hk. destruct (get_Some row k) as (cell & E & _); [lia|].
  now exists cell.
Qed.

Hypothesis T_wf : tables_wf T = true.

Lemma tables_wf_parts :
  ranges_parse T = true /\ ranges_cover T = true /\
  has_rows 20 7 (nameRows T) = true /\ has_rows 20 6 (lookRows T) = true /\
  has_rows 20 5 (bondRows T) = true /\ gear_columns T = true.
Proof.
  unfold tables_wf, tables_covered in T_wf.
  repeat (apply andb_prop in T_wf as [T_wf ?]). repeat split; assumption.
Qed.

Lemma returns_getName (species : string) :
  returns (fun n => n <> None) (getName rnd T species).
Proof.
  destruct tables_wf_parts as (_ & _ & Hn & _).
  unfold getName.
  eapply returns_bind; [apply (returns_row _ _ Hn) | ].
  intros d (row & -> & Hc).
  assert (Hcell : forall k, 0 <= k < 7 ->
            returns (fun n : option string => n <> None)
                    (cells <- defined (Some row) ;;
                     ret (JS.get cells (JS.Num k)))).
  { intros k Hk. destruct (get_cell row 7 k Hc ltac:(lia)) as (cell & E).
    intros p. exists (Some cell), p. unfold bind, defined, ret.
    rewrite E. split; [reflexivity | discriminate]. }
  destruct (String.eqb species "Elf"); [apply Hcell; lia|].
  destruct (String.eqb species "Dwarf"); [apply Hcell; lia|].
  destruct (String.eqb species "Halfling"); [apply Hcell; lia|].
  eapply returns_bind; [apply returns_roll | intros coin _].
  destruct (JS.strict_eq coin (JS.Num 1)); [|apply Hcell; lia].
  eapply returns_bind; [apply (returns_d 2 "1d2"); [reflexivity | lia]|].
  intros column (k & -> & Hk). apply Hcell. lia.
Qed.

Lemma returns_lookCell (column : Z) :
  1 <= column <= 5 ->
  returns (fun c => c <> None) (lookCell rnd T column).
Proof.
  intros Hk. destruct tables_wf_parts as (_ & _ & _ & Hl & _).
  unfold lookCell.
  eapply returns_bind; [apply (returns_row _ _ Hl) | ].
  intros d (row & -> & Hc).
  destruct (get_cell row 6 column Hc ltac:(lia)) as (cell & E).
  intros p. exists (Some cell), p. unfold bind, defined, ret.
  rewrite E. split; [reflexivity | discriminate].
Qed.

Lemma returns_getLook : returns (fun _ => True) (getLook rnd T).
Proof.
  unfold getLook.
  eapply returns_bind; [apply (returns_lookCell 1); lia | intros [face|] Hf].
  2: congruence.
  eapply returns_bind; [apply (returns_lookCell 2); lia | intros [eyes|] He].
  2: congruence.
  eapply returns_bind; [apply (returns_lookCell 3); lia | intros [hair|] Hh].
  2: congruence.
  eapply returns_bind; [apply (returns_lookCell 4); lia | intros [body|] Hb].
  2: congruence.
  eapply returns_bind; [apply (returns_lookCell 5); lia | intros [cloth|] Hc].
  2: congruence.
  intros p. eexists _, p. split; [reflexivity | exact I].
Qed.

Lemma returns_getBond : returns (fun _ => True) (getBond rnd T).
Proof.
  destruct tables_wf_parts as (_ & _ & _ & _ & Hb & _).
  unfold getBond.
  eapply returns_bind; [apply (returns_row _ _ Hb) | ].
  intros d (row & -> & Hc).
  eapply returns_bind; [apply (returns_d 4 "1d4"); [reflexivity | lia]|].
  intros k (v & -> & Hv).
  destruct (get_cell row 5 0 Hc ltac:(lia)) as (template & E).
  intros p. eexists _, p. unfold bind, defined, ret. rewrite E.
  split; [reflexivity | exact I].
Qed.

Lemma occupation_rows_nonempty :
  forall row, In row (occupationRows T) -> row <> [].
Proof.
  destruct tables_wf_parts as (Hp & _).
  unfold ranges_parse in Hp. rewrite forallb_forall in Hp.
  intros row Hin ->. specialize (Hp [] Hin). discriminate Hp.
Qed.

Lemma range_covered (r : Z) :
  1 <= r <= 100 -> existsb (covers (JS.Num r)) (occupationRows T) = true.
Proof.
  intros Hr. destruct tables_wf_parts as (_ & Hc & _).
  unfold ranges_cover in Hc. rewrite forallb_forall in Hc.
  apply Hc. apply in_map_iff. exists (Z.to_nat r).
  split; [lia | apply in_seq; lia].
Qed.

Lemma returns_getOccupation (r : Z) :
  1 <= r <= 100 ->
  returns (fun occ => occ_name occ <> None) (getOccupation rnd T (JS.Num r)).
Proof.
  intros Hr p. unfold getOccupation.
  destruct (find_row_found (JS.Num r) (occupationRows T) p
              occupation_rows_nonempty (range_covered r Hr))
    as (row & Hf & Hin & _).
  destruct tables_wf_parts as (_ & _ & _ & _ & _ & Hg).
  unfold gear_columns in Hg. rewrite forallb_forall in Hg.
  specialize (Hg row Hin). apply Nat.leb_le in Hg.
  destruct (get_cell row 3 2 Hg ltac:(lia)) as (template & E2).
  destruct (get_cell row 3 1 Hg ltac:(lia)) as (nm & E1).
  destruct (returns_expandGearTemplate template p) as (g & q & Eg & _).
  eexists _, q. unfold bind. rewrite Hf. cbn [defined ret].
  rewrite E2. cbn [defined ret]. rewrite Eg. unfold ret.
  split; [reflexivity|]. cbn [occ_name]. rewrite E1. discriminate.
Qed.

Lemma returns_lookups (p0 : nat) :
  returns (fun v => name v <> None /\ occupation v <> None)
          (lookups rnd T p0).
Proof.
  unfold lookups.
  eapply returns_bind;
    [apply (returns_d 100 "1d100"); [reflexivity | lia]|].
  intros d100 (r & -> & Hr).
  eapply returns_bind; [apply (returns_getOccupation r Hr) | intros occ Ho].
  eapply returns_bind; [apply returns_getName | intros n Hn].
  eapply returns_bind; [apply returns_getLook | intros l _].
  eapply returns_bind; [apply returns_getBond | intros b _].
  apply returns_ret. now split.
Qed.

Lemma returns_generateVillager :
  returns (fun v => villager_ok v /\ name v <> None /\ occupation v <> None)
          (generateVillager rnd T).
Proof.
  intros p.
  destruct (returns_lookups p (p + 21)%nat) as (v & q & E & Hv).
  rewrite <- generateVillager_unfold in E.
  exists v, q. split; [exact E|]. split; [|exact Hv].
  eapply generateVillager_invariants; eassumption.
Qed.

End Totality.

(** ** Failure-freedom of the generator *)


(** ** The gear field *)

Lemma getOccupation_Ok (rnd : nat -> Q) (T : Tables) (r : JS.number)
    (p q : nat) (occ : Occupation) :
  getOccupation rnd T r p = Ok (occ, q) ->
  exists (row : list string) (template : string),
    find_row r (occupationRows T) p = Ok (Some row, p) /\
    JS.get row (JS.Num 2) = Some template /\
    expandGearTemplate rnd template p = Ok (occ_gear occ, q) /\
    occ_name occ = JS.get row (JS.Num 1) /\
    occ_species occ = JS.or_else (JS.get row (JS.Num 3)) "Human".
Proof.
  unfold getOccupation. intros H.
  apply bind_Ok in H as (found & q1 & Hf & H).
  destruct (find_row_Ok _ _ _ _ _ Hf) as [-> _].
  apply bind_Ok in H as (row & q2 & Hrow & H).
  apply defined_Ok in Hrow as [-> Hq]. cbn [fst snd] in *. subst q2.
  apply bind_Ok in H as (template & q3 & Ht & H).
  apply defined_Ok in Ht as [Ht Hq]. cbn [fst snd] in *. subst q3.
  apply bind_Ok in H as (g & q4 & Hg & H).
  unfold ret in H. injection H as <- <-.
  exists row, template. cbn [occ_gear occ_name occ_species].
  repeat split; assumption.
Qed.

(** C10.  The gear field of a generated villager is the one-element list
    holding the expansion of the gear template (third cell) of the
    occupation row matched by the d100 roll; only the card splits it into
    items, with [parseGear]. *)
Theorem gear_is_one_expanded_template (rnd : nat -> Q) (T : Tables)
    (p q : nat) (v : Villager) :
  generateVillager rnd T p = Ok (v, q) ->
  exists (d100 : JS.number) (row : list string) (template g : string)
         (q1 q2 : nat),
    roll rnd "1d100" (p + 21)%nat = Ok (d100, q1) /\
    find_row d100 (occupationRows T) q1 = Ok (Some row, q1) /\
    covers d100 row = true /\
    JS.get row (JS.Num 2) = Some template /\
    expandGearTemplate rnd template q1 = Ok (g, q2) /\
    gear v = [g] /\
    gearItems (VillagerCard v) = parseGear g.
Proof.
  intros H.
  apply generateVillager_Ok in H
    as (d100 & occ & n & l & b & q1 & q2 & q3 & q4 & Hd & Ho & _ & _ & _ & ->).
  apply getOccupation_Ok in Ho as (row & template & Hf & Ht & Hg & _ & _).
  destruct (find_row_Ok _ _ _ _ _ Hf) as [_ [_ Hc]].
  exists d100, row, template, (occ_gear occ), q1, q2.
  repeat split; try assumption.
  cbn [VillagerCard gearItems gear flat_map]. apply app_nil_r.
Qed.

Lemma gear_is_one_expanded_template_witness :
  exists (v : Villager) (q : nat),
    generateVillager fixture_rnd fixture_tables 0%nat = Ok (v, q) /\
    gear v = ["peppers seeds, 5 coins, 1 ducks"] /\
    gearItems (VillagerCard v) = ["peppers seeds"; "5 coins"; "1 ducks"] /\
    exists (d100 : JS.number) (row : list string) (template g : string)
           (q1 q2 : nat),
      roll fixture_rnd "1d100" (0 + 21)%nat = Ok (d100, q1) /\
      find_row d100 (occupationRows fixture_tables) q1 = Ok (Some row, q1) /\
      covers d100 row = true /\
      JS.get row (JS.Num 2) = Some template /\
      expandGearTemplate fixture_rnd template q1 = Ok (g, q2) /\
      gear v = [g] /\
      gearItems (VillagerCard v) = parseGear g.
Proof.
  destruct (generateVillager fixture_rnd fixture_tables 0%nat)
    as [[v q]|e] eqn:E; [|vm_compute in E; discriminate E].
  exists v, q. split; [reflexivity|].
  pose proof (gear_is_one_expanded_template fixture_rnd fixture_tables
                0 q v E) as H.
  vm_compute in E. injection E as <- <-.
  split; [reflexivity | split; [reflexivity | exact H]].
Defined.

(** ** The program *)

Lemma main_eval (rnd : nat -> Q) (T : Tables) (argv2 : option string)
    (n : Z) (p : nat) :
  JS.parseInt (JS.or_else argv2 "1") = JS.Num n ->
  0 <= n < 2 ^ 32 ->
  main rnd T argv2 p
  = (villagers <- repeatM (Z.to_nat n) (generateVillager rnd T) ;;
     ret (villagers, App villagers)) p.
Proof.
  intros Hn Hr. unfold main, Array_from. rewrite Hn. cbn [ToLength].
  replace (Z.min (Z.max n 0) (2 ^ 53 - 1)) with n by lia.
  destruct (2 ^ 32 - 1 <? n) eqn:E; [apply Z.ltb_lt in E; lia|].
  reflexivity.
Qed.

Lemma main_records (rnd : nat -> Q) (T : Tables) (argv2 : option string)
    (n : Z) (p : nat) :
  tables_wf T = true -> unit_source rnd ->
  JS.parseInt (JS.or_else argv2 "1") = JS.Num n ->
  0 <= n < 2 ^ 32 ->
  exists (villagers : list Villager) (q : nat),
    main rnd T argv2 p = Ok ((villagers, App villagers), q) /\
    Z.of_nat (List.length villagers) = n /\
    Forall villager_ok villagers /\
    List.length (App villagers) = List.length villagers.
Proof.
  intros Hwf Hu Hn Hr. rewrite (main_eval rnd T argv2 n p Hn Hr).
  destruct (repeatM_returns villager_ok (generateVillager rnd T)
              (returns_weaken _ _ _ (fun v H => proj1 H)
                 (returns_generateVillager rnd T Hu Hwf))
              (Z.to_nat n) p) as (vs & q & E & Hl & Hok).
  exists vs, q. unfold bind. rewrite E. unfold ret, App.
  repeat split; [lia | exact Hok | apply length_map].
Qed.

Lemma main_NaN (rnd : nat -> Q) (T : Tables) (argv2 : option string)
    (p : nat) :
  JS.parseInt (JS.or_else argv2 "1") = JS.NaN ->
  main rnd T argv2 p = Ok (([], []), p).
Proof. intros H. unfold main, Array_from. now rewrite H. Qed.

(** More records than an array may hold are refused, and a negative
    count is no record. *)
Lemma main_too_many (rnd : nat -> Q) (T : Tables) (n : Z) (p : nat) :
  2 ^ 32 <= n ->
  main rnd T (Some (JS.String_of_number (JS.Num n))) p = Throw RangeError.
Proof.
  intros Hn. unfold main, Array_from.
  assert (E : JS.or_else (Some (JS.String_of_number (JS.Num n))) "1"
              = JS.String_of_number (JS.Num n)).
  { rewrite String_of_number_nonneg by lia. unfold JS.or_else.
    pose proof (decimal_nonempty (Z.to_N n)) as Hne.
    destruct (JS.decimal (Z.to_N n)); [discriminate Hne | reflexivity]. }
  rewrite E, String_of_number_nonneg, parseInt_decimal by lia.
  cbn [ToLength]. rewrite Z2N.id by lia.
  destruct (2 ^ 32 - 1 <? Z.min (Z.max n 0) (2 ^ 53 - 1)) eqn:L;
    [reflexivity | apply Z.ltb_ge in L; lia].
Qed.

Example main_negative :
  main fixture_rnd fixture_tables (Some "-3") 0%nat = Ok (([], []), 0%nat).
Proof. vm_compute. reflexivity. Qed.




(** ** Template expansion *)

Lemma free_of_append (sep : ascii) (a b : string) :
  free_of sep (a ++ b) = free_of sep a && free_of sep b.
Proof.
  induction a as [|c r IH]; simpl; [reflexivity|].
  now rewrite IH, andb_assoc.
Qed.

Lemma token_at_brace (c : ascii) (s : string) :
  token_at (String c s) = true -> c = "{"%char.
Proof.
  destruct (Ascii.eqb_spec c "{"%char) as [->|Hc]; [reflexivity|].
  intros H. exfalso. revert H.
  destruct c as [[] [] [] [] [] [] [] []];
    try (exfalso; apply Hc; reflexivity); vm_compute; discriminate.
Qed.

(** Text without an opening brace holds no token. *)
Lemma free_of_token_free (s : string) :
  free_of "{" s = true -> token_free s = true.
Proof.
  unfold token_free. induction s as [|c r IH]; [reflexivity|].
  cbn [free_of nowhere]. intros H. apply andb_prop in H as [Hc Hr].
  rewrite (IH Hr), andb_true_r. apply negb_true_iff.
  destruct (token_at (String c r)) eqn:E; [|reflexivity].
  apply token_at_brace in E. subst c. discriminate Hc.
Qed.

Section Scan.

Context {C : Type}.
Variable matcher : string -> option (C * nat).
Variable callback : C -> M string.

(** Where the pattern matches nowhere, the scan returns the text as it is
    and reads no sample. *)
Lemma replace_all_nowhere (s : string) (p : nat) :
  nowhere (matches matcher) s = true ->
  replace_all matcher callback 0 s p = Ok (s, p).
Proof.
  induction s as [|c r IH]; cbn [replace_all nowhere]; intros H.
  - reflexivity.
  - apply andb_prop in H as [Hm Hr]. apply negb_true_iff in Hm.
    unfold matches in Hm.
    destruct (matcher (String c r)); [discriminate Hm|].
    unfold bind. now rewrite (IH Hr).
Qed.

Lemma replace_all_skip (u rest : string) (p : nat) :
  replace_all matcher callback (String.length u) (u ++ rest) p
  = replace_all matcher callback 0 rest p.
Proof.
  induction u as [|c r IH]; cbn [String.length append replace_all].
  - destruct rest; reflexivity.
  - exact IH.
Qed.

(** A match at the head: the callback's text, then the scan of what
    follows the token. *)
Lemma replace_all_hit (u rest out tail : string) (captures : C)
    (p q1 q2 : nat) :
  u <> "" ->
  matcher (u ++ rest) = Some (captures, String.length u) ->
  callback captures p = Ok (out, q1) ->
  replace_all matcher callback 0 rest q1 = Ok (tail, q2) ->
  replace_all matcher callback 0 (u ++ rest) p = Ok (out ++ tail, q2).
Proof.
  intros Hu Hm Hc Ht. destruct u as [|c r]; [congruence|].
  cbn [append replace_all]. cbn [append] in Hm. rewrite Hm.
  unfold bind. rewrite Hc. cbn [String.length Nat.pred].
  rewrite replace_all_skip, Ht. reflexivity.
Qed.

Hypothesis matcher_brace :
  forall (c : ascii) (s : string),
    c <> "{"%char -> matcher (String c s) = None.

(** Text without an opening brace is copied. *)
Lemma replace_all_copy (u rest tail : string) (p q : nat) :
  free_of "{" u = true ->
  replace_all matcher callback 0 rest p = Ok (tail, q) ->
  replace_all matcher callback 0 (u ++ rest) p = Ok (u ++ tail, q).
Proof.
  intros Hu Ht. induction u as [|c r IH]; [exact Ht|].
  cbn [free_of] in Hu. apply andb_prop in Hu as [Hc Hr].
  apply negb_true_iff, Ascii.eqb_neq in Hc.
  cbn [append replace_all]. rewrite (matcher_brace c _ Hc).
  unfold bind. now rewrite (IH Hr).
Qed.

(** A token of another pass is copied. *)
Lemma replace_all_miss (c : ascii) (u rest tail : string) (p q : nat) :
  matcher (String c u ++ rest) = None ->
  free_of "{" u = true ->
  replace_all matcher callback 0 rest p = Ok (tail, q) ->
  replace_all matcher callback 0 (String c u ++ rest) p
  = Ok (String c u ++ tail, q).
Proof.
  intros Hm Hu Ht. cbn [append replace_all]. cbn [append] in Hm.
  rewrite Hm. unfold bind.
  now rewrite (replace_all_copy u rest tail p q Hu Ht).
Qed.

End Scan.

Lemma token_text_shape (t : token) :
  token_ok t = true ->
  exists body, token_text t = String "{"%char body /\ free_of "{" body = true.
Proof.
  destruct t as [count sides| | | | |]; intros H;
    try (eexists; split; [reflexivity | reflexivity]).
  cbn [token_ok] in H. apply andb_prop in H as [Hc Hs].
  unfold integer_text in Hc, Hs.
  apply andb_prop in Hc as [_ Hc]. apply andb_prop in Hs as [_ Hs].
  eexists. split; [reflexivity|].
  rewrite !free_of_append.
  rewrite (digits_free_of "{" count), (digits_free_of "{" sides)
    by (assumption || reflexivity).
  reflexivity.
Qed.

Lemma token_out_free (t : token) (out : string) :
  token_out t out -> free_of "{" out = true.
Proof.
  destruct t as [count sides| | | | |]; cbn [token_out].
  - unfold integer_text. intros H. apply andb_prop in H as [_ H].
    now apply digits_free_of.
  - intros H. simpl in H. repeat destruct H as [<-|H]; try reflexivity.
    contradiction.
  - intros H. simpl in H. repeat destruct H as [<-|H]; try reflexivity.
    contradiction.
  - intros H. simpl in H. repeat destruct H as [<-|H]; try reflexivity.
    contradiction.
  - intros H. simpl in H. repeat destruct H as [<-|H]; try reflexivity.
    contradiction.
  - intros (a & b & c & d & Ha & Hb & Hc & Hd & H).
    assert (F : forall (n : Z) (unit : string),
               0 <= n -> free_of "{" unit = true ->
               free_of "{" (JS.String_of_number (JS.Num n) ++ unit) = true).
    { intros n unit Hn Hunit.
      rewrite free_of_append, String_of_number_nonneg, Hunit by exact Hn.
      rewrite digits_free_of;
        [reflexivity | reflexivity | apply decimal_digits]. }
    simpl in H.
    repeat destruct H as [<-|H]; try contradiction;
      apply F; (lia || reflexivity).
Qed.

Section Pass.

Context {C : Type}.
Variable matcher : string -> option (C * nat).
Variable callback : C -> M string.
Variable stage : nat.

Hypothesis matcher_brace :
  forall (c : ascii) (s : string),
    c <> "{"%char -> matcher (String c s) = None.

Hypothesis hit :
  forall (t : token) (rest : string),
    token_ok t = true -> pass_of t = stage ->
    exists captures,
      matcher (token_text t ++ rest)
      = Some (captures, String.length (token_text t)) /\
      returns (token_out t) (callback captures).

Hypothesis miss :
  forall (t : token) (rest : string),
    token_ok t = true -> (stage < pass_of t)%nat ->
    matcher (token_text t ++ rest) = None.

(** One pass replaces the tokens of its stage and copies everything
    else. *)
Lemma pass_items (items : list (piece * string)) :
  Forall (item_ok stage) items ->
  forall p : nat,
  exists (items' : list (piece * string)) (q : nat),
    replace_all matcher callback 0 (concat_text (map snd items)) p
    = Ok (concat_text (map snd items'), q) /\
    map fst items' = map fst items /\
    Forall (item_ok (S stage)) items'.
Proof.
  induction 1 as [|[x cur] items Hx Hitems IH]; intros p.
  - exists [], p. repeat split; constructor.
  - cbn [map snd concat_text fold_right].
    change (fold_right append "" (map snd items))
      with (concat_text (map snd items)).
    unfold item_ok in Hx. cbn [fst snd] in Hx.
    destruct x as [s|t].
    + destruct Hx as [-> Hs].
      destruct (IH p) as (items' & q & E & Hfst & Hok).
      exists ((Lit s, s) :: items'), q. repeat split.
      * now apply replace_all_copy.
      * cbn [map fst]. now rewrite Hfst.
      * constructor; [now split | exact Hok].
    + destruct Hx as [Ht [[-> Hstage]|Hout]].
      * destruct (Nat.eq_dec (pass_of t) stage) as [Heq|Hne].
        -- destruct (hit t (concat_text (map snd items)) Ht Heq)
             as (captures & Hm & Hret).
           destruct (Hret p) as (out & q1 & Hc & Hout).
           destruct (IH q1) as (items' & q & E & Hfst & Hok).
           exists ((Tok t, out) :: items'), q. repeat split.
           ++ eapply replace_all_hit; try eassumption.
              destruct (token_text_shape t Ht) as (body & -> & _).
              discriminate.
           ++ cbn [map fst]. now rewrite Hfst.
           ++ constructor; [|exact Hok]. split; [exact Ht | now right].
        -- destruct (IH p) as (items' & q & E & Hfst & Hok).
           exists ((Tok t, token_text t) :: items'), q. repeat split.
           ++ destruct (token_text_shape t Ht) as (body & Hb & Hfree).
              pose proof (miss t (concat_text (map snd items)) Ht
                            ltac:(lia)) as Hm.
              rewrite Hb in Hm |- *.
              now apply replace_all_miss.
           ++ cbn [map fst]. now rewrite Hfst.
           ++ constructor; [|exact Hok].
              split; [exact Ht | left; split; [reflexivity | cbn; lia]].
      * destruct (IH p) as (items' & q & E & Hfst & Hok).
        exists ((Tok t, cur) :: items'), q. repeat split.
        -- apply replace_all_copy; [exact matcher_brace | | exact E].
           now apply (token_out_free t).
        -- cbn [map fst]. now rewrite Hfst.
        -- constructor; [|exact Hok]. split; [exact Ht | now right].
Qed.

End Pass.

(** *** The six patterns *)

Lemma match_dice_brace (c : ascii) (s : string) :
  c <> "{"%char -> match_dice (String c s) = None.
Proof.
  intros Hc.
  destruct c as [[] [] [] [] [] [] [] []]; try reflexivity.
  exfalso. now apply Hc.
Qed.

Lemma match_text_brace (token : string) (c : ascii) (s : string) :
  c <> "{"%char ->
  match_text (String "{"%char token) (String c s) = None.
Proof.
  intros Hc. unfold match_text. cbn [JS.starts_with].
  apply not_eq_sym, Ascii.eqb_neq in Hc. now rewrite Hc.
Qed.

Lemma starts_with_append (u rest : string) :
  JS.starts_with u (u ++ rest) = true.
Proof.
  induction u as [|c r IH]; [reflexivity|].
  cbn [append JS.starts_with]. now rewrite Ascii.eqb_refl, IH.
Qed.

Lemma match_text_hit (token rest : string) :
  match_text token (token ++ rest) = Some (tt, String.length token).
Proof. unfold match_text. now rewrite starts_with_append. Qed.

Lemma uint_of_string_digits (s : string) :
  all_digits s = true -> exists d, NilEmpty.uint_of_string s = Some d.
Proof.
  induction s as [|c r IH]; cbn [all_digits NilEmpty.uint_of_string].
  - now exists Decimal.Nil.
  - intros H. apply andb_prop in H as [Hc Hr].
    destruct (IH Hr) as (d & ->).
    destruct (digit_cases c Hc) as [E|[E|[E|[E|[E|[E|[E|[E|[E|E]]]]]]]]];
      subst c; eexists; reflexivity.
Qed.

Lemma Number_integer_text (s : string) :
  integer_text s = true -> exists n : N, JS.Number s = JS.Num (Z.of_N n).
Proof.
  intros H. rewrite (Number_digits s H).
  unfold integer_text in H. apply andb_prop in H as [Hne Hd].
  destruct (uint_of_string_digits s Hd) as (d & E).
  exists (N.of_uint d). unfold JS.unsigned_literal, JS.digits_value.
  destruct s; [discriminate Hne|]. now rewrite E.
Qed.

Lemma integer_text_shape (s : string) :
  integer_text s = true ->
  all_digits s = true /\ exists c r, s = String c r.
Proof.
  unfold integer_text. intros H. apply andb_prop in H as [Hne Hd].
  split; [exact Hd|]. destruct s as [|c r]; [discriminate Hne | eauto].
Qed.

Lemma dice_token_append (count sides rest : string) :
  token_text (TDice count sides) ++ rest
  = String "{" (count ++ String "d" (sides ++ String "}" rest)).
Proof.
  cbn [token_text append]. f_equal.
  rewrite append_assoc. f_equal. cbn [append]. f_equal.
  now rewrite append_assoc.
Qed.

Lemma dice_token_length (count sides : string) :
  String.length (token_text (TDice count sides))
  = (String.length count + String.length sides + 3)%nat.
Proof.
  cbn [token_text append String.length].
  rewrite length_append. cbn [append String.length].
  rewrite length_append. cbn [String.length]. lia.
Qed.

Lemma match_dice_hit (count sides rest : string) :
  integer_text count = true -> integer_text sides = true ->
  match_dice (token_text (TDice count sides) ++ rest)
  = Some ((count, sides), String.length (token_text (TDice count sides))).
Proof.
  intros Hc Hs. rewrite dice_token_append, dice_token_length.
  apply integer_text_shape in Hc as (Hc & c1 & r1 & E1).
  apply integer_text_shape in Hs as (Hs & c2 & r2 & E2).
  unfold match_dice.
  rewrite (take_digits_all count _ Hc) by reflexivity.
  rewrite E1 at 1.
  rewrite (take_digits_all sides _ Hs) by reflexivity.
  rewrite E2 at 1. reflexivity.
Qed.

Section Resolvers.

Variable rnd : nat -> Q.
Hypothesis rnd_unit : unit_source rnd.

Lemma die_positive (sides : Z) (i : nat) : 0 <= sides -> 1 <= die rnd sides i.
Proof.
  intros Hs. unfold die. destruct (rnd_unit i) as (H0 & _).
  assert (Hlo : (0 <= rnd i * inject_Z sides)%Q).
  { apply Qmult_le_0_compat; [exact H0 | unfold Qle; simpl; lia]. }
  apply nearest_double_nonneg in Hlo.
  apply Qfloor_resp_le in Hlo. change (Qfloor 0) with 0 in Hlo. lia.
Qed.

Lemma sum_dice_nonneg (sides : Z) (n : nat) :
  0 <= sides -> forall p : nat, 0 <= sum_dice rnd sides p n.
Proof.
  intros Hs. induction n as [|k IH]; intros p; cbn [sum_dice]; [lia|].
  specialize (IH (S p)). pose proof (die_positive sides p Hs). lia.
Qed.

(** The resolver of a dice token. *)
Lemma returns_dice_resolver (count sides : string) :
  integer_text count = true -> integer_text sides = true ->
  returns (token_out (TDice count sides))
          (r <- roll rnd (count ++ "d" ++ sides) ;;
           ret (JS.String_of_number r)).
Proof.
  intros Hc Hs p.
  destruct (Number_integer_text count Hc) as (c & Ec).
  destruct (Number_integer_text sides Hs) as (s & Es).
  assert (Hparts : map JS.Number (JS.split "d" (count ++ "d" ++ sides))
                   = [JS.Num (Z.of_N c); JS.Num (Z.of_N s)]).
  { apply integer_text_shape in Hc as (Hc & _).
    apply integer_text_shape in Hs as (Hs & _).
    cbn [append]. rewrite split_at by now apply digits_free_of.
    rewrite split_free by now apply digits_free_of.
    cbn [map]. now rewrite Ec, Es. }
  eexists _, _. unfold bind.
  rewrite (roll_eval rnd _ _ _ p Hparts). unfold ret.
  split; [reflexivity|]. cbn [token_out].
  rewrite String_of_number_nonneg by (apply sum_dice_nonneg; lia).
  apply decimal_integer_text.
Qed.

Lemma returns_compound_resolver :
  returns (token_out TCompound)
          (r <- roll rnd "1d4" ;;
           ret (JS.String_of_number
                  (JS.add (JS.Num 2) (JS.mul r (JS.Num 2))))).
Proof.
  intros p.
  destruct (roll_range rnd rnd_unit "1d4" 1 4 p eq_refl) as (v & E & B);
    [lia | lia |].
  eexists _, _. unfold bind. rewrite E. unfold ret.
  split; [reflexivity|]. cbn [token_out JS.mul JS.add].
  assert (Hv : v = 1 \/ v = 2 \/ v = 3 \/ v = 4) by lia.
  destruct Hv as [-> | [-> | [-> | ->]]]; simpl; tauto.
Qed.

(** A die with as many faces as the list has entries picks an entry. *)
Lemma returns_pick_in (a : list string) (dice : string) :
  map JS.Number (JS.split "d" dice)
  = [JS.Num 1; JS.Num (Z.of_nat (List.length a))] ->
  a <> [] ->
  returns (fun out => In out a) (pick rnd a dice).
Proof.
  intros Hd Ha p.
  destruct (roll_range rnd rnd_unit dice 1 _ p Hd) as (v & E & B);
    [lia | destruct a; [congruence | simpl; lia] |].
  destruct (get_Some a (v - 1)) as (out & Eo & Hin); [lia|].
  exists out, (p + Z.to_nat 1)%nat. unfold pick, bind. rewrite E.
  cbn [JS.sub]. rewrite Eo. now split.
Qed.

Lemma returns_poultry_resolver : returns (token_out TPoultry) (poultry rnd).
Proof.
  unfold poultry.
  eapply returns_bind;
    [apply (returns_d rnd rnd_unit 6 "1d6"); [reflexivity | lia]|].
  intros ? (a & -> & Ha).
  eapply returns_bind;
    [apply (returns_d rnd rnd_unit 6 "1d6"); [reflexivity | lia]|].
  intros ? (b & -> & Hb).
  eapply returns_bind;
    [apply (returns_d rnd rnd_unit 4 "1d4"); [reflexivity | lia]|].
  intros ? (c & -> & Hc).
  eapply returns_bind;
    [apply (returns_d rnd rnd_unit 4 "1d4"); [reflexivity | lia]|].
  intros ? (d & -> & Hd).
  eapply returns_weaken; [|apply returns_pick_in; [reflexivity | discriminate]].
  intros out Hin. cbn [token_out]. exists a, b, c, d. auto.
Qed.

End Resolvers.

Lemma nowhere_weaken (test1 test2 : string -> bool) (s : string) :
  (forall u, test1 u = true -> test2 u = true) ->
  nowhere test2 s = true -> nowhere test1 s = true.
Proof.
  intros Himp. induction s as [|c r IH]; cbn [nowhere]; intros H;
    apply andb_prop in H as [Ht Hr]; apply negb_true_iff in Ht.
  - rewrite andb_true_r. apply negb_true_iff.
    destruct (test1 "") eqn:E; [|reflexivity].
    apply Himp in E. congruence.
  - rewrite (IH Hr), andb_true_r. apply negb_true_iff.
    destruct (test1 (String c r)) eqn:E; [|reflexivity].
    apply Himp in E. congruence.
Qed.

(** A template without token comes back unchanged, and no sample is
    read. *)
Lemma expandGearTemplate_token_free (rnd : nat -> Q) (template : string)
    (p : nat) :
  token_free template = true ->
  expandGearTemplate rnd template p = Ok (template, p).
Proof.
  intros H. unfold expandGearTemplate, bind.
  rewrite replace_all_nowhere.
  2:{ revert H. apply nowhere_weaken. intros u Hu. unfold token_at.
      rewrite Hu. reflexivity. }
  do 4 (rewrite replace_all_nowhere;
        [|revert H; apply nowhere_weaken; intros u Hu; unfold token_at;
          rewrite Hu, ?orb_true_r; reflexivity]).
  apply replace_all_nowhere.
  revert H. apply nowhere_weaken. intros u Hu. unfold token_at.
  rewrite Hu, ?orb_true_r. reflexivity.
Qed.

Section FlatTemplates.

Variable rnd : nat -> Q.
Hypothesis rnd_unit : unit_source rnd.

Ltac literal_hit resolver :=
  let t := fresh "t" in
  intros t ? ? ?; destruct t; try discriminate;
  exists tt; split; [apply match_text_hit | apply resolver].

Ltac literal_miss :=
  let t := fresh "t" in
  intros t ? ? ?; destruct t; cbn [pass_of] in *; try lia; reflexivity.

(** The six passes on a flat template. *)
Lemma expandGearTemplate_items (items : list (piece * string)) (p : nat) :
  Forall (item_ok 0) items ->
  exists (items' : list (piece * string)) (q : nat),
    expandGearTemplate rnd (concat_text (map snd items)) p
    = Ok (concat_text (map snd items'), q) /\
    map fst items' = map fst items /\
    Forall (item_ok 6) items'.
Proof.
  intros H0.
  destruct (pass_items match_dice
              (fun '(count, sides) =>
                 r <- roll rnd (count ++ "d" ++ sides) ;;
                 ret (JS.String_of_number r))
              0 match_dice_brace) with (items := items) (p := p)
    as (items1 & q1 & E1 & F1 & H1); [| |exact H0|].
  { intros t rest Ht Hp. destruct t as [count sides| | | | |];
      try discriminate Hp.
    cbn [token_ok] in Ht. apply andb_prop in Ht as [Hc Hs].
    exists (count, sides). split; [now apply match_dice_hit|].
    now apply returns_dice_resolver. }
  { intros t rest Ht Hp. destruct t; cbn [pass_of] in Hp; try lia;
      reflexivity. }
  destruct (pass_items (match_text "{2+1d4*2}")
              (fun _ =>
                 r <- roll rnd "1d4" ;;
                 ret (JS.String_of_number
                        (JS.add (JS.Num 2) (JS.mul r (JS.Num 2)))))
              1 (match_text_brace _)) with (items := items1) (p := q1)
    as (items2 & q2 & E2 & F2 & H2); [| |exact H1|].
  { literal_hit (returns_compound_resolver rnd rnd_unit). }
  { literal_miss. }
  destruct (pass_items (match_text "{crop}")
              (fun _ => pick rnd CROPS "1d10")
              2 (match_text_brace _)) with (items := items2) (p := q2)
    as (items3 & q3 & E3 & F3 & H3); [| |exact H2|].
  { literal_hit (returns_pick_in rnd rnd_unit CROPS "1d10");
      [reflexivity | discriminate]. }
  { literal_miss. }
  destruct (pass_items (match_text "{instrument}")
              (fun _ => pick rnd INSTRUMENTS "1d8")
              3 (match_text_brace _)) with (items := items3) (p := q3)
    as (items4 & q4 & E4 & F4 & H4); [| |exact H3|].
  { literal_hit (returns_pick_in rnd rnd_unit INSTRUMENTS "1d8");
      [reflexivity | discriminate]. }
  { literal_miss. }
  destruct (pass_items (match_text "{animal_trainer_gear}")
              (fun _ => pick rnd ANIMAL_TRAINER_GEAR "1d4")
              4 (match_text_brace _)) with (items := items4) (p := q4)
    as (items5 & q5 & E5 & F5 & H5); [| |exact H4|].
  { literal_hit (returns_pick_in rnd rnd_unit ANIMAL_TRAINER_GEAR "1d4");
      [reflexivity | discriminate]. }
  { literal_miss. }
  destruct (pass_items (match_text "{poultry}")
              (fun _ => poultry rnd)
              5 (match_text_brace _)) with (items := items5) (p := q5)
    as (items6 & q6 & E6 & F6 & H6); [| |exact H5|].
  { literal_hit (returns_poultry_resolver rnd rnd_unit). }
  { literal_miss. }
  exists items6, q6. split; [|split; [congruence | exact H6]].
  unfold expandGearTemplate.
  rewrite (bind_eval _ _ _ _ _ E1), (bind_eval _ _ _ _ _ E2),
    (bind_eval _ _ _ _ _ E3), (bind_eval _ _ _ _ _ E4),
    (bind_eval _ _ _ _ _ E5).
  exact E6.
Qed.

Lemma initial_items (pieces : list piece) :
  forallb piece_ok pieces = true ->
  Forall (item_ok 0) (map (fun x => (x, piece_text x)) pieces).
Proof.
  intros H. rewrite forallb_forall in H. apply Forall_forall.
  intros it Hin. apply in_map_iff in Hin as (x & <- & Hx).
  specialize (H x Hx). unfold item_ok. cbn [fst snd].
  destruct x as [s|t]; cbn [piece_ok piece_text] in *.
  - now split.
  - split; [exact H | left; split; [reflexivity | lia]].
Qed.

Lemma final_items (items : list (piece * string)) :
  Forall (item_ok 6) items ->
  Forall2 expansion_of (map fst items) (map snd items) /\
  free_of "{" (concat_text (map snd items)) = true.
Proof.
  induction 1 as [|[x cur] items Hx Hitems [IH1 IH2]]; cbn [map fst snd].
  - split; [constructor | reflexivity].
  - unfold item_ok in Hx. cbn [fst snd] in Hx.
    cbn [concat_text fold_right].
    change (fold_right append "" (map snd items))
      with (concat_text (map snd items)).
    rewrite free_of_append, IH2, andb_true_r.
    destruct x as [s|t].
    + destruct Hx as [-> Hs]. split; [constructor; [reflexivity | exact IH1]|].
      exact Hs.
    + destruct Hx as [Ht [[_ Hstage]|Hout]].
      * destruct t; cbn [pass_of] in Hstage; lia.
      * split; [constructor; [exact Hout | exact IH1]|].
        now apply (token_out_free t).
Qed.

Lemma expandGearTemplate_flat (pieces : list piece) (p : nat) :
  forallb piece_ok pieces = true ->
  exists (outs : list string) (q : nat),
    expandGearTemplate rnd (render pieces) p = Ok (concat_text outs, q) /\
    Forall2 expansion_of pieces outs /\
    free_of "{" (concat_text outs) = true /\
    token_free (concat_text outs) = true.
Proof.
  intros H.
  destruct (expandGearTemplate_items _ p (initial_items pieces H))
    as (items & q & E & Hfst & Hok).
  rewrite map_map in E, Hfst. cbn [fst snd] in E, Hfst.
  rewrite map_id in Hfst.
  destruct (final_items items Hok) as [H2 Hfree].
  exists (map snd items), q. rewrite Hfst in H2.
  repeat split; try assumption.
  now apply free_of_token_free.
Qed.

End FlatTemplates.

(** Against C4 as stated.  A dice token nested in braces: the inner
    [{1d6}] is replaced by its roll, the pass does not look at its own
    output again, and the result [{2d6}] is itself a dice token left in the
    output. *)
Lemma nested_token_leaves_residue :
  unit_source fixture_rnd /\
  token_at "{1d6}d6}" = true /\
  expandGearTemplate fixture_rnd "{{1d6}d6}" 0%nat = Ok ("{2d6}", 1%nat) /\
  token_at "{2d6}" = true /\
  token_free "{2d6}" = false.
Proof.
  split; [exact fixture_rnd_unit|].
  repeat split; vm_compute; reflexivity.
Qed.

(* ================================================================= *)
(** * Further properties of the code *)

(** ** Modifiers as text *)

Lemma parse_digits_prefix_decimal (n : N) :
  JS.parse_digits_prefix (JS.decimal n) = JS.Num (Z.of_N n).
Proof.
  unfold JS.parse_digits_prefix.
  rewrite <- (append_empty_r (JS.decimal n)) at 1.
  rewrite take_digits_all; [|apply decimal_digits | exact I].
  simpl. unfold JS.unsigned_literal. now rewrite digits_value_decimal.
Qed.

Lemma unsigned_literal_decimal (n : N) :
  JS.unsigned_literal (JS.decimal n) = JS.Num (Z.of_N n).
Proof. unfold JS.unsigned_literal. now rewrite digits_value_decimal. Qed.

Lemma trim_signed (sign : ascii) (n : N) :
  JS.is_space sign = false ->
  JS.trim (String sign (JS.decimal n)) = String sign (JS.decimal n).
Proof.
  intros Hs. unfold JS.trim. cbn [JS.trimStart]. rewrite Hs.
  cbn [JS.trimEnd]. rewrite Hs. cbn [andb].
  now rewrite trimEnd_digits by apply decimal_digits.
Qed.

Lemma String_of_number_neg (z : Z) :
  z < 0 ->
  JS.String_of_number (JS.Num z) = String "-" (JS.decimal (Z.to_N (- z))).
Proof.
  intros H. unfold JS.String_of_number.
  destruct (z <? 0) eqn:E; [reflexivity | apply Z.ltb_ge in E; lia].
Qed.

(** [Number] and [parseInt] read back what [String] prints. *)
Lemma Number_of_String (z : Z) :
  JS.Number (JS.String_of_number (JS.Num z)) = JS.Num z.
Proof.
  destruct (Z.lt_ge_cases z 0) as [H|H].
  - rewrite String_of_number_neg by exact H. unfold JS.Number.
    rewrite trim_signed by reflexivity.
    rewrite unsigned_literal_decimal. cbn [JS.neg]. f_equal. lia.
  - rewrite String_of_number_nonneg by exact H.
    rewrite Number_decimal. f_equal. lia.
Qed.

Lemma parseInt_of_String (z : Z) :
  JS.parseInt (JS.String_of_number (JS.Num z)) = JS.Num z.
Proof.
  destruct (Z.lt_ge_cases z 0) as [H|H].
  - rewrite String_of_number_neg by exact H. unfold JS.parseInt.
    cbn [JS.trimStart]. change (JS.is_space "-") with false. cbn iota.
    rewrite parse_digits_prefix_decimal. cbn [JS.neg]. f_equal. lia.
  - rewrite String_of_number_nonneg by exact H.
    rewrite parseInt_decimal. f_equal. lia.
Qed.

Lemma formatMod_nonneg (m : Z) :
  0 <= m -> formatMod (JS.Num m) = String "+" (JS.decimal (Z.to_N m)).
Proof.
  intros H. unfold formatMod. cbn [JS.ge].
  destruct (0 <=? m) eqn:E; [|apply Z.leb_gt in E; lia].
  now rewrite String_of_number_nonneg by exact H.
Qed.

Lemma formatMod_neg (m : Z) :
  m < 0 -> formatMod (JS.Num m) = String "-" (JS.decimal (Z.to_N (- m))).
Proof.
  intros H. unfold formatMod. cbn [JS.ge].
  destruct (0 <=? m) eqn:E; [apply Z.leb_le in E; lia|].
  now apply String_of_number_neg.
Qed.

(** X1.  The signed text [formatMod] prints for an integer modifier reads
    back as that modifier, with [parseInt] and with [Number]: the plus
    sign it adds to a non-negative modifier loses nothing.  (The modifier
    is an integer a double holds exactly, as the modifiers -3 to 3 are.) *)
Theorem formatMod_reads_back (m : Z) :
  - 2 ^ 53 <= m <= 2 ^ 53 ->
  JS.parseInt (formatMod (JS.Num m)) = JS.Num m /\
  JS.Number (formatMod (JS.Num m)) = JS.Num m.
Proof.
  intros _.
  destruct (Z.lt_ge_cases m 0) as [H|H].
  - rewrite formatMod_neg by exact H.
    rewrite <- String_of_number_neg by exact H.
    split; [apply parseInt_of_String | apply Number_of_String].
  - rewrite formatMod_nonneg by exact H. split.
    + unfold JS.parseInt. cbn [JS.trimStart].
      change (JS.is_space "+") with false. cbn iota.
      rewrite parse_digits_prefix_decimal. f_equal. lia.
    + unfold JS.Number. rewrite trim_signed by reflexivity.
      rewrite unsigned_literal_decimal. f_equal. lia.
Qed.

Lemma formatMod_reads_back_witness :
  formatMod (JS.Num 2) = "+2" /\ formatMod (JS.Num (-3)) = "-3" /\
  (JS.parseInt (formatMod (JS.Num 2)) = JS.Num 2 /\
   JS.Number (formatMod (JS.Num 2)) = JS.Num 2) /\
  (JS.parseInt (formatMod (JS.Num (-3))) = JS.Num (-3) /\
   JS.Number (formatMod (JS.Num (-3))) = JS.Num (-3)).
Proof.
  split; [reflexivity | split; [reflexivity | split]].
  - apply (formatMod_reads_back 2). lia.
  - apply (formatMod_reads_back (-3)). lia.
Defined.

Lemma score_cases (s : Z) :
  3 <= s <= 18 ->
  s = 3 \/ s = 4 \/ s = 5 \/ s = 6 \/ s = 7 \/ s = 8 \/ s = 9 \/ s = 10 \/
  s = 11 \/ s = 12 \/ s = 13 \/ s = 14 \/ s = 15 \/ s = 16 \/ s = 17 \/
  s = 18.
Proof. lia. Qed.

(** X2.  The view of an ability whose score lies between 3 and 18, shown
    with the modifier [getMod] gives it: the score and the signed modifier
    are both two characters wide, and the modifier is green from 13 up,
    red up to 8 and gray from 9 to 12. *)
Theorem stat_view_aligned_and_coloured (label : string) (s : Z) :
  3 <= s <= 18 ->
  let view := Stat label (JS.Num s) (getMod (JS.Num s)) in
  String.length (stat_value view) = 2%nat /\
  String.length (stat_mod view) = 2%nat /\
  (modColor view = "green" <-> 13 <= s) /\
  (modColor view = "red" <-> s <= 8) /\
  (modColor view = "gray" <-> 9 <= s <= 12).
Proof.
  intros H. apply score_cases in H.
  repeat destruct H as [->|H]; try subst s; cbv zeta;
    (split; [reflexivity|]); (split; [reflexivity|]);
    vm_compute; repeat split; intros; try reflexivity;
    try discriminate; try congruence;
    repeat match goal with
           | H0 : _ /\ _ |- _ => destruct H0
           | H0 : ?f = Gt -> False |- _ => exfalso; apply H0; reflexivity
           end; try congruence.
Qed.

Lemma stat_view_aligned_and_coloured_witness :
  3 <= 14 <= 18 /\
  stat_value (Stat "CON" (JS.Num 14) (getMod (JS.Num 14))) = "14" /\
  stat_mod (Stat "CON" (JS.Num 14) (getMod (JS.Num 14))) = "+1" /\
  (modColor (Stat "CON" (JS.Num 14) (getMod (JS.Num 14))) = "green"
   <-> 13 <= 14).
Proof.
  split; [lia|]. split; [reflexivity|]. split; [reflexivity|].
  apply (stat_view_aligned_and_coloured "CON" 14). lia.
Defined.

(** ** Dice: edge cases and composition *)

Lemma String_of_number_free_d (z : Z) :
  free_of "d" (JS.String_of_number (JS.Num z)) = true.
Proof.
  destruct (Z.lt_ge_cases z 0) as [H|H].
  - rewrite String_of_number_neg by exact H. cbn [free_of].
    rewrite digits_free_of; [reflexivity | reflexivity | apply decimal_digits].
  - rewrite String_of_number_nonneg by exact H.
    apply digits_free_of; [reflexivity | apply decimal_digits].
Qed.

(** The two parts of a dice text, for any two integers. *)
Lemma dice_text_numbers (count sides : Z) :
  map JS.Number (JS.split "d" (dice_text count sides))
  = [JS.Num count; JS.Num sides].
Proof.
  unfold dice_text. cbn [append].
  rewrite split_at by apply String_of_number_free_d.
  rewrite split_free by apply String_of_number_free_d.
  cbn [map]. now rewrite !Number_of_String.
Qed.

Lemma sum_dice_app (rnd : nat -> Q) (sides : Z) (a b : nat) :
  forall p : nat,
    sum_dice rnd sides p (a + b)
    = sum_dice rnd sides p a + sum_dice rnd sides (p + a) b.
Proof.
  induction a as [|k IH]; intros p; cbn [sum_dice Nat.add].
  - now rewrite Nat.add_0_r.
  - rewrite IH. replace (S p + k)%nat with (p + S k)%nat by lia. lia.
Qed.

Lemma roll_loop_NaN (rnd : nat -> Q) (n : nat) :
  forall (sum : JS.number) (p : nat),
    roll_loop rnd (S n) JS.NaN sum p = Ok (JS.NaN, (p + S n)%nat).
Proof.
  induction n as [|k IH]; intros sum p.
  - cbn [roll_loop]. unfold bind, Math_random, ret.
    cbn [JS.floor_mul JS.add]. destruct sum; do 2 f_equal; lia.
  - change (roll_loop rnd (S (S k)) JS.NaN sum p)
      with (bind (Math_random rnd)
              (fun u => roll_loop rnd (S k) JS.NaN
                 (JS.add sum (JS.add (JS.floor_mul u JS.NaN) (JS.Num 1)))) p).
    unfold bind, Math_random. rewrite IH. do 2 f_equal. lia.
Qed.

Lemma die_zero_sides (rnd : nat -> Q) (i : nat) : die rnd 0 i = 1.
Proof.
  unfold die, JS.nearest_double, Qmult, inject_Z. cbn [Qnum Qden].
  rewrite Z.mul_0_r. reflexivity.
Qed.

Lemma sum_dice_constant (rnd : nat -> Q) (sides : Z) (n : nat) :
  (forall i, die rnd sides i = 1) ->
  forall p : nat, sum_dice rnd sides p n = Z.of_nat n.
Proof.
  intros H. induction n as [|k IH]; intros p; cbn [sum_dice]; [reflexivity|].
  rewrite H, IH. lia.
Qed.







(** ** Occupation ranges: malformed cells *)



(** ** The table lookups *)

Lemma roll_one (rnd : nat -> Q) (dice : string) (sides : Z) (p : nat) :
  map JS.Number (JS.split "d" dice) = [JS.Num 1; JS.Num sides] ->
  roll rnd dice p = Ok (JS.Num (die rnd sides p), S p).
Proof.
  intros H. rewrite (roll_eval rnd dice 1 sides p H).
  change (Z.to_nat 1) with 1%nat. cbn [sum_dice].
  f_equal. f_equal; [f_equal; lia | lia].
Qed.

Lemma get_nth_error {A : Type} (l : list A) (z : Z) :
  0 <= z -> JS.get l (JS.Num z) = nth_error l (Z.to_nat z).
Proof.
  intros H. unfold JS.get.
  destruct (z <? 0) eqn:E; [apply Z.ltb_lt in E; lia | reflexivity].
Qed.

(** The row a d20 selects, when there is one, is among the first twenty. *)
Lemma d20_row_get (rnd : nat -> Q) (rows : list (list string))
    (row : list string) (p : nat) :
  unit_source rnd ->
  JS.get rows (JS.sub (JS.Num (die rnd 20 p)) (JS.Num 1)) = Some row ->
  d20_row rows row.
Proof.
  intros Hu H. pose proof (die_range rnd Hu 20 p ltac:(lia)) as B.
  cbn [JS.sub] in H. rewrite get_nth_error in H by lia.
  exists (Z.to_nat (die rnd 20 p - 1)). split; [lia | exact H].
Qed.

Lemma lower_char_idempotent (c : ascii) :
  JS.lower_char (JS.lower_char c) = JS.lower_char c.
Proof. destruct c as [[] [] [] [] [] [] [] []]; reflexivity. Qed.

Lemma toLowerCase_idempotent (s : string) :
  JS.toLowerCase (JS.toLowerCase s) = JS.toLowerCase s.
Proof.
  induction s as [|c r IH]; cbn [JS.toLowerCase]; [reflexivity|].
  now rewrite lower_char_idempotent, IH.
Qed.

Lemma toLowerCase_append (a b : string) :
  JS.toLowerCase (a ++ b) = JS.toLowerCase a ++ JS.toLowerCase b.
Proof.
  induction a as [|c r IH]; cbn [append JS.toLowerCase]; [reflexivity|].
  now rewrite IH.
Qed.

Section Lookups.

Variable rnd : nat -> Q.
Variable T : Tables.
Hypothesis rnd_unit : unit_source rnd.

Lemma lookCell_Ok (column : Z) (p q : nat) (cell : option string) :
  lookCell rnd T column p = Ok (cell, q) ->
  q = S p /\
  exists row, d20_row (lookRows T) row /\ cell = JS.get row (JS.Num column).
Proof.
  unfold lookCell.
  rewrite (bind_eval _ _ _ _ _ (roll_one rnd "1d20" 20 p eq_refl)).
  intros H. apply bind_Ok in H as (row & q1 & Hrow & H).
  apply defined_Ok in Hrow as [Hrow Hq]. cbn [fst snd] in *. subst q1.
  unfold ret in H. injection H as <- <-.
  split; [reflexivity|]. exists row. split; [|reflexivity].
  now apply (d20_row_get rnd _ _ p).
Qed.

Lemma lower_Ok (cell : option string) (p q : nat) (s : string) :
  lower cell p = Ok (s, q) ->
  q = p /\ exists text, cell = Some text /\ s = JS.toLowerCase text.
Proof.
  unfold lower. intros H. apply bind_Ok in H as (text & q1 & Ht & H).
  apply defined_Ok in Ht as [Ht Hq]. cbn [fst snd] in *. subst q1.
  unfold ret in H. injection H as <- <-. eauto.
Qed.

Lemma getLook_Ok (p q : nat) (l : string) :
  getLook rnd T p = Ok (l, q) ->
  q = (p + 5)%nat /\
  exists (r1 r2 r3 r4 r5 : list string) (face eyes hair body clothing : string),
    d20_row (lookRows T) r1 /\ nth_error r1 1 = Some face /\
    d20_row (lookRows T) r2 /\ nth_error r2 2 = Some eyes /\
    d20_row (lookRows T) r3 /\ nth_error r3 3 = Some hair /\
    d20_row (lookRows T) r4 /\ nth_error r4 4 = Some body /\
    d20_row (lookRows T) r5 /\ nth_error r5 5 = Some clothing /\
    l = JS.toLowerCase face ++ " face, " ++ JS.toLowerCase eyes ++ " eyes, "
        ++ JS.toLowerCase hair ++ " hair, " ++ JS.toLowerCase body
        ++ " body, " ++ JS.toLowerCase clothing ++ " clothing".
Proof.
  unfold getLook. intros H.
  apply bind_Ok in H as (c1 & q1 & H1 & H).
  apply bind_Ok in H as (c2 & q2 & H2 & H).
  apply bind_Ok in H as (c3 & q3 & H3 & H).
  apply bind_Ok in H as (c4 & q4 & H4 & H).
  apply bind_Ok in H as (c5 & q5 & H5 & H).
  apply lookCell_Ok in H1 as (-> & r1 & Hr1 & ->).
  apply lookCell_Ok in H2 as (-> & r2 & Hr2 & ->).
  apply lookCell_Ok in H3 as (-> & r3 & Hr3 & ->).
  apply lookCell_Ok in H4 as (-> & r4 & Hr4 & ->).
  apply lookCell_Ok in H5 as (-> & r5 & Hr5 & ->).
  apply bind_Ok in H as (s1 & q6 & L1 & H).
  apply bind_Ok in H as (s2 & q7 & L2 & H).
  apply bind_Ok in H as (s3 & q8 & L3 & H).
  apply bind_Ok in H as (s4 & q9 & L4 & H).
  apply bind_Ok in H as (s5 & q10 & L5 & H).
  apply lower_Ok in L1 as (-> & face & E1 & ->).
  apply lower_Ok in L2 as (-> & eyes & E2 & ->).
  apply lower_Ok in L3 as (-> & hair & E3 & ->).
  apply lower_Ok in L4 as (-> & body & E4 & ->).
  apply lower_Ok in L5 as (-> & clothing & E5 & ->).
  unfold ret in H. injection H as <- <-.
  rewrite get_nth_error in E1, E2, E3, E4, E5 by lia.
  split; [lia|].
  exists r1, r2, r3, r4, r5, face, eyes, hair, body, clothing.
  repeat split; assumption.
Qed.

End Lookups.

(** X7.  The look the generator composes costs exactly five samples, one
    d20 per feature; each feature is the cell of its own column (1 to 5)
    in one of the first twenty rows of the look table; and the sentence is
    in lower case throughout: lower-casing it again changes nothing. *)
Theorem getLook_five_cells_lower_case (rnd : nat -> Q) (T : Tables)
    (p q : nat) (l : string) :
  unit_source rnd ->
  getLook rnd T p = Ok (l, q) ->
  q = (p + 5)%nat /\
  JS.toLowerCase l = l /\
  exists (r1 r2 r3 r4 r5 : list string) (face eyes hair body clothing : string),
    d20_row (lookRows T) r1 /\ nth_error r1 1 = Some face /\
    d20_row (lookRows T) r2 /\ nth_error r2 2 = Some eyes /\
    d20_row (lookRows T) r3 /\ nth_error r3 3 = Some hair /\
    d20_row (lookRows T) r4 /\ nth_error r4 4 = Some body /\
    d20_row (lookRows T) r5 /\ nth_error r5 5 = Some clothing /\
    l = JS.toLowerCase face ++ " face, " ++ JS.toLowerCase eyes ++ " eyes, "
        ++ JS.toLowerCase hair ++ " hair, " ++ JS.toLowerCase body
        ++ " body, " ++ JS.toLowerCase clothing ++ " clothing".
Proof.
  intros Hu H. destruct (getLook_Ok rnd T Hu p q l H) as (Hq & Hparts).
  split; [exact Hq | split; [|exact Hparts]].
  destruct Hparts
    as (r1 & r2 & r3 & r4 & r5 & face & eyes & hair & body & clothing & Hl).
  do 10 destruct Hl as [_ Hl]. subst l.
  rewrite !toLowerCase_append, !toLowerCase_idempotent. reflexivity.
Qed.

Lemma getLook_five_cells_lower_case_witness :
  exists (l : string) (q : nat),
    getLook fixture_rnd fixture_tables 0%nat = Ok (l, q) /\
    l = "round face, grey eyes, curly hair, tall body, plain clothing" /\
    q = (0 + 5)%nat /\ JS.toLowerCase l = l.
Proof.
  destruct (getLook fixture_rnd fixture_tables 0%nat) as [[l q]|e] eqn:E;
    [|vm_compute in E; discriminate E].
  exists l, q. split; [reflexivity|].
  destruct (getLook_five_cells_lower_case fixture_rnd fixture_tables 0 q l
              fixture_rnd_unit E) as (Hq & Hlow & _).
  vm_compute in E. injection E as <- <-.
  split; [reflexivity | split; [exact Hq | exact Hlow]].
Defined.

(** What a name lookup that returns has read. *)
Lemma getName_Ok (rnd : nat -> Q) (T : Tables)
    (species : string) (p q : nat) (n : option string) :
  unit_source rnd ->
  getName rnd T species p = Ok (n, q) ->
  exists (row : list string) (k : nat),
    d20_row (nameRows T) row /\
    name_column species k /\
    n = nth_error row k /\
    (p + 1 <= q <= p + 3)%nat.
Proof.
  intros Hu. unfold getName, name_column.
  rewrite (bind_eval _ _ _ _ _ (roll_one rnd "1d20" 20 p eq_refl)).
  assert (Hcell : forall (k : Z) (p1 : nat),
            0 <= k ->
            (cells <- defined
               (JS.get (nameRows T)
                  (JS.sub (JS.Num (die rnd 20 p)) (JS.Num 1))) ;;
             ret (JS.get cells (JS.Num k))) p1 = Ok (n, q) ->
            q = p1 /\
            exists row, d20_row (nameRows T) row /\
                        n = nth_error row (Z.to_nat k)).
  { intros k p1 Hk H. apply bind_Ok in H as (row & q1 & Hrow & H).
    apply defined_Ok in Hrow as [Hrow Hq]. cbn [fst snd] in *. subst q1.
    unfold ret in H. injection H as <- <-. split; [reflexivity|].
    exists row. split; [now apply (d20_row_get rnd _ _ p)|].
    now apply get_nth_error. }
  destruct (String.eqb species "Elf").
  { intros H. apply (Hcell 4) in H as (-> & row & Hr & ->); [|lia].
    exists row, 4%nat. repeat split; try assumption; lia. }
  destruct (String.eqb species "Dwarf").
  { intros H. apply (Hcell 5) in H as (-> & row & Hr & ->); [|lia].
    exists row, 5%nat. repeat split; try assumption; lia. }
  destruct (String.eqb species "Halfling").
  { intros H. apply (Hcell 6) in H as (-> & row & Hr & ->); [|lia].
    exists row, 6%nat. repeat split; try assumption; lia. }
  rewrite (bind_eval _ _ _ _ _ (roll_one rnd "1d2" 2 (S p) eq_refl)).
  destruct (JS.strict_eq (JS.Num (die rnd 2 (S p))) (JS.Num 1)).
  - rewrite (bind_eval _ _ _ _ _ (roll_one rnd "1d2" 2 (S (S p)) eq_refl)).
    pose proof (die_range rnd Hu 2 (S (S p)) ltac:(lia)) as B.
    intros H. apply Hcell in H as (-> & row & Hr & ->); [|lia].
    exists row, (Z.to_nat (die rnd 2 (S (S p)))).
    repeat split; try assumption; lia.
  - intros H. apply (Hcell 3) in H as (-> & row & Hr & ->); [|lia].
    exists row, 3%nat. repeat split; try assumption; lia.
Qed.

(** X8.  The name of a villager is a cell of one of the first twenty rows
    of the name table, in a column fixed by the species: column 4 for an
    Elf, 5 for a Dwarf, 6 for a Halfling, and one of the columns 1 to 3
    for every other species text; one to three samples are read. *)
Theorem getName_column_by_species (rnd : nat -> Q) (T : Tables)
    (species : string) (p q : nat) (n : option string) :
  unit_source rnd ->
  getName rnd T species p = Ok (n, q) ->
  exists (row : list string) (k : nat),
    d20_row (nameRows T) row /\
    name_column species k /\
    n = nth_error row k /\
    (p + 1 <= q <= p + 3)%nat.
Proof. apply getName_Ok. Qed.

Lemma getName_column_by_species_witness :
  exists (n : option string) (q : nat),
    getName fixture_rnd fixture_tables "Dwarf" 0%nat = Ok (n, q) /\
    n = Some "Dor" /\
    exists (row : list string) (k : nat),
      d20_row (nameRows fixture_tables) row /\
      name_column "Dwarf" k /\
      n = nth_error row k /\
      (0 + 1 <= q <= 0 + 3)%nat.
Proof.
  destruct (getName fixture_rnd fixture_tables "Dwarf" 0%nat)
    as [[n q]|e] eqn:E; [|vm_compute in E; discriminate E].
  exists n, q. split; [reflexivity|].
  pose proof (getName_column_by_species fixture_rnd fixture_tables "Dwarf"
                0 q n fixture_rnd_unit E) as H.
  vm_compute in E. injection E as <- <-.
  split; [reflexivity | exact H].
Defined.

(** ** The bond sentence *)

Lemma find_first_here (before after : string) :
  free_of "." before = true ->
  JS.find_first "..." (before ++ "..." ++ after) = Some (before, after).
Proof.
  induction before as [|c r IH]; intros H.
  - destruct after; reflexivity.
  - cbn [free_of] in H. apply andb_prop in H as [Hc Hr].
    apply negb_true_iff in Hc. rewrite Ascii.eqb_sym in Hc.
    cbn [append JS.find_first JS.starts_with]. rewrite Hc. cbn [andb].
    cbn [append] in IH. now rewrite (IH Hr).
Qed.

Lemma find_first_none (s : string) :
  free_of "." s = true -> JS.find_first "..." s = None.
Proof.
  induction s as [|c r IH]; intros H; [reflexivity|].
  cbn [free_of] in H. apply andb_prop in H as [Hc Hr].
  apply negb_true_iff in Hc. rewrite Ascii.eqb_sym in Hc.
  cbn [JS.find_first JS.starts_with]. rewrite Hc. cbn [andb].
  now rewrite (IH Hr).
Qed.

(** A replacement text without dollar sign stands for itself. *)
Lemma substitution_plain (matched before after repl : string) :
  free_of "$" repl = true ->
  JS.substitution matched before after repl = repl.
Proof.
  induction repl as [|c r IH]; intros H; [reflexivity|].
  cbn [free_of] in H. apply andb_prop in H as [Hc Hr].
  apply negb_true_iff in Hc. specialize (IH Hr).
  cbn [JS.substitution]. rewrite Hc, IH. destruct r; reflexivity.
Qed.

(** X9.  The bond costs two samples.  Its template is the first cell of
    one of the first twenty rows of the bond table and its detail one of
    the cells 1 to 4 of that row.  Where the template holds the
    placeholder ["..."], its first occurrence is replaced by the detail
    (a detail without dollar sign is inserted as it is) and what follows
    is kept, later placeholders included; a template without any dot comes
    back unchanged and the detail is dropped. *)
Theorem getBond_fills_first_placeholder (rnd : nat -> Q) (T : Tables)
    (p q : nat) (b : string) :
  unit_source rnd ->
  getBond rnd T p = Ok (b, q) ->
  q = (p + 2)%nat /\
  exists (row : list string) (template detail : string) (k : nat),
    d20_row (bondRows T) row /\
    nth_error row 0 = Some template /\
    (1 <= k <= 4)%nat /\
    detail = JS.String_of_value (nth_error row k) /\
    (forall before after : string,
        template = before ++ "..." ++ after ->
        free_of "." before = true ->
        free_of "$" detail = true ->
        b = before ++ detail ++ after) /\
    (free_of "." template = true -> b = template).
Proof.
  intros Hu. unfold getBond.
  rewrite (bind_eval _ _ _ _ _ (roll_one rnd "1d20" 20 p eq_refl)).
  rewrite (bind_eval _ _ _ _ _ (roll_one rnd "1d4" 4 (S p) eq_refl)).
  intros H. apply bind_Ok in H as (row & q1 & Hrow & H).
  apply defined_Ok in Hrow as [Hrow Hq]. cbn [fst snd] in *. subst q1.
  apply bind_Ok in H as (template & q2 & Ht & H).
  apply defined_Ok in Ht as [Ht Hq]. cbn [fst snd] in *. subst q2.
  unfold ret in H. injection H as <- <-.
  pose proof (die_range rnd Hu 4 (S p) ltac:(lia)) as B.
  rewrite get_nth_error in Ht by lia.
  assert (Hlt : (die rnd 4 (S p) <? 0) = false) by (apply Z.ltb_ge; lia).
  rewrite Hlt.
  split; [lia|].
  exists row, template,
    (JS.String_of_value (nth_error row (Z.to_nat (die rnd 4 (S p))))),
    (Z.to_nat (die rnd 4 (S p))).
  split; [now apply (d20_row_get rnd _ _ p)|].
  split; [exact Ht|]. split; [lia|]. split; [reflexivity|]. split.
  - intros before after -> Hb Hd. unfold JS.replace.
    rewrite (find_first_here before after Hb).
    now rewrite substitution_plain by exact Hd.
  - intros Hfree. unfold JS.replace. now rewrite find_first_none.
Qed.

Lemma getBond_fills_first_placeholder_witness :
  exists (b : string) (q : nat),
    getBond fixture_rnd fixture_tables 0%nat = Ok (b, q) /\
    b = "They once saved my name from ruin" /\
    q = (0 + 2)%nat.
Proof.
  destruct (getBond fixture_rnd fixture_tables 0%nat) as [[b q]|e] eqn:E;
    [|vm_compute in E; discriminate E].
  exists b, q. split; [reflexivity|].
  destruct (getBond_fills_first_placeholder fixture_rnd fixture_tables 0 q b
              fixture_rnd_unit E) as (Hq & _).
  vm_compute in E. injection E as <- <-.
  split; [reflexivity | exact Hq].
Defined.

(** ** Species, heritage moves and colours *)

Lemma or_else_nonempty (v : option string) (fallback : string) :
  fallback <> "" -> JS.or_else v fallback <> "".
Proof.
  intros H. unfold JS.or_else.
  destruct v as [[|c r]|]; try exact H. discriminate.
Qed.

(** X10.  In every villager the generator returns, the species is a
    non-empty text; there is a heritage move exactly when the species is
    Dwarf, Elf or Halfling, which is exactly when the species colour of the
    card is not white; and the card lists the heritage move, if any, in
    that colour, followed by the Know Your Stuff move, which closes every
    card. *)
Theorem heritage_moves_and_colour (rnd : nat -> Q) (T : Tables) (p q : nat)
    (v : Villager) :
  generateVillager rnd T p = Ok (v, q) ->
  species v <> "" /\
  (heritageMoves v <> [] <->
   species v = "Dwarf" \/ species v = "Elf" \/ species v = "Halfling") /\
  (heritageMoves v = [] <-> speciesColor v = "white") /\
  exists moves : list MoveLine,
    card_moves (VillagerCard v) = (moves ++ [KnowYourStuff])%list /\
    (List.length moves <= 1)%nat /\
    Forall (fun m => exists text,
                m = HeritageMove (speciesColor v) (species v) text /\
                speciesColor v <> "white") moves.
Proof.
  intros H.
  apply generateVillager_Ok in H
    as (d100 & occ & n & l & b & q1 & q2 & q3 & q4 & _ & Ho & _ & _ & _ & ->).
  apply getOccupation_Ok in Ho as (row & template & _ & _ & _ & _ & Hs).
  assert (Hne : occ_species occ <> "")
    by (rewrite Hs; apply or_else_nonempty; discriminate).
  unfold villager_of, speciesColor, VillagerCard.
  cbn [species heritageMoves card_moves].
  split; [exact Hne|].
  remember (occ_species occ) as s eqn:Es. clear Es Hs Hne.
  unfold getHeritageMoves.
  destruct (String.eqb_spec s "Dwarf") as [E|HD].
  { subst s. cbn.
    split; [split; [intros _; now left | discriminate]|].
    split; [split; discriminate|].
    eexists [_]. split; [reflexivity|]. split; [simpl; lia|].
    constructor; [|constructor].
    eexists. split; [reflexivity | discriminate]. }
  destruct (String.eqb_spec s "Elf") as [E|HE].
  { subst s. cbn.
    split; [split; [intros _; right; now left | discriminate]|].
    split; [split; discriminate|].
    eexists [_]. split; [reflexivity|]. split; [simpl; lia|].
    constructor; [|constructor].
    eexists. split; [reflexivity | discriminate]. }
  destruct (String.eqb_spec s "Halfling") as [E|HH].
  { subst s. cbn.
    split; [split; [intros _; right; now right | discriminate]|].
    split; [split; discriminate|].
    eexists [_]. split; [reflexivity|]. split; [simpl; lia|].
    constructor; [|constructor].
    eexists. split; [reflexivity | discriminate]. }
  cbn.
  split; [split; [intros H; now contradiction H
                 | intros [E|[E|E]]; congruence]|].
  split; [split; reflexivity|].
  exists []. split; [reflexivity|]. split; [simpl; lia | constructor].
Qed.

Lemma heritage_moves_and_colour_witness :
  exists (v : Villager) (q : nat),
    generateVillager fixture_rnd fixture_tables 5%nat = Ok (v, q) /\
    species v = "Elf" /\ speciesColor v = "cyan" /\
    List.length (card_moves (VillagerCard v)) = 2%nat /\
    (heritageMoves v = [] <-> speciesColor v = "white").
Proof.
  destruct (generateVillager fixture_rnd fixture_tables 5%nat)
    as [[v q]|e] eqn:E; [|vm_compute in E; discriminate E].
  exists v, q. split; [reflexivity|].
  destruct (heritage_moves_and_colour fixture_rnd fixture_tables 5 q v E)
    as (_ & _ & H & _).
  vm_compute in E. injection E as <- <-.
  split; [reflexivity | split; [reflexivity | split; [reflexivity|exact H]]].
Defined.

(** ** The occupation lookup *)

Lemma find_row_skip (r : JS.number) (pre rows : list (list string))
    (p : nat) :
  (forall x, In x pre -> x <> [] /\ covers r x = false) ->
  find_row r (pre ++ rows) p = find_row r rows p.
Proof.
  induction pre as [|x pre IH]; intros H; [reflexivity|].
  destruct (H x (or_introl eq_refl)) as [Hne Hc].
  destruct x as [|range cells]; [congruence|].
  cbn [app find_row]. unfold bind. rewrite in_range_eval.
  change (JS.ge r (fst (parseRange range)) && JS.le r (snd (parseRange range)))
    with (covers r (range :: cells)).
  rewrite Hc. apply IH. intros y Hy. apply H. now right.
Qed.

(** X11.  Where ranges overlap, the earlier row wins: on rows whose
    ranges are written in decimal numerals, the row search for a d100 roll
    returns the first row whose range holds the roll, whatever rows follow
    it, and reads no sample. *)
Theorem find_row_first_match (r : Z)
    (pre post : list (list string)) (row : list string) (p : nat) :
  1 <= r <= 100 ->
  forallb decimal_range_row (pre ++ [row]) = true ->
  (forall x, In x pre -> covers (JS.Num r) x = false) ->
  covers (JS.Num r) row = true ->
  find_row (JS.Num r) (pre ++ row :: post) p = Ok (Some row, p).
Proof.
  intros _ Hdec Hpre Hrow.
  rewrite forallb_app in Hdec. apply andb_prop in Hdec as [Hdec _].
  rewrite (find_row_skip (JS.Num r) pre _ p).
  - destruct row as [|range cells]; [discriminate Hrow|].
    cbn [find_row]. unfold bind. rewrite in_range_eval.
    change (JS.ge (JS.Num r) (fst (parseRange range))
            && JS.le (JS.Num r) (snd (parseRange range)))
      with (covers (JS.Num r) (range :: cells)).
    now rewrite Hrow.
  - intros x Hx. split; [|now apply Hpre].
    rewrite forallb_forall in Hdec. specialize (Hdec x Hx).
    destruct x; [discriminate Hdec | discriminate].
Qed.

Lemma find_row_first_match_witness :
  covers (JS.Num 45) ["41-60"; "Minstrel"] = true /\
  find_row (JS.Num 45)
    ([["1-40"; "Farmer"]] ++ ["41-60"; "Minstrel"] :: [["30-99"; "Miller"]])
    3%nat
  = Ok (Some ["41-60"; "Minstrel"], 3%nat).
Proof.
  split; [vm_compute; reflexivity|].
  apply find_row_first_match.
  - lia.
  - vm_compute; reflexivity.
  - intros x [<-|[]]. vm_compute; reflexivity.
  - vm_compute; reflexivity.
Defined.

Lemma find_row_none (r : JS.number) (rows : list (list string)) (p : nat) :
  (forall x, In x rows -> x <> [] /\ covers r x = false) ->
  find_row r rows p = Ok (None, p).
Proof.
  intros H. rewrite <- (app_nil_r rows).
  now rewrite (find_row_skip r rows [] p H).
Qed.

(** X12.  A gap in the occupation ranges makes generation fail on the
    rolls that fall into it: with ranges written in decimal numerals, when
    no row of the occupation table covers the d100 rolled from sample
    [p + 21], the generator throws a TypeError; in particular it always
    throws on an occupation table without rows. *)
Theorem uncovered_roll_throws (rnd : nat -> Q) (T : Tables) (p : nat) :
  unit_source rnd ->
  ranges_parse T = true ->
  (forall row, In row (occupationRows T) ->
     covers (JS.Num (die rnd 100 (p + 21))) row = false) ->
  generateVillager rnd T p = Throw TypeError.
Proof.
  intros _ Hdec H. rewrite generateVillager_unfold. unfold lookups.
  rewrite (bind_eval _ _ _ _ _ (roll_one rnd "1d100" 100 (p + 21) eq_refl)).
  unfold bind at 1. unfold getOccupation, bind.
  rewrite find_row_none; [reflexivity|].
  intros x Hx. split; [|now apply H].
  unfold ranges_parse in Hdec. rewrite forallb_forall in Hdec.
  specialize (Hdec x Hx). destruct x; [discriminate Hdec | discriminate].
Qed.

Lemma uncovered_roll_throws_witness :
  die fixture_rnd 100 (0 + 21) = 38 /\
  generateVillager fixture_rnd gap_tables 0%nat = Throw TypeError.
Proof.
  split; [vm_compute; reflexivity|].
  apply uncovered_roll_throws.
  - exact fixture_rnd_unit.
  - vm_compute; reflexivity.
  - intros row [<-|[]]. vm_compute; reflexivity.
Defined.

(** ** Derived numbers of a villager *)

Lemma sum_dice_ext (rnd1 rnd2 : nat -> Q) (sides : Z) (n : nat) :
  forall p : nat,
    (forall i, (p <= i < p + n)%nat -> rnd1 i = rnd2 i) ->
    sum_dice rnd1 sides p n = sum_dice rnd2 sides p n.
Proof.
  induction n as [|k IH]; intros p H; cbn [sum_dice]; [reflexivity|].
  unfold die. rewrite (H p) by lia.
  rewrite (IH (S p)); [reflexivity|]. intros i Hi. apply H. lia.
Qed.

(** X13.  Hit points and load of a generated villager lie between 7 and
    22, and each of the seven modifiers between -3 and 3. *)
Theorem villager_derived_bounds (rnd : nat -> Q) (T : Tables) (p q : nat)
    (v : Villager) :
  unit_source rnd ->
  generateVillager rnd T p = Ok (v, q) ->
  (exists h l : Z,
      hp v = JS.Num h /\ load v = JS.Num l /\ 7 <= h <= 22 /\ 7 <= l <= 22) /\
  Forall modifier_ok
    [ STR (modifiers v); DEX (modifiers v); CON (modifiers v);
      INT (modifiers v); WIS (modifiers v); CHA (modifiers v);
      LUC (modifiers v) ].
Proof.
  intros Hu H.
  apply generateVillager_Ok in H
    as (d100 & occ & n & l & b & q1 & q2 & q3 & q4 & _ & _ & _ & _ & _ & ->).
  unfold villager_of, rolled_modifiers.
  cbn [hp load modifiers STR DEX CON INT WIS CHA LUC].
  split.
  - exists (score rnd p 2 + 4), (score rnd p 0 + 4).
    pose proof (score_range rnd Hu p 2). pose proof (score_range rnd Hu p 0).
    repeat split; lia.
  - repeat constructor; apply getMod_integer.
Qed.

Lemma villager_derived_bounds_witness :
  exists (v : Villager) (q : nat),
    generateVillager fixture_rnd fixture_tables 0%nat = Ok (v, q) /\
    (exists h l : Z,
        hp v = JS.Num h /\ load v = JS.Num l /\
        7 <= h <= 22 /\ 7 <= l <= 22).
Proof.
  destruct (generateVillager fixture_rnd fixture_tables 0%nat)
    as [[v q]|e] eqn:E; [|vm_compute in E; discriminate E].
  exists v, q. split; [reflexivity|].
  apply (villager_derived_bounds fixture_rnd fixture_tables 0 q v
           fixture_rnd_unit E).
Defined.

(** X14.  The abilities of a villager depend on nothing but the 21 samples
    the generator reads first: two runs whose sources agree on the samples
    [p] to [p + 20] return the same scores, modifiers, hit points and load,
    whatever the tables and whatever the sources hold elsewhere. *)
Theorem abilities_from_first_samples (rnd1 rnd2 : nat -> Q) (T1 T2 : Tables)
    (p q1 q2 : nat) (v1 v2 : Villager) :
  (forall i, (p <= i < p + 21)%nat -> rnd1 i = rnd2 i) ->
  generateVillager rnd1 T1 p = Ok (v1, q1) ->
  generateVillager rnd2 T2 p = Ok (v2, q2) ->
  stats v1 = stats v2 /\ modifiers v1 = modifiers v2 /\
  hp v1 = hp v2 /\ load v1 = load v2.
Proof.
  intros Hagree H1 H2.
  apply generateVillager_Ok in H1
    as (? & ? & ? & ? & ? & ? & ? & ? & ? & _ & _ & _ & _ & _ & ->).
  apply generateVillager_Ok in H2
    as (? & ? & ? & ? & ? & ? & ? & ? & ? & _ & _ & _ & _ & _ & ->).
  assert (Hs : forall k, (k < 7)%nat -> score rnd1 p k = score rnd2 p k).
  { intros k Hk. unfold score. apply sum_dice_ext.
    intros i Hi. apply Hagree. lia. }
  unfold villager_of, rolled_stats, rolled_modifiers.
  cbn [stats modifiers hp load].
  rewrite !(Hs 0%nat), !(Hs 1%nat), !(Hs 2%nat), !(Hs 3%nat), !(Hs 4%nat),
    !(Hs 5%nat), !(Hs 6%nat) by lia.
  repeat split.
Qed.

Lemma abilities_from_first_samples_witness :
  exists (v1 v2 : Villager) (q1 q2 : nat),
    generateVillager fixture_rnd fixture_tables 0%nat = Ok (v1, q1) /\
    generateVillager
      (fun i => if (i <? 21)%nat then fixture_rnd i else 0%Q)
      fixture_tables 0%nat = Ok (v2, q2) /\
    name v1 <> name v2 /\
    stats v1 = stats v2 /\ modifiers v1 = modifiers v2 /\
    hp v1 = hp v2 /\ load v1 = load v2.
Proof.
  destruct (generateVillager fixture_rnd fixture_tables 0%nat)
    as [[v1 q1]|e] eqn:E1; [|vm_compute in E1; discriminate E1].
  destruct (generateVillager
              (fun i => if (i <? 21)%nat then fixture_rnd i else 0%Q)
              fixture_tables 0%nat)
    as [[v2 q2]|e] eqn:E2; [|vm_compute in E2; discriminate E2].
  exists v1, v2, q1, q2. split; [reflexivity | split; [reflexivity|]].
  assert (H : forall i, (0 <= i < 0 + 21)%nat ->
                fixture_rnd i
                = (fun i => if (i <? 21)%nat then fixture_rnd i else 0%Q) i).
  { intros i Hi. cbv beta.
    destruct (i <? 21)%nat eqn:L; [reflexivity|].
    apply Nat.ltb_ge in L. lia. }
  pose proof (abilities_from_first_samples _ _ _ _ 0%nat q1 q2 v1 v2
                H E1 E2) as Hsame.
  vm_compute in E1. injection E1 as <- <-.
  vm_compute in E2. injection E2 as <- <-.
  split; [discriminate | exact Hsame].
Defined.

(** ** Gear items *)

Lemma trimEnd_idempotent (s : string) :
  JS.trimEnd (JS.trimEnd s) = JS.trimEnd s.
Proof.
  induction s as [|c r IH]; [reflexivity|].
  cbn [JS.trimEnd].
  destruct (JS.is_space c && JS.is_empty (JS.trimEnd r)) eqn:E;
    [reflexivity|].
  cbn [JS.trimEnd]. now rewrite IH, E.
Qed.

Lemma trimStart_head (s : string) :
  JS.trimStart s = "" \/
  exists c r, JS.trimStart s = String c r /\ JS.is_space c = false.
Proof.
  induction s as [|c r IH]; [now left|].
  cbn [JS.trimStart]. destruct (JS.is_space c) eqn:E; [exact IH|].
  right. now exists c, r.
Qed.

Lemma trim_idempotent (s : string) : JS.trim (JS.trim s) = JS.trim s.
Proof.
  unfold JS.trim.
  destruct (trimStart_head s) as [->|(c & r & -> & Hc)]; [reflexivity|].
  cbn [JS.trimEnd]. rewrite Hc. cbn [andb JS.trimStart]. rewrite Hc.
  cbn [JS.trimEnd]. rewrite Hc. cbn [andb].
  now rewrite trimEnd_idempotent.
Qed.

Lemma parseGear_loop_trimmed (s : string) :
  forall (items : list string) (current : string) (depth : Z),
    Forall (fun item => JS.trim item = item) items ->
    Forall (fun item => JS.trim item = item)
           (parseGear_loop s items current depth).
Proof.
  induction s as [|c r IH]; intros items current depth H;
    cbn [parseGear_loop].
  - destruct (JS.is_empty (JS.trim current)); [exact H|].
    apply Forall_app. split; [exact H|].
    constructor; [apply trim_idempotent | constructor].
  - destruct (_ && _).
    + apply IH. apply Forall_app. split; [exact H|].
      constructor; [apply trim_idempotent | constructor].
    + now apply IH.
Qed.

Lemma parseGear_loop_length (s : string) :
  forall (items : list string) (current : string) (depth : Z),
    (List.length (parseGear_loop s items current depth)
     <= List.length items + S (count_char "," s))%nat.
Proof.
  induction s as [|c r IH]; intros items current depth;
    cbn [parseGear_loop count_char].
  - destruct (JS.is_empty (JS.trim current));
      [|rewrite length_app; simpl]; lia.
  - destruct (Ascii.eqb c ",") eqn:E; cbn [andb].
    + destruct (_ =? 0).
      * specialize (IH (items ++ [JS.trim current])%list "" (if Ascii.eqb c ")"
           then (if Ascii.eqb c "(" then depth + 1 else depth) - 1
           else if Ascii.eqb c "(" then depth + 1 else depth)).
        rewrite length_app in IH. simpl in IH. lia.
      * specialize (IH items (current ++ String c "") (if Ascii.eqb c ")"
           then (if Ascii.eqb c "(" then depth + 1 else depth) - 1
           else if Ascii.eqb c "(" then depth + 1 else depth)).
        lia.
    + specialize (IH items (current ++ String c "") (if Ascii.eqb c ")"
           then (if Ascii.eqb c "(" then depth + 1 else depth) - 1
           else if Ascii.eqb c "(" then depth + 1 else depth)).
      lia.
Qed.

(** X15.  Every item [parseGear] returns is trimmed (no white space at
    either end), and there is at most one item more than the text has
    commas. *)
Theorem parseGear_items_trimmed_and_counted (gearStr : string) :
  Forall (fun item => JS.trim item = item) (parseGear gearStr) /\
  (List.length (parseGear gearStr) <= S (count_char "," gearStr))%nat.
Proof.
  split.
  - apply parseGear_loop_trimmed. constructor.
  - apply (parseGear_loop_length gearStr [] "" 0).
Qed.

Lemma trimmed_pieces_cons (part : string) (parts : list string) :
  parts <> [] ->
  trimmed_pieces (part :: parts) = JS.trim part :: trimmed_pieces parts.
Proof. destruct parts; [congruence | reflexivity]. Qed.

Lemma parseGear_loop_flat (s : string) :
  forall (items : list string) (current : string),
    free_of "(" s = true -> free_of ")" s = true ->
    parseGear_loop s items current 0
    = (items ++ trimmed_pieces (prepend current (JS.split "," s)))%list.
Proof.
  induction s as [|c r IH]; intros items current Ho Hc.
  - cbn [parseGear_loop JS.split prepend trimmed_pieces].
    rewrite append_empty_r.
    destruct (JS.is_empty (JS.trim current));
      [now rewrite app_nil_r | reflexivity].
  - cbn [free_of] in Ho, Hc.
    apply andb_prop in Ho as [Ho Hor]. apply andb_prop in Hc as [Hc Hcr].
    apply negb_true_iff in Ho, Hc.
    cbn [parseGear_loop JS.split]. rewrite Ho, Hc. cbn [Z.eqb].
    destruct (Ascii.eqb c ",") eqn:E; cbn [andb].
    + rewrite (IH _ _ Hor Hcr). cbn [prepend]. rewrite append_empty_r.
      pose proof (split_nonempty "," r) as Hne.
      rewrite (trimmed_pieces_cons current _ Hne).
      destruct (JS.split "," r) as [|h t]; [congruence|].
      cbn [prepend append]. now rewrite <- app_assoc.
    + rewrite (IH _ _ Hor Hcr).
      pose proof (split_nonempty "," r) as Hne.
      destruct (JS.split "," r) as [|h t]; [congruence|].
      cbn [prepend]. rewrite append_assoc. reflexivity.
Qed.

(** X16.  On a text without parentheses [parseGear] is the split at the
    commas followed by trimming, except that a blank last piece is
    dropped: an empty piece between two commas stays as an empty item,
    a trailing comma adds none, and a blank text has no item. *)
Theorem parseGear_without_parentheses (gearStr : string) :
  free_of "(" gearStr = true ->
  free_of ")" gearStr = true ->
  parseGear gearStr = trimmed_pieces (JS.split "," gearStr).
Proof.
  intros Ho Hc. unfold parseGear.
  rewrite (parseGear_loop_flat gearStr [] "" Ho Hc). cbn [app].
  pose proof (split_nonempty "," gearStr) as Hne.
  destruct (JS.split "," gearStr); [congruence | reflexivity].
Qed.

Lemma parseGear_without_parentheses_witness :
  free_of "(" "rope, ,lamp , " = true /\
  free_of ")" "rope, ,lamp , " = true /\
  parseGear "rope, ,lamp , " = trimmed_pieces (JS.split "," "rope, ,lamp , ") /\
  trimmed_pieces (JS.split "," "rope, ,lamp , ") = ["rope"; ""; "lamp"].
Proof.
  split; [reflexivity | split; [reflexivity | split; [|reflexivity]]].
  apply parseGear_without_parentheses; reflexivity.
Defined.

(** ** Loading a table *)

Lemma join_split (sep : ascii) (s : string) : join sep (JS.split sep s) = s.
Proof.
  induction s as [|c r IH]; [reflexivity|].
  cbn [JS.split]. pose proof (split_nonempty sep r) as Hne.
  destruct (Ascii.eqb_spec c sep) as [->|Hc].
  - destruct (JS.split sep r) as [|h t]; [congruence|].
    cbn [join append]. cbn [join] in IH. now rewrite IH.
  - destruct (JS.split sep r) as [|h t]; [congruence|].
    destruct t as [|h2 t].
    + cbn [join] in *. now rewrite IH.
    + cbn [join append] in *. now rewrite IH.
Qed.

Lemma split_parts_free (sep : ascii) (s : string) :
  Forall (fun part => free_of sep part = true) (JS.split sep s).
Proof.
  induction s as [|c r IH]; cbn [JS.split].
  - constructor; [reflexivity | constructor].
  - destruct (Ascii.eqb c sep) eqn:E.
    + constructor; [reflexivity | exact IH].
    + destruct (JS.split sep r) as [|h t];
        [constructor; [cbn [free_of]; now rewrite E | constructor]|].
      inversion IH as [|? ? Hh Ht]; subst.
      constructor; [cbn [free_of]; now rewrite E, Hh | exact Ht].
Qed.

Lemma split_parts_keep_free (sep c : ascii) (s : string) :
  free_of c s = true ->
  Forall (fun part => free_of c part = true) (JS.split sep s).
Proof.
  induction s as [|x r IH]; cbn [JS.split free_of]; intros H.
  - constructor; [reflexivity | constructor].
  - apply andb_prop in H as [Hx Hr]. specialize (IH Hr).
    destruct (Ascii.eqb x sep).
    + constructor; [reflexivity | exact IH].
    + destruct (JS.split sep r) as [|h t];
        [constructor; [cbn [free_of]; now rewrite Hx | constructor]|].
      inversion IH as [|? ? Hh Ht]; subst.
      constructor; [cbn [free_of]; now rewrite Hx, Hh | exact Ht].
Qed.

Lemma split_length (sep : ascii) (s : string) :
  List.length (JS.split sep s) = S (count_char sep s).
Proof.
  induction s as [|c r IH]; [reflexivity|].
  cbn [JS.split count_char]. destruct (Ascii.eqb c sep).
  - cbn [List.length]. now rewrite IH.
  - destruct (JS.split sep r) as [|h t]; [discriminate IH|].
    cbn [List.length] in *. lia.
Qed.

Lemma map_join_split (rows : list string) :
  map (join "009") (map (JS.split "009") rows) = rows.
Proof.
  induction rows as [|row rows IH]; [reflexivity|].
  cbn [map]. now rewrite join_split, IH.
Qed.

(** X17.  What [readTsv] returns for any file text: one row per line of
    the trimmed text, never less than one; every row has a first cell; no
    cell holds a tab or a line feed; and putting the cells together again
    with tabs and the rows with line feeds gives back the trimmed text, so
    nothing but the surrounding white space is lost in loading. *)
Theorem readTsv_rows_and_round_trip (content : string) :
  List.length (readTsv content) = S (count_char "010" (JS.trim content)) /\
  Forall (fun row => row <> []) (readTsv content) /\
  Forall (Forall (fun cell => free_of "009" cell = true
                              /\ free_of "010" cell = true))
         (readTsv content) /\
  join_rows (readTsv content) = JS.trim content.
Proof.
  unfold readTsv, join_rows.
  split; [now rewrite length_map, split_length|].
  split; [apply readTsv_rows_nonempty|].
  split.
  - apply Forall_forall. intros row Hin.
    apply in_map_iff in Hin as (line & <- & Hline).
    pose proof (split_parts_free "010" (JS.trim content)) as Hfree.
    rewrite Forall_forall in Hfree. specialize (Hfree line Hline).
    pose proof (split_parts_free "009" line) as H1.
    pose proof (split_parts_keep_free "009" "010" line Hfree) as H2.
    rewrite Forall_forall in H1, H2 |- *.
    intros cell Hcell. split; [now apply H1 | now apply H2].
  - now rewrite map_join_split, join_split.
Qed.

(** X18.  The header line is dropped and nothing else: the data rows are
    one fewer than the rows read, so a file holding only its header line,
    or nothing at all, loads as a table without rows, on which any row
    lookup finds [undefined]. *)
Theorem data_rows_drop_header (content : string) :
  List.length (data_rows content) = count_char "010" (JS.trim content) /\
  (forall header : list string,
      hd_error (readTsv content) = Some header ->
      readTsv content = header :: data_rows content) /\
  (free_of "010" (JS.trim content) = true ->
   data_rows content = [] /\
   forall i : JS.number, JS.get (data_rows content) i = None).
Proof.
  unfold data_rows.
  assert (Hlen : List.length (readTsv content)
                 = S (count_char "010" (JS.trim content)))
    by (unfold readTsv; now rewrite length_map, split_length).
  split; [|split].
  - destruct (readTsv content); [discriminate Hlen|].
    cbn [tl List.length] in *. lia.
  - intros header H. destruct (readTsv content); [discriminate H|].
    cbn [hd_error tl] in *. congruence.
  - intros Hfree.
    assert (E : tl (readTsv content) = []).
    { unfold readTsv. rewrite split_free by exact Hfree. reflexivity. }
    rewrite E. split; [reflexivity|].
    intros [z|]; cbn [JS.get]; [|reflexivity].
    destruct (z <? 0); [reflexivity|]. now destruct (Z.to_nat z).
Qed.

Lemma data_rows_drop_header_witness :
  free_of "010" (JS.trim header_only) = true /\
  data_rows header_only = [] /\
  JS.get (data_rows header_only) (JS.Num 0) = None.
Proof.
  split; [reflexivity|].
  destruct (data_rows_drop_header header_only) as (_ & _ & H).
  destruct (H eq_refl) as [E Hget]. split; [exact E | apply Hget].
Defined.

(** ** The count argument *)

Lemma decimal_head (n : N) :
  exists c r, JS.decimal n = String c r /\ JS.is_digit c = true.
Proof.
  pose proof (decimal_nonempty n) as Hne.
  pose proof (decimal_digits n) as Hd.
  destruct (JS.decimal n) as [|c r]; [discriminate Hne|].
  cbn [all_digits] in Hd. apply andb_prop in Hd as [Hc _]. eauto.
Qed.

(** [parseInt] reads the digits a text starts with and ignores the rest. *)
Lemma parseInt_prefix (n : N) (rest : string) :
  match rest with
  | String c _ => JS.is_digit c = false
  | EmptyString => True
  end ->
  JS.parseInt (JS.decimal n ++ rest) = JS.Num (Z.of_N n).
Proof.
  intros Hrest.
  assert (E : JS.parseInt (JS.decimal n ++ rest)
              = JS.parse_digits_prefix (JS.decimal n ++ rest)).
  { destruct (decimal_head n) as (c & r & -> & Hc).
    unfold JS.parseInt. cbn [append JS.trimStart].
    rewrite (digit_not_space c Hc).
    destruct (digit_cases c Hc) as [E|[E|[E|[E|[E|[E|[E|[E|[E|E]]]]]]]]];
      subst c; reflexivity. }
  rewrite E. unfold JS.parse_digits_prefix.
  rewrite take_digits_all; [|apply decimal_digits | exact Hrest].
  apply unsigned_literal_decimal.
Qed.

Lemma or_else_decimal (n : N) (rest : string) :
  JS.or_else (Some (JS.decimal n ++ rest)) "1" = JS.decimal n ++ rest.
Proof.
  destruct (decimal_head n) as (c & r & -> & _). reflexivity.
Qed.

(** X19.  The count is the run of digits the argument starts with: text
    after it that does not start with a digit changes nothing, so ["3x"],
    ["3.7"] and ["3 villagers"] all run the program as ["3"] does. *)
Theorem main_reads_leading_digits (rnd : nat -> Q) (T : Tables) (n : N)
    (rest : string) (p : nat) :
  match rest with
  | String c _ => JS.is_digit c = false
  | EmptyString => True
  end ->
  main rnd T (Some (JS.decimal n ++ rest)) p
  = main rnd T (Some (JS.decimal n)) p.
Proof.
  intros Hrest. unfold main.
  rewrite or_else_decimal, (parseInt_prefix n rest Hrest).
  assert (E : JS.or_else (Some (JS.decimal n)) "1" = JS.decimal n)
    by (destruct (decimal_head n) as (c & r & -> & _); reflexivity).
  now rewrite E, parseInt_decimal.
Qed.

Lemma main_reads_leading_digits_witness :
  JS.is_digit "." = false /\
  main fixture_rnd fixture_tables (Some "2.7") 0%nat
  = main fixture_rnd fixture_tables (Some "2") 0%nat.
Proof.
  split; [reflexivity|].
  apply (main_reads_leading_digits fixture_rnd fixture_tables 2 ".7" 0).
  reflexivity.
Defined.

(** X20.  Counts out of range.  A count of 2^32 or more is refused with a
    RangeError before any villager is generated, whatever the tables; a
    negative count generates no villager and reads no sample. *)
Theorem main_count_out_of_range (rnd : nat -> Q) (T : Tables) (p : nat) :
  (forall n : Z,
      2 ^ 32 <= n ->
      main rnd T (Some (JS.String_of_number (JS.Num n))) p
      = Throw RangeError) /\
  (forall n : Z,
      n < 0 ->
      main rnd T (Some (JS.String_of_number (JS.Num n))) p
      = Ok (([], []), p)).
Proof.
  split.
  - intros n Hn. now apply main_too_many.
  - intros n Hn. unfold main, Array_from.
    assert (E : JS.or_else (Some (JS.String_of_number (JS.Num n))) "1"
                = JS.String_of_number (JS.Num n))
      by now rewrite String_of_number_neg by exact Hn.
    rewrite E, parseInt_of_String. cbn [ToLength].
    replace (Z.min (Z.max n 0) (2 ^ 53 - 1)) with 0 by lia.
    reflexivity.
Qed.

Lemma main_count_out_of_range_witness :
  2 ^ 32 <= 4294967296 /\ -2 < 0 /\
  main fixture_rnd short_row_tables (Some "4294967296") 0%nat
  = Throw RangeError /\
  main fixture_rnd short_row_tables (Some "-2") 0%nat = Ok (([], []), 0%nat).
Proof.
  destruct (main_count_out_of_range fixture_rnd short_row_tables 0)
    as [Hbig Hneg].
  split; [lia | split; [lia | split]].
  - apply (Hbig 4294967296). lia.
  - apply (Hneg (-2)). lia.
Defined.

Lemma repeatM_length {A : Type} (f : M A) (n : nat) :
  forall (p q : nat) (l : list A),
    repeatM n f p = Ok (l, q) -> List.length l = n.
Proof.
  induction n as [|k IH]; intros p q l H; cbn [repeatM] in H.
  - unfold ret in H. now injection H as <- <-.
  - apply bind_Ok in H as (x & q0 & Hx & H).
    apply bind_Ok in H as (tail & q2 & Ht & H).
    unfold ret in H. injection H as <- <-.
    cbn [List.length]. f_equal. eapply IH. exact Ht.
Qed.

Lemma repeatM_app {A : Type} (f : M A) (a b : nat) :
  forall (p q : nat) (l : list A),
    repeatM (a + b) f p = Ok (l, q) ->
    exists (l1 l2 : list A) (q1 : nat),
      repeatM a f p = Ok (l1, q1) /\
      repeatM b f q1 = Ok (l2, q) /\
      l = (l1 ++ l2)%list.
Proof.
  induction a as [|k IH]; intros p q l H.
  - exists [], l, p. cbn [repeatM]. unfold ret. now repeat split.
  - cbn [Nat.add repeatM] in H.
    apply bind_Ok in H as (x & q0 & Hx & H).
    apply bind_Ok in H as (tail & q2 & Ht & H).
    unfold ret in H. injection H as <- <-.
    destruct (IH _ _ _ Ht) as (l1 & l2 & q1 & H1 & H2 & ->).
    exists (x :: l1), l2, q1. cbn [repeatM]. unfold bind.
    rewrite Hx, H1. unfold ret. now repeat split.
Qed.

(** X21.  Asking for more villagers does not change the first ones: a run
    for [n + m] villagers returns the [n] villagers of the run for [n]
    from the same position, followed by [m] villagers generated from where
    that run stopped; the cards follow the villagers one for one. *)
Theorem main_first_villagers_stable (rnd : nat -> Q) (T : Tables)
    (n m : Z) (p q : nat) (villagers : list Villager) (cards : list Card) :
  0 <= n -> 0 <= m -> n + m < 2 ^ 32 ->
  main rnd T (Some (JS.String_of_number (JS.Num (n + m)))) p
  = Ok ((villagers, cards), q) ->
  exists (first more : list Villager) (q1 : nat),
    main rnd T (Some (JS.String_of_number (JS.Num n))) p
    = Ok ((first, App first), q1) /\
    repeatM (Z.to_nat m) (generateVillager rnd T) q1 = Ok (more, q) /\
    villagers = (first ++ more)%list /\
    cards = (App first ++ App more)%list /\
    Z.of_nat (List.length first) = n.
Proof.
  intros Hn Hm Hnm H.
  assert (Harg : forall k : Z, 0 <= k ->
            JS.parseInt
              (JS.or_else (Some (JS.String_of_number (JS.Num k))) "1")
            = JS.Num k).
  { intros k Hk. rewrite String_of_number_nonneg by exact Hk.
    rewrite <- (append_empty_r (JS.decimal (Z.to_N k))).
    rewrite or_else_decimal, (parseInt_prefix _ "" I). f_equal. lia. }
  rewrite (main_eval rnd T _ (n + m) p (Harg (n + m) ltac:(lia))
             ltac:(lia)) in H.
  apply bind_Ok in H as (vs & q0 & Hvs & H).
  unfold ret in H. injection H as <- <- <-.
  rewrite Z2Nat.inj_add in Hvs by assumption.
  destruct (repeatM_app _ _ _ _ _ _ Hvs) as (l1 & l2 & q1 & H1 & H2 & ->).
  exists l1, l2, q1.
  rewrite (main_eval rnd T _ n p (Harg n Hn) ltac:(lia)).
  unfold bind. rewrite H1. unfold ret.
  split; [reflexivity|]. split; [exact H2|]. split; [reflexivity|].
  split; [unfold App; apply map_app|].
  rewrite (repeatM_length _ _ _ _ _ H1). lia.
Qed.

Lemma main_first_villagers_stable_witness :
  exists (villagers first more : list Villager) (cards : list Card)
         (q q1 : nat),
    main fixture_rnd fixture_tables (Some "3") 0%nat
    = Ok ((villagers, cards), q) /\
    main fixture_rnd fixture_tables (Some "2") 0%nat
    = Ok ((first, App first), q1) /\
    villagers = (first ++ more)%list /\
    List.length more = 1%nat.
Proof.
  destruct (main fixture_rnd fixture_tables (Some "3") 0%nat)
    as [[[vs cards] q]|e] eqn:E; [|vm_compute in E; discriminate E].
  destruct (main_first_villagers_stable fixture_rnd fixture_tables 2 1 0 q
              vs cards ltac:(lia) ltac:(lia) ltac:(lia) E)
    as (first & more & q1 & H1 & H2 & Hv & _ & _).
  exists vs, first, more, cards, q, q1.
  split; [reflexivity | split; [exact H1 | split; [exact Hv|]]].
  exact (repeatM_length _ _ _ _ _ H2).
Defined.

(** ** The card of a generated villager *)

Lemma stat_widths (label : string) (s : Z) :
  3 <= s <= 18 ->
  String.length (stat_value (Stat label (JS.Num s) (getMod (JS.Num s))))
  = 2%nat /\
  String.length (stat_mod (Stat label (JS.Num s) (getMod (JS.Num s))))
  = 2%nat.
Proof.
  intros H. apply score_cases in H.
  repeat destruct H as [->|H]; try subst s; split; reflexivity.
Qed.

(** X22.  The card of a generated villager shows the seven abilities in
    the order STR, DEX, CON, INT, WIS, CHA, LUC, each score and each signed
    modifier exactly two characters wide, so the columns line up; its gear
    items are trimmed. *)
Theorem card_of_generated_villager (rnd : nat -> Q) (T : Tables) (p q : nat)
    (v : Villager) :
  unit_source rnd ->
  generateVillager rnd T p = Ok (v, q) ->
  map stat_name (card_stats (VillagerCard v))
  = ["STR"; "DEX"; "CON"; "INT"; "WIS"; "CHA"; "LUC"] /\
  Forall (fun view => String.length (stat_value view) = 2%nat /\
                      String.length (stat_mod view) = 2%nat)
         (card_stats (VillagerCard v)) /\
  Forall (fun item => JS.trim item = item) (gearItems (VillagerCard v)).
Proof.
  intros Hu H.
  apply generateVillager_Ok in H
    as (d100 & occ & n & l & b & q1 & q2 & q3 & q4 & _ & _ & _ & _ & _ & ->).
  unfold VillagerCard, villager_of, rolled_stats, rolled_modifiers.
  cbn [card_stats gearItems stats modifiers gear
       STR DEX CON INT WIS CHA LUC map flat_map].
  split; [reflexivity|]. split.
  - repeat constructor; apply stat_widths; apply (score_range rnd Hu).
  - rewrite app_nil_r. apply parseGear_loop_trimmed. constructor.
Qed.

Lemma card_of_generated_villager_witness :
  exists (v : Villager) (q : nat),
    generateVillager fixture_rnd fixture_tables 0%nat = Ok (v, q) /\
    map stat_value (card_stats (VillagerCard v))
    = [" 7"; "13"; "12"; " 6"; "11"; "11"; "11"] /\
    map stat_mod (card_stats (VillagerCard v))
    = ["-1"; "+1"; "+0"; "-1"; "+0"; "+0"; "+0"] /\
    Forall (fun view => String.length (stat_value view) = 2%nat /\
                        String.length (stat_mod view) = 2%nat)
           (card_stats (VillagerCard v)).
Proof.
  destruct (generateVillager fixture_rnd fixture_tables 0%nat)
    as [[v q]|e] eqn:E; [|vm_compute in E; discriminate E].
  exists v, q. split; [reflexivity|].
  destruct (card_of_generated_villager fixture_rnd fixture_tables 0 q v
              fixture_rnd_unit E) as (_ & H & _).
  vm_compute in E. injection E as <- <-.
  split; [reflexivity | split; [reflexivity | exact H]].
Defined.

(** ** The samples a template reads *)

Section ResolverCosts.

Variable rnd : nat -> Q.
Hypothesis rnd_unit : unit_source rnd.

Lemma pick_eval (a : list string) (dice : string) (sides : Z) (p : nat) :
  map JS.Number (JS.split "d" dice) = [JS.Num 1; JS.Num sides] ->
  pick rnd a dice p
  = Ok (JS.String_of_value (JS.get a (JS.Num (die rnd sides p - 1))), S p).
Proof.
  intros H. unfold pick.
  now rewrite (bind_eval _ _ _ _ _ (roll_one rnd dice sides p H)).
Qed.

Lemma pick_cost (a : list string) (dice : string) (p : nat) :
  map JS.Number (JS.split "d" dice)
  = [JS.Num 1; JS.Num (Z.of_nat (List.length a))] ->
  a <> [] ->
  exists out, pick rnd a dice p = Ok (out, (p + 1)%nat) /\ In out a.
Proof.
  intros Hd Ha. rewrite (pick_eval a dice _ p Hd).
  assert (Hlen : 1 <= Z.of_nat (List.length a))
    by (destruct a; [congruence | simpl; lia]).
  pose proof (die_range rnd rnd_unit _ p Hlen) as B.
  destruct (get_Some a (die rnd (Z.of_nat (List.length a)) p - 1))
    as (out & E & Hin); [lia|].
  exists out. rewrite E, Nat.add_1_r. now split.
Qed.

Lemma poultry_eval (p : nat) :
  poultry rnd p = Ok (poultry_text rnd p, (p + 5)%nat).
Proof.
  unfold poultry.
  rewrite (bind_eval _ _ _ _ _ (roll_one rnd "1d6" 6 p eq_refl)).
  rewrite (bind_eval _ _ _ _ _ (roll_one rnd "1d6" 6 (S p) eq_refl)).
  rewrite (bind_eval _ _ _ _ _ (roll_one rnd "1d4" 4 (S (S p)) eq_refl)).
  rewrite (bind_eval _ _ _ _ _
             (roll_one rnd "1d4" 4 (S (S (S p))) eq_refl)).
  rewrite (pick_eval _ "1d4" 4 _ eq_refl).
  unfold poultry_text.
  replace (p + 1)%nat with (S p) by lia.
  replace (p + 2)%nat with (S (S p)) by lia.
  replace (p + 3)%nat with (S (S (S p))) by lia.
  replace (p + 4)%nat with (S (S (S (S p)))) by lia.
  replace (p + 5)%nat with (S (S (S (S (S p))))) by lia.
  pose proof (die_range rnd rnd_unit 4 (S (S (S (S p)))) ltac:(lia)) as B.
  assert (Hb : die rnd 4 (S (S (S (S p)))) = 1 \/
               die rnd 4 (S (S (S (S p)))) = 2 \/
               die rnd 4 (S (S (S (S p)))) = 3 \/
               die rnd 4 (S (S (S (S p)))) = 4) by lia.
  destruct Hb as [-> | [-> | [-> | ->]]]; reflexivity.
Qed.

Lemma dice_resolver_cost (count sides : string) (p : nat) :
  integer_text count = true -> integer_text sides = true ->
  exists out,
    (r <- roll rnd (count ++ "d" ++ sides) ;;
     ret (JS.String_of_number r)) p
    = Ok (out, (p + token_cost (TDice count sides))%nat) /\
    token_out (TDice count sides) out.
Proof.
  intros Hc Hs.
  destruct (Number_integer_text count Hc) as (c & Ec).
  destruct (Number_integer_text sides Hs) as (s & Es).
  assert (Hparts : map JS.Number (JS.split "d" (count ++ "d" ++ sides))
                   = [JS.Num (Z.of_N c); JS.Num (Z.of_N s)]).
  { apply integer_text_shape in Hc as (Hc & _).
    apply integer_text_shape in Hs as (Hs & _).
    cbn [append]. rewrite split_at by now apply digits_free_of.
    rewrite split_free by now apply digits_free_of.
    cbn [map]. now rewrite Ec, Es. }
  eexists. unfold bind.
  rewrite (roll_eval rnd _ _ _ p Hparts). unfold ret.
  cbn [token_cost token_out]. rewrite Ec. cbn [iterations].
  split; [reflexivity|].
  rewrite String_of_number_nonneg
    by (apply (sum_dice_nonneg rnd rnd_unit); lia).
  apply decimal_integer_text.
Qed.

Lemma compound_resolver_cost (p : nat) :
  exists out,
    (r <- roll rnd "1d4" ;;
     ret (JS.String_of_number (JS.add (JS.Num 2) (JS.mul r (JS.Num 2))))) p
    = Ok (out, (p + 1)%nat) /\
    token_out TCompound out.
Proof.
  eexists. rewrite (bind_eval _ _ _ _ _ (roll_one rnd "1d4" 4 p eq_refl)).
  unfold ret. rewrite Nat.add_1_r. split; [reflexivity|].
  pose proof (die_range rnd rnd_unit 4 p ltac:(lia)) as B.
  cbn [token_out JS.mul JS.add].
  assert (Hv : die rnd 4 p = 1 \/ die rnd 4 p = 2 \/ die rnd 4 p = 3 \/
               die rnd 4 p = 4) by lia.
  destruct Hv as [-> | [-> | [-> | ->]]]; simpl; tauto.
Qed.

End ResolverCosts.

(** X23.  The poultry token reads five samples whichever bird it shows:
    a d6 for chickens, a d6 for ducks, a d4 for geese and a d4 for swans
    are all rolled, in this order, and a fifth sample, a d4, picks the
    bird; the count shown is the one rolled for that bird. *)
Theorem poultry_reads_five_samples (rnd : nat -> Q) (p : nat) :
  unit_source rnd ->
  poultry rnd p = Ok (poultry_text rnd p, (p + 5)%nat) /\
  1 <= die rnd 4 (p + 4) <= 4 /\
  1 <= die rnd 6 p <= 6 /\ 1 <= die rnd 6 (p + 1) <= 6 /\
  1 <= die rnd 4 (p + 2) <= 4 /\ 1 <= die rnd 4 (p + 3) <= 4.
Proof.
  intros Hu. split; [now apply poultry_eval|].
  repeat split; apply (die_range rnd Hu); lia.
Qed.

Lemma poultry_reads_five_samples_witness :
  poultry fixture_rnd 0%nat = Ok ("3 swans", 5%nat) /\
  die fixture_rnd 4 (0 + 4) = 4 /\ die fixture_rnd 4 (0 + 3) = 3.
Proof.
  destruct (poultry_reads_five_samples fixture_rnd 0 fixture_rnd_unit)
    as (H & _).
  split; [rewrite H; vm_compute; reflexivity|].
  split; vm_compute; reflexivity.
Defined.

Lemma stage_cost_cons (stage : nat) (x : piece) (pieces : list piece) :
  stage_cost stage (x :: pieces)
  = ((match x with
      | Tok t => if (pass_of t =? stage)%nat then token_cost t else 0
      | Lit _ => 0
      end) + stage_cost stage pieces)%nat.
Proof. reflexivity. Qed.

Section PassCost.

Context {C : Type}.
Variable matcher : string -> option (C * nat).
Variable callback : C -> M string.
Variable stage : nat.

Hypothesis matcher_brace :
  forall (c : ascii) (s : string),
    c <> "{"%char -> matcher (String c s) = None.

Hypothesis hit :
  forall (t : token) (rest : string) (p : nat),
    token_ok t = true -> pass_of t = stage ->
    exists captures out,
      matcher (token_text t ++ rest)
      = Some (captures, String.length (token_text t)) /\
      callback captures p = Ok (out, (p + token_cost t)%nat) /\
      token_out t out.

Hypothesis miss :
  forall (t : token) (rest : string),
    token_ok t = true -> (stage < pass_of t)%nat ->
    matcher (token_text t ++ rest) = None.

(** One pass reads the samples of the tokens of its stage, and no
    other. *)
Lemma pass_items_cost (items : list (piece * string)) :
  Forall (item_staged stage) items ->
  forall p : nat,
  exists items' : list (piece * string),
    replace_all matcher callback 0 (concat_text (map snd items)) p
    = Ok (concat_text (map snd items'),
          (p + stage_cost stage (map fst items))%nat) /\
    map fst items' = map fst items /\
    Forall (item_staged (S stage)) items'.
Proof.
  induction 1 as [|[x cur] items Hx Hitems IH]; intros p.
  - exists []. cbn. rewrite Nat.add_0_r. repeat split; constructor.
  - cbn [map snd fst concat_text fold_right]. rewrite stage_cost_cons.
    change (fold_right append "" (map snd items))
      with (concat_text (map snd items)).
    unfold item_staged in Hx. cbn [fst snd] in Hx.
    destruct x as [s|t].
    + destruct Hx as [-> Hs].
      destruct (IH p) as (items' & E & Hfst & Hok).
      exists ((Lit s, s) :: items'). repeat split.
      * cbn [Nat.add]. now apply replace_all_copy.
      * cbn [map fst]. now rewrite Hfst.
      * constructor; [now split | exact Hok].
    + destruct Hx as [Ht [[-> Hstage]|[Hout Hdone]]].
      * destruct (Nat.eqb_spec (pass_of t) stage) as [Heq|Hne].
        -- destruct (hit t (concat_text (map snd items)) p Ht Heq)
             as (captures & out & Hm & Hc & Hout).
           destruct (IH (p + token_cost t)%nat)
             as (items' & E & Hfst & Hok).
           exists ((Tok t, out) :: items'). repeat split.
           ++ rewrite Nat.add_assoc. eapply replace_all_hit; try eassumption.
              destruct (token_text_shape t Ht) as (body & -> & _).
              discriminate.
           ++ cbn [map fst]. now rewrite Hfst.
           ++ constructor; [|exact Hok].
              split; [exact Ht | right; split; [exact Hout | lia]].
        -- destruct (IH p) as (items' & E & Hfst & Hok).
           exists ((Tok t, token_text t) :: items'). repeat split.
           ++ destruct (token_text_shape t Ht) as (body & Hb & Hfree).
              pose proof (miss t (concat_text (map snd items)) Ht
                            ltac:(lia)) as Hm.
              rewrite Hb in Hm |- *. cbn [Nat.add].
              now apply replace_all_miss.
           ++ cbn [map fst]. now rewrite Hfst.
           ++ constructor; [|exact Hok].
              split; [exact Ht | left; split; [reflexivity | lia]].
      * destruct (IH p) as (items' & E & Hfst & Hok).
        exists ((Tok t, cur) :: items'). repeat split.
        -- destruct (Nat.eqb_spec (pass_of t) stage) as [Heq|Hne]; [lia|].
           cbn [Nat.add].
           apply replace_all_copy; [exact matcher_brace | | exact E].
           now apply (token_out_free t).
        -- cbn [map fst]. now rewrite Hfst.
        -- constructor; [|exact Hok].
           split; [exact Ht | right; split; [exact Hout | lia]].
Qed.

End PassCost.

Lemma stage_costs_sum (pieces : list piece) :
  (stage_cost 0 pieces + stage_cost 1 pieces + stage_cost 2 pieces
   + stage_cost 3 pieces + stage_cost 4 pieces + stage_cost 5 pieces)%nat
  = template_cost pieces.
Proof.
  induction pieces as [|x pieces IH]; [reflexivity|].
  rewrite !stage_cost_cons.
  change (template_cost (x :: pieces))
    with (piece_cost x + template_cost pieces)%nat.
  rewrite <- IH.
  destruct x as [s|t]; [cbn [piece_cost]; lia|].
  destruct t; cbn [pass_of Nat.eqb piece_cost]; lia.
Qed.

Section TemplateCost.

Variable rnd : nat -> Q.
Hypothesis rnd_unit : unit_source rnd.

Ltac literal_hit_cost resolver :=
  let t := fresh "t" in
  let p0 := fresh "p0" in
  intros t ? p0 ? ?; destruct t; try discriminate;
  destruct (resolver p0) as (out & Hout & Hin);
  exists tt, out; split; [apply match_text_hit | split; assumption].

Ltac literal_miss_cost :=
  let t := fresh "t" in
  intros t ? ? ?; destruct t; cbn [pass_of] in *; try lia; reflexivity.

Lemma expandGearTemplate_items_cost (items : list (piece * string))
    (p : nat) :
  Forall (item_staged 0) items ->
  exists out : string,
    expandGearTemplate rnd (concat_text (map snd items)) p
    = Ok (out, (p + template_cost (map fst items))%nat).
Proof.
  intros H0. rewrite <- stage_costs_sum.
  destruct (pass_items_cost match_dice
              (fun '(count, sides) =>
                 r <- roll rnd (count ++ "d" ++ sides) ;;
                 ret (JS.String_of_number r))
              0 match_dice_brace) with (items := items) (p := p)
    as (items1 & E1 & F1 & H1); [| |exact H0|].
  { intros t rest p0 Ht Hp. destruct t as [count sides| | | | |];
      try discriminate Hp.
    cbn [token_ok] in Ht. apply andb_prop in Ht as [Hc Hs].
    destruct (dice_resolver_cost rnd rnd_unit count sides p0 Hc Hs)
      as (out & Hout & Hin).
    exists (count, sides), out.
    split; [now apply match_dice_hit | split; assumption]. }
  { intros t rest Ht Hp. destruct t; cbn [pass_of] in Hp; try lia;
      reflexivity. }
  destruct (pass_items_cost (match_text "{2+1d4*2}")
              (fun _ =>
                 r <- roll rnd "1d4" ;;
                 ret (JS.String_of_number
                        (JS.add (JS.Num 2) (JS.mul r (JS.Num 2)))))
              1 (match_text_brace _)) with (items := items1)
    (p := (p + stage_cost 0 (map fst items))%nat)
    as (items2 & E2 & F2 & H2); [| |exact H1|].
  { literal_hit_cost (compound_resolver_cost rnd rnd_unit). }
  { literal_miss_cost. }
  destruct (pass_items_cost (match_text "{crop}")
              (fun _ => pick rnd CROPS "1d10")
              2 (match_text_brace _)) with (items := items2)
    (p := (p + stage_cost 0 (map fst items)
           + stage_cost 1 (map fst items1))%nat)
    as (items3 & E3 & F3 & H3); [| |exact H2|].
  { literal_hit_cost
      (fun p0 => pick_cost rnd rnd_unit CROPS "1d10" p0 eq_refl
                   ltac:(discriminate)). }
  { literal_miss_cost. }
  destruct (pass_items_cost (match_text "{instrument}")
              (fun _ => pick rnd INSTRUMENTS "1d8")
              3 (match_text_brace _)) with (items := items3)
    (p := (p + stage_cost 0 (map fst items)
           + stage_cost 1 (map fst items1)
           + stage_cost 2 (map fst items2))%nat)
    as (items4 & E4 & F4 & H4); [| |exact H3|].
  { literal_hit_cost
      (fun p0 => pick_cost rnd rnd_unit INSTRUMENTS "1d8" p0 eq_refl
                   ltac:(discriminate)). }
  { literal_miss_cost. }
  destruct (pass_items_cost (match_text "{animal_trainer_gear}")
              (fun _ => pick rnd ANIMAL_TRAINER_GEAR "1d4")
              4 (match_text_brace _)) with (items := items4)
    (p := (p + stage_cost 0 (map fst items)
           + stage_cost 1 (map fst items1)
           + stage_cost 2 (map fst items2)
           + stage_cost 3 (map fst items3))%nat)
    as (items5 & E5 & F5 & H5); [| |exact H4|].
  { literal_hit_cost
      (fun p0 => pick_cost rnd rnd_unit ANIMAL_TRAINER_GEAR "1d4" p0 eq_refl
                   ltac:(discriminate)). }
  { literal_miss_cost. }
  destruct (pass_items_cost (match_text "{poultry}")
              (fun _ => poultry rnd)
              5 (match_text_brace _)) with (items := items5)
    (p := (p + stage_cost 0 (map fst items)
           + stage_cost 1 (map fst items1)
           + stage_cost 2 (map fst items2)
           + stage_cost 3 (map fst items3)
           + stage_cost 4 (map fst items4))%nat)
    as (items6 & E6 & F6 & H6); [| |exact H5|].
  { intros t ? p0 ? ?; destruct t; try discriminate.
    exists tt, (poultry_text rnd p0).
    split; [apply match_text_hit|].
    split; [apply (poultry_eval rnd rnd_unit)|].
    destruct (returns_poultry_resolver rnd rnd_unit p0)
      as (out & q & Ep & Hout).
    rewrite (poultry_eval rnd rnd_unit) in Ep. now injection Ep as -> _. }
  { literal_miss_cost. }
  exists (concat_text (map snd items6)).
  unfold expandGearTemplate.
  rewrite (bind_eval _ _ _ _ _ E1), (bind_eval _ _ _ _ _ E2),
    (bind_eval _ _ _ _ _ E3), (bind_eval _ _ _ _ _ E4),
    (bind_eval _ _ _ _ _ E5), E6.
  rewrite F5, F4, F3, F2, F1. do 2 f_equal. lia.
Qed.

Lemma initial_items_staged (pieces : list piece) :
  forallb piece_ok pieces = true ->
  Forall (item_staged 0) (map (fun x => (x, piece_text x)) pieces).
Proof.
  intros H. rewrite forallb_forall in H. apply Forall_forall.
  intros it Hin. apply in_map_iff in Hin as (x & <- & Hx).
  specialize (H x Hx). unfold item_staged. cbn [fst snd].
  destruct x as [s|t]; cbn [piece_ok piece_text] in *.
  - now split.
  - split; [exact H | left; split; [reflexivity | lia]].
Qed.

End TemplateCost.



(** ** When the occupation lookup returns, and what a villager costs *)



Lemma getName_position (rnd : nat -> Q) (T : Tables) (species : string)
    (p q : nat) (n : option string) :
  getName rnd T species p = Ok (n, q) -> (p + 1 <= q <= p + 3)%nat.
Proof.
  unfold getName.
  rewrite (bind_eval _ _ _ _ _ (roll_one rnd "1d20" 20 p eq_refl)).
  assert (Hcell : forall (k : JS.number) (p1 : nat),
            (cells <- defined
               (JS.get (nameRows T)
                  (JS.sub (JS.Num (die rnd 20 p)) (JS.Num 1))) ;;
             ret (JS.get cells k)) p1 = Ok (n, q) ->
            q = p1).
  { intros k p1 H. apply bind_Ok in H as (row & q1 & Hrow & H).
    apply defined_Ok in Hrow as [_ Hq]. cbn [snd] in Hq. subst q1.
    unfold ret in H. now injection H as _ <-. }
  destruct (String.eqb species "Elf");
    [intros H; apply Hcell in H; lia|].
  destruct (String.eqb species "Dwarf");
    [intros H; apply Hcell in H; lia|].
  destruct (String.eqb species "Halfling");
    [intros H; apply Hcell in H; lia|].
  rewrite (bind_eval _ _ _ _ _ (roll_one rnd "1d2" 2 (S p) eq_refl)).
  destruct (JS.strict_eq (JS.Num (die rnd 2 (S p))) (JS.Num 1)).
  - rewrite (bind_eval _ _ _ _ _ (roll_one rnd "1d2" 2 (S (S p)) eq_refl)).
    intros H. apply Hcell in H. lia.
  - intros H. apply Hcell in H. lia.
Qed.

Lemma getBond_position (rnd : nat -> Q) (T : Tables) (p q : nat)
    (b : string) :
  getBond rnd T p = Ok (b, q) -> q = (p + 2)%nat.
Proof.
  unfold getBond.
  rewrite (bind_eval _ _ _ _ _ (roll_one rnd "1d20" 20 p eq_refl)).
  rewrite (bind_eval _ _ _ _ _ (roll_one rnd "1d4" 4 (S p) eq_refl)).
  intros H. apply bind_Ok in H as (row & q1 & Hrow & H).
  apply defined_Ok in Hrow as [_ Hq]. cbn [snd] in Hq. subst q1.
  apply bind_Ok in H as (template & q2 & Ht & H).
  apply defined_Ok in Ht as [_ Hq]. cbn [snd] in Hq. subst q2.
  unfold ret in H. injection H as _ <-. lia.
Qed.


(** ** Template expansion, piece by piece *)

Lemma Forall2_compose {A : Type} (R S U : A -> A -> Prop) :
  (forall x y z, R x y -> S y z -> U x z) ->
  forall l1 l2 l3,
    Forall2 R l1 l2 -> Forall2 S l2 l3 -> Forall2 U l1 l3.
Proof.
  intros H l1 l2 l3 H12. revert l3.
  induction H12 as [|x y l1 l2 Hxy _ IH]; intros l3 H23;
    inversion H23; subst; constructor; eauto.
Qed.

Lemma render_cons (x : piece) (pieces : list piece) :
  render (x :: pieces) = piece_text x ++ render pieces.
Proof. reflexivity. Qed.

Section PassResolve.

Context {C : Type}.
Variable rnd : nat -> Q.
Variable matcher : string -> option (C * nat).
Variable callback : C -> M string.
Variable stage : nat.

Hypothesis matcher_brace :
  forall (c : ascii) (s : string),
    c <> "{"%char -> matcher (String c s) = None.

Hypothesis hit :
  forall (t : token) (rest : string) (p : nat),
    token_ok t = true -> pass_of t = stage ->
    exists captures out,
      matcher (token_text t ++ rest)
      = Some (captures, String.length (token_text t)) /\
      callback captures p = resolver rnd t p /\
      resolver rnd t p = Ok (out, (p + token_cost t)%nat) /\
      token_out t out.

Hypothesis miss :
  forall (t : token) (rest : string),
    token_ok t = true -> (stage < pass_of t)%nat ->
    matcher (token_text t ++ rest) = None.

(** One pass of the scan over the text of a flat template does what
    [resolve_stage] does over its pieces. *)
Lemma pass_resolve (pieces : list piece) :
  Forall (piece_staged stage) pieces ->
  forall p : nat,
    replace_all matcher callback 0 (render pieces) p
    = Ok (render (fst (resolve_stage rnd stage pieces p)),
          snd (resolve_stage rnd stage pieces p)) /\
    snd (resolve_stage rnd stage pieces p)
    = (p + stage_cost stage pieces)%nat /\
    Forall (piece_staged (S stage)) (fst (resolve_stage rnd stage pieces p)) /\
    Forall2 (piece_step stage) pieces
      (fst (resolve_stage rnd stage pieces p)).
Proof.
  induction 1 as [|x pieces Hx Hrest IH]; intros p.
  - cbn. rewrite Nat.add_0_r. repeat split; constructor.
  - rewrite render_cons, stage_cost_cons.
    destruct x as [s|t]; cbn [piece_staged] in Hx.
    + cbn [resolve_stage piece_text].
      destruct (IH p) as (E & Hq & Hst & Hstep).
      destruct (resolve_stage rnd stage pieces p) as [l q].
      cbn [fst snd] in *. rewrite render_cons. cbn [piece_text].
      split; [now apply replace_all_copy|].
      split; [exact Hq|].
      split; [constructor; [exact Hx | exact Hst]|].
      constructor; [reflexivity | exact Hstep].
    + destruct Hx as [Ht Hstage]. cbn [resolve_stage piece_text].
      destruct (Nat.eqb_spec (pass_of t) stage) as [Heq|Hne].
      * destruct (hit t (render pieces) p Ht Heq)
          as (captures & out & Hm & Hc & Hr & Hout).
        rewrite Hr. rewrite Hr in Hc.
        destruct (IH (p + token_cost t)%nat) as (E & Hq & Hst & Hstep).
        destruct (resolve_stage rnd stage pieces (p + token_cost t)%nat)
          as [l q].
        cbn [fst snd] in *. rewrite render_cons. cbn [piece_text].
        split.
        { eapply replace_all_hit; try eassumption.
          destruct (token_text_shape t Ht) as (body & -> & _).
          discriminate. }
        split; [lia|].
        split.
        { constructor; [|exact Hst]. cbn [piece_staged].
          now apply (token_out_free t). }
        constructor; [|exact Hstep]. cbn [piece_step].
        rewrite Heq, Nat.eqb_refl. now exists out.
      * destruct (IH p) as (E & Hq & Hst & Hstep).
        destruct (resolve_stage rnd stage pieces p) as [l q].
        cbn [fst snd] in *. rewrite render_cons. cbn [piece_text].
        split.
        { destruct (token_text_shape t Ht) as (body & Hb & Hfree).
          pose proof (miss t (render pieces) Ht ltac:(lia)) as Hm.
          rewrite Hb in Hm |- *.
          now apply replace_all_miss. }
        split; [exact Hq|].
        split.
        { constructor; [|exact Hst]. cbn [piece_staged].
          split; [exact Ht | lia]. }
        constructor; [|exact Hstep]. cbn [piece_step].
        destruct (Nat.eqb_spec (pass_of t) stage); [contradiction|].
        reflexivity.
Qed.

End PassResolve.

Lemma piece_progress_step (stage : nat) (x y z : piece) :
  piece_progress stage x y -> piece_step stage y z ->
  piece_progress (S stage) x z.
Proof.
  destruct x as [s|t]; cbn [piece_progress].
  - intros -> H. exact H.
  - destruct (Nat.ltb_spec (pass_of t) stage) as [Hlt|Hge].
    + intros (out & -> & Hout) ->.
      destruct (Nat.ltb_spec (pass_of t) (S stage)); [|lia].
      now exists out.
    + intros ->. cbn [piece_step].
      destruct (Nat.eqb_spec (pass_of t) stage) as [Heq|Hne].
      * intros H. destruct (Nat.ltb_spec (pass_of t) (S stage)); [|lia].
        exact H.
      * intros ->. destruct (Nat.ltb_spec (pass_of t) (S stage)); [lia|].
        reflexivity.
Qed.

Lemma piece_progress_start (pieces : list piece) :
  Forall2 (piece_progress 0) pieces pieces.
Proof.
  induction pieces as [|x pieces IH]; constructor; [|exact IH].
  destruct x; reflexivity.
Qed.

Lemma piece_progress_end (l1 l2 : list piece) :
  Forall2 (piece_progress 6) l1 l2 ->
  Forall2 expansion_of l1 (map piece_text l2).
Proof.
  induction 1 as [|x y l1 l2 Hxy _ IH]; cbn [map]; constructor;
    [|exact IH].
  destruct x as [s|t]; cbn [piece_progress] in Hxy.
  - now subst y.
  - destruct (Nat.ltb_spec (pass_of t) 6) as [_|Hge].
    + destruct Hxy as (out & -> & Hout). exact Hout.
    + destruct t; cbn [pass_of] in Hge; lia.
Qed.

(** The passes still to come read, on the current pieces, what they would
    read on the template. *)
Lemma stage_cost_progress (stage k : nat) (l1 l2 : list piece) :
  (stage <= k)%nat ->
  Forall2 (piece_progress stage) l1 l2 ->
  stage_cost k l2 = stage_cost k l1.
Proof.
  intros Hk. induction 1 as [|x y l1 l2 Hxy _ IH]; [reflexivity|].
  rewrite !stage_cost_cons, IH. f_equal.
  destruct x as [s|t]; cbn [piece_progress] in Hxy.
  - now subst y.
  - destruct (Nat.ltb_spec (pass_of t) stage) as [Hlt|Hge].
    + destruct Hxy as (out & -> & _).
      destruct (Nat.eqb_spec (pass_of t) k); [lia | reflexivity].
    + now subst y.
Qed.

Lemma staged_end (pieces : list piece) :
  Forall (piece_staged 6) pieces -> free_of "{" (render pieces) = true.
Proof.
  induction 1 as [|x pieces Hx _ IH]; [reflexivity|].
  rewrite render_cons, free_of_append, IH, andb_true_r.
  destruct x as [s|t]; cbn [piece_staged] in Hx; [exact Hx|].
  destruct Hx as [_ Hx]. destruct t; cbn [pass_of] in Hx; lia.
Qed.

Lemma staged_start (pieces : list piece) :
  forallb piece_ok pieces = true -> Forall (piece_staged 0) pieces.
Proof.
  intros H. rewrite forallb_forall in H. apply Forall_forall.
  intros x Hx. specialize (H x Hx).
  destruct x as [s|t]; cbn [piece_ok piece_staged] in *;
    [exact H | split; [exact H | lia]].
Qed.

Lemma piece_exact_ok (pieces : list piece) :
  forallb piece_exact pieces = true -> forallb piece_ok pieces = true.
Proof.
  intros H. rewrite forallb_forall in H |- *. intros x Hx.
  specialize (H x Hx). unfold piece_exact in H.
  now apply andb_prop in H as [H _].
Qed.

Section Resolution.

Variable rnd : nat -> Q.
Hypothesis rnd_unit : unit_source rnd.

(** Each resolver returns a text of its token's kind after the samples it
    is due. *)
Lemma resolver_eval (t : token) (p : nat) :
  token_ok t = true ->
  exists out,
    resolver rnd t p = Ok (out, (p + token_cost t)%nat) /\ token_out t out.
Proof.
  intros Ht. destruct t as [count sides| | | | |]; cbn [resolver].
  - cbn [token_ok] in Ht. apply andb_prop in Ht as [Hc Hs].
    now apply dice_resolver_cost.
  - now apply compound_resolver_cost.
  - apply (pick_cost rnd rnd_unit CROPS "1d10" p eq_refl). discriminate.
  - apply (pick_cost rnd rnd_unit INSTRUMENTS "1d8" p eq_refl). discriminate.
  - apply (pick_cost rnd rnd_unit ANIMAL_TRAINER_GEAR "1d4" p eq_refl).
    discriminate.
  - exists (poultry_text rnd p).
    split; [apply (poultry_eval rnd rnd_unit)|].
    destruct (returns_poultry_resolver rnd rnd_unit p)
      as (out & q & Ep & Hout).
    rewrite (poultry_eval rnd rnd_unit) in Ep. now injection Ep as -> _.
Qed.

Ltac text_hit :=
  let t := fresh "t" in
  let p0 := fresh "p0" in
  let Ht := fresh "Ht" in
  intros t ? p0 Ht ?; destruct t; try discriminate;
  destruct (resolver_eval _ p0 Ht) as (out & Hout & Hin);
  exists tt, out;
  split; [apply match_text_hit | split; [reflexivity | split; assumption]].

Ltac text_miss :=
  let t := fresh "t" in
  intros t ? ? ?; destruct t; cbn [pass_of] in *; try lia; reflexivity.

(** The six scans of [expandGearTemplate] over the text of a flat template
    do what the six passes of [resolve] do over its pieces. *)
Lemma expandGearTemplate_resolve (pieces : list piece) (p : nat) :
  forallb piece_ok pieces = true ->
  expandGearTemplate rnd (render pieces) p
  = Ok (render (fst (resolve rnd pieces p)), snd (resolve rnd pieces p)) /\
  snd (resolve rnd pieces p) = (p + template_cost pieces)%nat /\
  Forall2 expansion_of pieces (map piece_text (fst (resolve rnd pieces p))) /\
  free_of "{" (render (fst (resolve rnd pieces p))) = true.
Proof.
  intros Hok. apply staged_start in Hok as H0.
  pose proof (piece_progress_start pieces) as G0.
  unfold resolve. cbn [seq fold_left fst snd].
  destruct (pass_resolve rnd match_dice
              (fun '(count, sides) =>
                 r <- roll rnd (count ++ "d" ++ sides) ;;
                 ret (JS.String_of_number r))
              0 match_dice_brace) with (pieces := pieces) (p := p)
    as (E1 & Q1 & H1 & S1); [| |exact H0|].
  { intros t rest p0 Ht Hp. destruct t as [count sides| | | | |];
      try discriminate Hp.
    destruct (resolver_eval _ p0 Ht) as (out & Hout & Hin).
    cbn [token_ok] in Ht. apply andb_prop in Ht as [Hc Hs].
    exists (count, sides), out.
    split; [now apply match_dice_hit|].
    split; [reflexivity | split; assumption]. }
  { text_miss. }
  pose proof (Forall2_compose _ _ _ (piece_progress_step 0) _ _ _ G0 S1)
    as G1.
  destruct (resolve_stage rnd 0 pieces p) as [l1 q1]. cbn [fst snd] in *.
  destruct (pass_resolve rnd (match_text "{2+1d4*2}")
              (fun _ =>
                 r <- roll rnd "1d4" ;;
                 ret (JS.String_of_number
                        (JS.add (JS.Num 2) (JS.mul r (JS.Num 2)))))
              1 (match_text_brace _)) with (pieces := l1) (p := q1)
    as (E2 & Q2 & H2 & S2); [| |exact H1|].
  { text_hit. }
  { text_miss. }
  pose proof (Forall2_compose _ _ _ (piece_progress_step 1) _ _ _ G1 S2)
    as G2.
  rewrite (stage_cost_progress 1 1 _ _ (le_n _) G1) in Q2.
  destruct (resolve_stage rnd 1 l1 q1) as [l2 q2]. cbn [fst snd] in *.
  destruct (pass_resolve rnd (match_text "{crop}")
              (fun _ => pick rnd CROPS "1d10")
              2 (match_text_brace _)) with (pieces := l2) (p := q2)
    as (E3 & Q3 & H3 & S3); [| |exact H2|].
  { text_hit. }
  { text_miss. }
  pose proof (Forall2_compose _ _ _ (piece_progress_step 2) _ _ _ G2 S3)
    as G3.
  rewrite (stage_cost_progress 2 2 _ _ (le_n _) G2) in Q3.
  destruct (resolve_stage rnd 2 l2 q2) as [l3 q3]. cbn [fst snd] in *.
  destruct (pass_resolve rnd (match_text "{instrument}")
              (fun _ => pick rnd INSTRUMENTS "1d8")
              3 (match_text_brace _)) with (pieces := l3) (p := q3)
    as (E4 & Q4 & H4 & S4); [| |exact H3|].
  { text_hit. }
  { text_miss. }
  pose proof (Forall2_compose _ _ _ (piece_progress_step 3) _ _ _ G3 S4)
    as G4.
  rewrite (stage_cost_progress 3 3 _ _ (le_n _) G3) in Q4.
  destruct (resolve_stage rnd 3 l3 q3) as [l4 q4]. cbn [fst snd] in *.
  destruct (pass_resolve rnd (match_text "{animal_trainer_gear}")
              (fun _ => pick rnd ANIMAL_TRAINER_GEAR "1d4")
              4 (match_text_brace _)) with (pieces := l4) (p := q4)
    as (E5 & Q5 & H5 & S5); [| |exact H4|].
  { text_hit. }
  { text_miss. }
  pose proof (Forall2_compose _ _ _ (piece_progress_step 4) _ _ _ G4 S5)
    as G5.
  rewrite (stage_cost_progress 4 4 _ _ (le_n _) G4) in Q5.
  destruct (resolve_stage rnd 4 l4 q4) as [l5 q5]. cbn [fst snd] in *.
  destruct (pass_resolve rnd (match_text "{poultry}")
              (fun _ => poultry rnd)
              5 (match_text_brace _)) with (pieces := l5) (p := q5)
    as (E6 & Q6 & H6 & S6); [| |exact H5|].
  { text_hit. }
  { text_miss. }
  pose proof (Forall2_compose _ _ _ (piece_progress_step 5) _ _ _ G5 S6)
    as G6.
  rewrite (stage_cost_progress 5 5 _ _ (le_n _) G5) in Q6.
  destruct (resolve_stage rnd 5 l5 q5) as [l6 q6]. cbn [fst snd] in *.
  split.
  { unfold expandGearTemplate.
    rewrite (bind_eval _ _ _ _ _ E1), (bind_eval _ _ _ _ _ E2),
      (bind_eval _ _ _ _ _ E3), (bind_eval _ _ _ _ _ E4),
      (bind_eval _ _ _ _ _ E5).
    exact E6. }
  split.
  { rewrite <- stage_costs_sum. lia. }
  split; [now apply piece_progress_end | now apply staged_end].
Qed.

End Resolution.

(** C4, as amended.  A template in which no supported token occurs is
    returned unchanged, so expanding it again changes nothing.  On a flat
    template, made of literal text without opening brace and of supported
    tokens whose dice stay within the integers doubles hold exactly, the
    expansion is the piece-by-piece resolution [resolve]: every token is
    replaced by the text its own resolver call returns, the calls running
    pass by pass and from the left, each on the samples that follow those
    of the call before, so that the template reads the sum of what its
    tokens read; each replacement is a text of its token's kind (a decimal
    numeral for [{NdS}]; 4, 6, 8 or 10 for [{2+1d4*2}]; an entry of the
    crop, instrument or animal-trainer list; a bird count); the literal
    text is kept; and the output holds no opening brace, hence no
    supported token. *)
Theorem expandGearTemplate_tokens (rnd : nat -> Q) (p : nat) :
  (forall template : string,
      token_free template = true ->
      expandGearTemplate rnd template p = Ok (template, p) /\
      (s <- expandGearTemplate rnd template ;; expandGearTemplate rnd s) p
      = Ok (template, p)) /\
  (unit_source rnd ->
   forall pieces : list piece,
     forallb piece_exact pieces = true ->
     expandGearTemplate rnd (render pieces) p
     = Ok (render (fst (resolve rnd pieces p)), snd (resolve rnd pieces p)) /\
     snd (resolve rnd pieces p) = (p + template_cost pieces)%nat /\
     Forall2 expansion_of pieces
       (map piece_text (fst (resolve rnd pieces p))) /\
     free_of "{" (render (fst (resolve rnd pieces p))) = true /\
     token_free (render (fst (resolve rnd pieces p))) = true).
Proof.
  split.
  - intros template H.
    pose proof (expandGearTemplate_token_free rnd template p H) as E.
    split; [exact E|]. unfold bind. rewrite E.
    now apply expandGearTemplate_token_free.
  - intros Hu pieces H. apply piece_exact_ok in H.
    destruct (expandGearTemplate_resolve rnd Hu pieces p H)
      as (E & Hq & Hkind & Hfree).
    repeat (split; [assumption|]).
    now apply free_of_token_free.
Qed.

Lemma expandGearTemplate_tokens_witness :
  token_free "dice, cards (marked)" = true /\
  expandGearTemplate fixture_rnd "dice, cards (marked)" 0%nat
  = Ok ("dice, cards (marked)", 0%nat) /\
  forallb piece_exact
    [Tok TCrop; Lit " seeds, "; Tok (TDice "1" "6"); Lit " coins, ";
     Tok TPoultry] = true /\
  resolve fixture_rnd
    [Tok TCrop; Lit " seeds, "; Tok (TDice "1" "6"); Lit " coins, ";
     Tok TPoultry] 0%nat
  = ([Lit "wheat"; Lit " seeds, "; Lit "2"; Lit " coins, "; Lit "2 swans"],
     7%nat) /\
  expandGearTemplate fixture_rnd "{crop} seeds, {1d6} coins, {poultry}" 0%nat
  = Ok ("wheat seeds, 2 coins, 2 swans", 7%nat).
Proof.
  destruct (expandGearTemplate_tokens fixture_rnd 0%nat) as [HA HB].
  split; [vm_compute; reflexivity|].
  split; [apply (HA "dice, cards (marked)"); vm_compute; reflexivity|].
  split; [vm_compute; reflexivity|].
  split; [vm_compute; reflexivity|].
  destruct (HB fixture_rnd_unit
              [Tok TCrop; Lit " seeds, "; Tok (TDice "1" "6");
               Lit " coins, "; Tok TPoultry]) as (E & _);
    [vm_compute; reflexivity|].
  etransitivity; [exact E|]. vm_compute. reflexivity.
Defined.
(** ** Failure-freedom of the generator, cell by cell *)

Lemma nth_error_cell {A : Type} (l : list A) (k : nat) :
  (k < List.length l)%nat -> exists a, nth_error l k = Some a.
Proof.
  intros H. destruct (nth_error l k) as [a|] eqn:E; [now exists a|].
  apply nth_error_None in E. lia.
Qed.

Lemma d20_row_In (rows : list (list string)) (row : list string) :
  d20_row rows row -> In row rows.
Proof. intros (i & _ & H). eapply nth_error_In. exact H. Qed.

Lemma name_column_bound (species : string) (k : nat) :
  name_column species k -> (k < 7)%nat.
Proof.
  unfold name_column.
  destruct (String.eqb species "Elf"); [lia|].
  destruct (String.eqb species "Dwarf"); [lia|].
  destruct (String.eqb species "Halfling"); lia.
Qed.

(** What a bond lookup that returns has read. *)
Lemma getBond_Ok (rnd : nat -> Q) (T : Tables) (p q : nat) (b : string) :
  unit_source rnd ->
  getBond rnd T p = Ok (b, q) ->
  exists (row : list string) (template : string) (k : nat),
    d20_row (bondRows T) row /\
    nth_error row 0 = Some template /\
    (1 <= k <= 4)%nat /\
    b = JS.replace "..." (JS.String_of_value (nth_error row k)) template.
Proof.
  intros Hu. unfold getBond.
  rewrite (bind_eval _ _ _ _ _ (roll_one rnd "1d20" 20 p eq_refl)).
  rewrite (bind_eval _ _ _ _ _ (roll_one rnd "1d4" 4 (S p) eq_refl)).
  intros H. apply bind_Ok in H as (row & q1 & Hrow & H).
  apply defined_Ok in Hrow as [Hrow Hq]. cbn [fst snd] in Hrow, Hq. subst q1.
  apply bind_Ok in H as (template & q2 & Ht & H).
  apply defined_Ok in Ht as [Ht Hq]. cbn [fst snd] in Ht, Hq. subst q2.
  unfold ret in H. injection H as <- <-.
  pose proof (die_range rnd Hu 4 (S p) ltac:(lia)) as B.
  rewrite get_nth_error in Ht by lia.
  assert (Hlt : (die rnd 4 (S p) <? 0) = false) by (apply Z.ltb_ge; lia).
  rewrite Hlt.
  exists row, template, (Z.to_nat (die rnd 4 (S p))).
  split; [now apply (d20_row_get rnd _ _ p)|].
  split; [exact Ht|]. split; [lia | reflexivity].
Qed.

Section InRange.

Variable rnd : nat -> Q.
Variable T : Tables.
Hypothesis rnd_unit : unit_source rnd.
Hypothesis T_wf : tables_wf T = true.

(** In a well-formed table every cell the generator may ask for exists. *)
Lemma table_cell (n columns k : nat) (rows : list (list string))
    (row : list string) :
  has_rows n columns rows = true -> d20_row rows row -> (k < columns)%nat ->
  exists cell, nth_error row k = Some cell.
Proof.
  intros H Hrow Hk. apply has_rows_spec in H as [_ Hc].
  apply nth_error_cell. specialize (Hc row (d20_row_In _ _ Hrow)). lia.
Qed.

Lemma occupation_row_found (r : Z) (p : nat) :
  1 <= r <= 100 ->
  exists (row : list string) (cell template : string),
    find_row (JS.Num r) (occupationRows T) p = Ok (Some row, p) /\
    nth_error row 1 = Some cell /\ nth_error row 2 = Some template.
Proof.
  intros Hr.
  destruct (find_row_found (JS.Num r) (occupationRows T) p
              (occupation_rows_nonempty T T_wf) (range_covered T T_wf r Hr))
    as (row & Hf & Hin & _).
  destruct (tables_wf_parts T T_wf) as (_ & _ & _ & _ & _ & Hg).
  unfold gear_columns in Hg. rewrite forallb_forall in Hg.
  specialize (Hg row Hin). apply Nat.leb_le in Hg.
  destruct (nth_error_cell row 1 ltac:(lia)) as (cell & E1).
  destruct (nth_error_cell row 2 ltac:(lia)) as (template & E2).
  now exists row, cell, template.
Qed.

Lemma picks_land : picks_in_range rnd.
Proof.
  intros p. rewrite <- (Nat.add_1_r p).
  split; [|split; [|split]].
  - apply (pick_cost rnd rnd_unit CROPS "1d10" p eq_refl). discriminate.
  - apply (pick_cost rnd rnd_unit INSTRUMENTS "1d8" p eq_refl). discriminate.
  - apply (pick_cost rnd rnd_unit ANIMAL_TRAINER_GEAR "1d4" p eq_refl).
    discriminate.
  - exists (poultry_text rnd p).
    split; [apply (poultry_eval rnd rnd_unit)|].
    destruct (returns_poultry_resolver rnd rnd_unit p)
      as (out & q & Ep & Hout).
    rewrite (poultry_eval rnd rnd_unit) in Ep. now injection Ep as -> _.
Qed.

(** Every cell a generated villager is made of was read inside its
    table. *)
Lemma generateVillager_cells (p q : nat) (v : Villager) :
  generateVillager rnd T p = Ok (v, q) ->
  occupation_in_range rnd T p v /\ name_in_range T v /\
  look_in_range T v /\ bond_in_range T v.
Proof.
  intros H.
  destruct (tables_wf_parts T T_wf) as (_ & _ & Hn & Hl & Hb & Hg).
  apply generateVillager_Ok in H
    as (d100 & occ & n & l & b & q1 & q2 & q3 & q4
        & Hd & Ho & Hname & Hlook & Hbond & ->).
  rewrite (roll_one rnd "1d100" 100 (p + 21) eq_refl) in Hd.
  injection Hd as <- <-.
  replace (S (p + 21)) with (p + 22)%nat in Ho by lia.
  apply getOccupation_Ok in Ho as (row & template & Hf & Ht & Hgear & Hnm & _).
  rewrite get_nth_error in Ht, Hnm by lia.
  change (Z.to_nat 2) with 2%nat in Ht. change (Z.to_nat 1) with 1%nat in Hnm.
  unfold villager_of.
  split; [|split; [|split]].
  - unfold occupation_in_range. cbn [occupation gear].
    assert (Hlen : (2 < List.length row)%nat)
      by (apply nth_error_Some; congruence).
    destruct (nth_error_cell row 1 ltac:(lia)) as (cell & E1).
    exists row, cell, template, (occ_gear occ), q2.
    repeat split; try assumption. congruence.
  - unfold name_in_range. cbn [name species].
    apply (getName_Ok rnd T _ _ _ _ rnd_unit) in Hname
      as (nrow & k & Hrow & Hk & -> & _).
    destruct (table_cell 20 7 k _ nrow Hn Hrow (name_column_bound _ _ Hk))
      as (cell & E).
    exists nrow, k, cell. repeat split; assumption.
  - unfold look_in_range. cbn [look].
    apply (getLook_Ok rnd T rnd_unit) in Hlook as (_ & Hparts).
    exact Hparts.
  - unfold bond_in_range. cbn [bond].
    apply (getBond_Ok rnd T _ _ _ rnd_unit) in Hbond
      as (brow & btemplate & k & Hrow & Ht0 & Hk & ->).
    destruct (table_cell 20 5 k _ brow Hb Hrow ltac:(lia)) as (detail & E).
    exists brow, btemplate, detail, k. rewrite E.
    repeat split; try assumption; lia.
Qed.

End InRange.


